(** * Resample-Lab: the recommendation engine (src/logic/recommendationEngine.ts)

    A shallow embedding of the engine's pure functions and the proofs of
    the properties its specification states about them, followed by the
    pure parts of the application shell that feed and read the engine
    (parameter updates, chart scales and ticks, canvas painting, sliders)
    and properties read off their code.

    Number model.  A JavaScript [number] is modelled as an exact real:
    [+ - * /] are the field operations of [R], comparisons are decided
    classically, [Math.exp], [Math.log10] and [Math.pow] are the mathematical
    functions they approximate, and [Math.floor] is the integer floor.
    Rounding error is outside this model: a property that holds here by an
    exact cancellation ([10 ^ log10 x = x]) or by the direction of a tie
    holds in the code only up to the last bit of a double, and the
    properties below are stated so that they do not rest on either.  The
    infinities and NaN are outside it too, except for the fold analyzer,
    which is also embedded over the extended numbers ([Extended]) so that
    its behaviour at a zero divisor can be stated. *)

From Stdlib Require Import Reals Zfloor Lra Lia ZArith Bool String Ascii List.
From Stdlib Require Import Sorted.
Import ListNotations.

#[local] Open Scope string_scope.
#[local] Open Scope R_scope.

(** ** JavaScript numbers and [Math] *)

Module JS.

Definition ltb (x y : R) : bool := if Rlt_dec x y then true else false.
Definition leb (x y : R) : bool := if Rle_dec x y then true else false.
Definition gtb (x y : R) : bool := if Rgt_dec x y then true else false.
Definition geb (x y : R) : bool := if Rge_dec x y then true else false.
(** [===] on two numbers. *)
Definition eqb (x y : R) : bool := if Req_dec_T x y then true else false.

(** [Math.floor], [Math.round], [Math.log10], [Math.exp], [Math.pow],
    [Math.max] and [Math.min]. *)
Definition floor (x : R) : R := IZR (Zfloor x).
Definition round (x : R) : R := IZR (Zfloor (x + / 2)).
Definition log10 (x : R) : R := ln x / ln 10.
Definition exp (x : R) : R := Rtrigo_def.exp x.
(** [Math.pow x y] for a positive base, the only way the engine calls it. *)
Definition pow (x y : R) : R := Rpower x y.
Definition max (x y : R) : R := Rmax x y.
Definition min (x y : R) : R := Rmin x y.
Definition max4 (a b c d : R) : R := max (max (max a b) c) d.

(** The number that [x.toFixed(digits)] denotes: with [n] the integer for
    which [n / 10^digits - x] is closest to zero, the larger one on a tie,
    the digits of [n] with the point inserted; a negative [x] is formatted
    as the negation of [-x].  The tie rule is the one of the language, on
    the number [toFixed] receives.  A quotient that is a tie as a real
    (17/40 at two digits) reaches [toFixed] as the double next to it, which
    is a tie only when it is dyadic (1/8): what is proved of a rounded
    quotient therefore leaves the neighbour chosen at a tie open. *)
Definition toFixedNat (x : R) (digits : nat) : R :=
  IZR (Zfloor (x * 10 ^ digits + / 2)) / 10 ^ digits.
Definition toFixedValue (x : R) (digits : nat) : R :=
  if ltb x 0 then - toFixedNat (- x) digits else toFixedNat x digits.

(** [haystack.includes(needle)]. *)
Fixpoint includes (needle haystack : string) : bool :=
  prefix needle haystack ||
  match haystack with
  | EmptyString => false
  | String _ rest => includes needle rest
  end.

(** A template literal: text with the interpolated numbers kept as numbers.
    [Num x] is [${x}], [Fixed x d] is [${x.toFixed(d)}]. *)
Inductive piece : Type :=
| Lit (s : string)
| Num (x : R)
| Fixed (x : R) (digits : nat).

Definition text := list piece.

(** The string a template denotes, given the two number formatters. *)
Definition render (toString : R -> string) (toFixed : R -> nat -> string)
    (t : text) : string :=
  fold_right
    (fun p acc =>
       match p with
       | Lit s => s ++ acc
       | Num x => toString x ++ acc
       | Fixed x d => toFixed x d ++ acc
       end)%string
    EmptyString t.

End JS.

Declare Scope js_scope.
Delimit Scope js_scope with js.
Infix "<?" := JS.ltb (at level 70, no associativity) : js_scope.
Infix "<=?" := JS.leb (at level 70, no associativity) : js_scope.
Infix ">?" := JS.gtb (at level 70, no associativity) : js_scope.
Infix ">=?" := JS.geb (at level 70, no associativity) : js_scope.
Infix "===" := JS.eqb (at level 70, no associativity) : js_scope.
#[local] Open Scope js_scope.

(** ** src/types.ts *)

Inductive StrategyType : Type :=
| OVERSAMPLE
| UNDERSAMPLE
| HYBRID
| BASELINE.

(** The string value of each enum member. *)
Definition strategyName (s : StrategyType) : string :=
  match s with
  | OVERSAMPLE => "Oversample"
  | UNDERSAMPLE => "Undersample"
  | HYBRID => "Hybrid"
  | BASELINE => "No Resampling / Class Weights"
  end.

Record DatasetParams : Type := {
  features : R;
  minority : R;
  total : R;
  folds : R;
  sparsity : R;
  sparsityHomogeneity : R
}.

Record RGB : Type := { r : R; g : R; b : R }.

Record FoldAnalysis : Type := {
  minPerFold : R;
  minInTraining : R;
  label : string;
  statusColor : string;
  statusBg : string;
  viabilityScore : R;
  validationRisk : JS.text;
  trainingImpact : JS.text
}.

Record Recommendation : Type := {
  strategy : StrategyType;
  title : JS.text;
  description : string;
  rationale : JS.text;
  foldTarget : JS.text;
  samplingMix : JS.text;
  color : string;
  foldAnalysis : FoldAnalysis;
  sparsityWarning : option string
}.

(** ** Configuration and constants *)

Definition COLORS (s : StrategyType) : string :=
  match s with
  | OVERSAMPLE => "#ef4444"
  | UNDERSAMPLE => "#3b82f6"
  | HYBRID => "#a855f7"
  | BASELINE => "#10b981"
  end.

Module THRESHOLDS.
Definition DIM_LOW : R := 20.
Definition DIM_HIGH : R := 100.
Definition MIN_SAMPLES_BASE : R := 200.
Definition EFFICIENCY_RATIO : R := 60.
Definition EFFICIENCY_TOTAL : R := 150000.
Definition SPARSITY_CRITICAL : R := 0.6.
Definition SPARSITY_SKEWED : R := 0.3.
End THRESHOLDS.

Inductive FoldStatus : Type := LOO | IMPOSSIBLE | LOPO | VARIANCE | STABLE.

Record StatusConfig : Type := {
  cfgColor : string;
  cfgBg : string;
  cfgLabel : string
}.

Definition FOLD_STATUS_CONFIG (k : FoldStatus) : StatusConfig :=
  match k with
  | LOO =>
      {| cfgColor := "text-pink-400";
         cfgBg := "bg-pink-500/20 border-pink-500/30";
         cfgLabel := "Leave-One-Out Cross-Validation" |}
  | IMPOSSIBLE =>
      {| cfgColor := "text-zinc-500";
         cfgBg := "bg-zinc-800 border-zinc-700";
         cfgLabel := "Statistically Invalid" |}
  | LOPO =>
      {| cfgColor := "text-purple-400";
         cfgBg := "bg-purple-500/20 border-purple-500/30";
         cfgLabel := "Leave-One-Positive-Out (Stratified)" |}
  | VARIANCE =>
      {| cfgColor := "text-amber-400";
         cfgBg := "bg-amber-500/20 border-amber-500/30";
         cfgLabel := "High Variance Region" |}
  | STABLE =>
      {| cfgColor := "text-emerald-400";
         cfgBg := "bg-emerald-500/20 border-emerald-500/30";
         cfgLabel := "Stable Evaluation" |}
  end.

(** ** Math helpers *)

(** [parseInt(hex.slice(i, i + 2), 16)]. *)
Definition hexDigit (c : ascii) : Z :=
  let n := Z.of_nat (nat_of_ascii c) in
  if (48 <=? n)%Z && (n <=? 57)%Z then n - 48
  else if (97 <=? n)%Z && (n <=? 102)%Z then n - 87
  else if (65 <=? n)%Z && (n <=? 70)%Z then n - 55
  else 0.

Definition parseHexPair (s : string) (i : nat) : Z :=
  match String.get i s, String.get (S i) s with
  | Some hi, Some lo => 16 * hexDigit hi + hexDigit lo
  | _, _ => 0
  end.

Definition hexToRgb (hex : string) : RGB :=
  {| r := IZR (parseHexPair hex 1);
     g := IZR (parseHexPair hex 3);
     b := IZR (parseHexPair hex 5) |}.

Definition STRATEGY_RGB (s : StrategyType) : RGB := hexToRgb (COLORS s).

(** Sigmoid for smooth transitions (base 10).  Over the reals the gate
    stays strictly inside (0, 1); a double saturates to exactly 0 or 1 far
    from the threshold, so the properties of the gate are stated with
    weak bounds. *)
Definition sigmoid (val threshold k : R) : R :=
  let x := JS.log10 (JS.max val 1) in
  let t := JS.log10 (JS.max threshold 1) in
  1 / (1 + JS.exp (- k * (x - t))).

(** ** Domain logic helpers *)

Definition getMinorityThreshold (p : R) : R :=
  if p <=? THRESHOLDS.DIM_LOW then THRESHOLDS.MIN_SAMPLES_BASE
  else if p <=? THRESHOLDS.DIM_HIGH
       then THRESHOLDS.MIN_SAMPLES_BASE + (p - THRESHOLDS.DIM_LOW) * 2.5
       else 400 + 200 * JS.log10 (p / 100).

Definition getDistanceStability (sparsity homogeneity : R) : R :=
  if sparsity <? 0.3 then 1
  else
    let baseInstability := JS.pow sparsity 2.5 in
    let distributionImpact := 0.2 + 0.8 * homogeneity in
    let risk := baseInstability * distributionImpact in
    JS.max 0 (1 - risk).

(** ** Core calculation engine *)

(** The four mutable accumulators of [calculateWeights]. *)
Record Weights : Type := {
  wOversample : R;
  wUndersample : R;
  wHybrid : R;
  wBaseline : R
}.

Record WeightResult : Type := {
  weights : Weights;
  stability : R;
  dominantOriginal : option StrategyType
}.

Definition totalOf (w : Weights) : R :=
  wOversample w + wUndersample w + wHybrid w + wBaseline w.

(** Steps 1 and 2: the dimensionality, count and ratio factors. *)
Record Factors : Type := {
  isLowDim : R;
  isHighDim : R;
  isMedDim : R;
  isTinyMin : R;
  efficiencyPressure : R
}.

Definition factors (p nMin nTotal : R) : Factors :=
  let threshold := getMinorityThreshold p in
  let isLowDim := 1 - sigmoid p THRESHOLDS.DIM_LOW 12 in
  let isHighDim := sigmoid p THRESHOLDS.DIM_HIGH 12 in
  let isMedDim := 1 - isLowDim - isHighDim in
  let isTinyMin := 1 - sigmoid nMin threshold 10 in
  let ratio := nTotal / JS.max 1 nMin in
  let isHighRatio := sigmoid ratio THRESHOLDS.EFFICIENCY_RATIO 8 in
  let isLargeTotal := sigmoid nTotal THRESHOLDS.EFFICIENCY_TOTAL 8 in
  let efficiencyPressure := JS.max isHighRatio isLargeTotal in
  {| isLowDim := isLowDim; isHighDim := isHighDim; isMedDim := isMedDim;
     isTinyMin := isTinyMin; efficiencyPressure := efficiencyPressure |}.

(** Step 3, one [if] block each. *)
Definition lowDimRegime (f : Factors) (w : Weights) : Weights :=
  if isLowDim f >? 0.01 then
    let safeScore := isLowDim f * (1 - isTinyMin f) in
    {| wOversample := wOversample w + isLowDim f * isTinyMin f;
       wUndersample := wUndersample w + safeScore * efficiencyPressure f;
       wHybrid := wHybrid w;
       wBaseline := wBaseline w + safeScore * (1 - efficiencyPressure f) |}
  else w.

Definition medDimRegime (f : Factors) (w : Weights) : Weights :=
  if isMedDim f >? 0.01 then
    let safeScore := isMedDim f * (1 - isTinyMin f) in
    {| wOversample := wOversample w;
       wUndersample := wUndersample w + safeScore * efficiencyPressure f;
       wHybrid := wHybrid w + isMedDim f * isTinyMin f;
       wBaseline := wBaseline w + safeScore * (1 - efficiencyPressure f) |}
  else w.

Definition highDimRegime (f : Factors) (w : Weights) : Weights :=
  if isHighDim f >? 0.01 then
    {| wOversample := wOversample w;
       wUndersample := wUndersample w + isHighDim f * (1 - isTinyMin f);
       wHybrid := wHybrid w + isHighDim f * isTinyMin f;
       wBaseline := wBaseline w |}
  else w.

(** Fallback to baseline if no strategy strongly activated. *)
Definition fallback (w : Weights) : Weights :=
  let totalW := totalOf w in
  if totalW <? 0.001 then
    {| wOversample := wOversample w; wUndersample := wUndersample w;
       wHybrid := wHybrid w; wBaseline := 1 |}
  else w.

(** The weights as they stand just before step 4. *)
Definition rawWeights (p nMin nTotal : R) : Weights :=
  let f := factors p nMin nTotal in
  let w0 := {| wOversample := 0; wUndersample := 0;
               wHybrid := 0; wBaseline := 0 |} in
  fallback (highDimRegime f (medDimRegime f (lowDimRegime f w0))).

(** Dominant strategy before the sparsity penalty. *)
Definition dominantOf (w : Weights) : option StrategyType :=
  let maxOrig :=
    JS.max4 (wOversample w) (wUndersample w) (wHybrid w) (wBaseline w) in
  if maxOrig === wOversample w then Some OVERSAMPLE
  else if maxOrig === wHybrid w then Some HYBRID
  else if maxOrig === wUndersample w then Some UNDERSAMPLE
  else Some BASELINE.

(** Step 4, statement by statement: each [+=] on the baseline reads the
    accumulator that the line before it has already reduced. *)
Definition applyPenalty (penalty : R) (w : Weights) : Weights :=
  if penalty >? 0 then
    let wOversample1 := wOversample w - wOversample w * penalty in
    let wBaseline1 := wBaseline w + wOversample1 * penalty in
    let wHybrid1 := wHybrid w - wHybrid w * penalty in
    let wBaseline2 := wBaseline1 + wHybrid1 * penalty in
    {| wOversample := wOversample1; wUndersample := wUndersample w;
       wHybrid := wHybrid1; wBaseline := wBaseline2 |}
  else w.

Definition calculateWeights (p nMin nTotal sparsity homogeneity : R)
    : WeightResult :=
  let w := rawWeights p nMin nTotal in
  let dominantOriginal := dominantOf w in
  let stability := getDistanceStability sparsity homogeneity in
  let penalty := 1 - stability in
  {| weights := applyPenalty penalty w;
     stability := stability;
     dominantOriginal := dominantOriginal |}.

(** ** Visual generators *)

(** [accumulate(weight, type)] on the running colour. *)
Definition accumulate (totalWeight : R) (weight : R) (type : StrategyType)
    (acc : RGB) : RGB :=
  if weight >? 0 then
    let normW := weight / totalWeight in
    let c := STRATEGY_RGB type in
    {| r := r acc + r c * normW;
       g := g acc + g c * normW;
       b := b acc + b c * normW |}
  else acc.

Definition getSmoothStrategyRGB (p nMin nTotal sparsity homogeneity : R)
    : RGB :=
  let w := weights (calculateWeights p nMin nTotal sparsity homogeneity) in
  let sum := totalOf w in
  (* [sum || 1]: zero is falsy *)
  let totalWeight := if sum === 0 then 1 else sum in
  accumulate totalWeight (wBaseline w) BASELINE
    (accumulate totalWeight (wHybrid w) HYBRID
       (accumulate totalWeight (wUndersample w) UNDERSAMPLE
          (accumulate totalWeight (wOversample w) OVERSAMPLE
             {| r := 0; g := 0; b := 0 |}))).

Definition getFoldStabilityRGB (minority folds : R) : RGB :=
  let minPerFold := minority / JS.max 1 folds in
  if minPerFold <? 1 then {| r := 20; g := 10; b := 10 |}
  else if minPerFold <? 5 then {| r := 220; g := 40; b := 40 |}
  else if minPerFold <? 30 then
    let t := (minPerFold - 5) / 25 in
    {| r := 239 + (16 - 239) * t;
       g := 68 + (185 - 68) * t;
       b := 68 + (129 - 68) * t |}
  else {| r := 16; g := 185; b := 129 |}.

(** ** Fold analyzer *)

Definition effectiveFolds (folds total : R) : R := JS.min folds total.

(** The [if] chain that picks the status and its two texts. *)
Definition classifyFolds (minority total effectiveFolds minPerFold : R)
    (isLOOCV isStratificationImpossible : bool)
    : FoldStatus * JS.text * JS.text :=
  if isLOOCV then
    (LOO,
     [JS.Lit "Validation reduces to binary (0/1) loss. Probability calibration is impossible."],
     [JS.Lit "Maximizes training data (N="; JS.Num (total - 1);
      JS.Lit "), but computationally expensive."])
  else if isStratificationImpossible then
    (IMPOSSIBLE,
     [JS.Lit "Folds (k="; JS.Num effectiveFolds;
      JS.Lit ") > Minority Samples ("; JS.Num minority;
      JS.Lit "). Stratification is impossible."],
     [JS.Lit "N/A"])
  else if minPerFold <? 1.5 then
    (LOPO,
     [JS.Lit "Single positive sample per fold prevents variance estimation."],
     [JS.Lit "Maximized Training (~"; JS.Num (minority - 1);
      JS.Lit " positives per round)."])
  else if minPerFold <? 15 then
    (VARIANCE,
     [JS.Lit "Low density ("; JS.Fixed minPerFold 1;
      JS.Lit " samples/fold) results in noisy performance metrics."],
     [JS.Lit "High training data retention, but reduced validation reliability."])
  else
    (STABLE,
     [JS.Lit "Sufficient density for stable metric estimation (e.g., AUC-ROC, F1)."],
     [JS.Lit "Standard Stratified K-Fold Split."]).

(** The analyzer over the reals: the code wherever its divisor is not
    zero.  At a zero divisor the code computes with [Infinity] and [NaN];
    that case is [Extended.analyzeFolds] below. *)
Definition analyzeFolds (minority folds total : R) : FoldAnalysis :=
  let effectiveFolds := effectiveFolds folds total in
  let minPerFold := minority / effectiveFolds in
  let minInTraining :=
    JS.floor (minority * ((effectiveFolds - 1) / effectiveFolds)) in
  let viabilityScore := JS.min 100 (minPerFold / 30 * 100) in
  let isLOOCV := (effectiveFolds >=? total) || (effectiveFolds >=? 5000) in
  let isStratificationImpossible := effectiveFolds >? minority in
  let '(statusKey, validationRisk, trainingImpact) :=
    classifyFolds minority total effectiveFolds minPerFold
      isLOOCV isStratificationImpossible in
  let config := FOLD_STATUS_CONFIG statusKey in
  (* [Number(displayMinPerFold)] *)
  let displayMinPerFold :=
    if minPerFold <? 1 then JS.toFixedValue minPerFold 2
    else JS.floor minPerFold in
  {| minPerFold := displayMinPerFold;
     minInTraining := minInTraining;
     label := cfgLabel config;
     statusColor := cfgColor config;
     statusBg := cfgBg config;
     viabilityScore :=
       if isStratificationImpossible && negb isLOOCV then 0
       else viabilityScore;
     validationRisk := validationRisk;
     trainingImpact := trainingImpact |}.

(** ** Main recommendation *)

Definition strategy_eqb (x y : StrategyType) : bool :=
  match x, y with
  | OVERSAMPLE, OVERSAMPLE | UNDERSAMPLE, UNDERSAMPLE
  | HYBRID, HYBRID | BASELINE, BASELINE => true
  | _, _ => false
  end.

Definition dominant_is (d : option StrategyType) (s : StrategyType) : bool :=
  match d with
  | Some x => strategy_eqb x s
  | None => false
  end.

(** [${dominantOriginal}]. *)
Definition dominantName (d : option StrategyType) : string :=
  match d with
  | Some s => strategyName s
  | None => "null"
  end.

(** Determine winner: baseline unless overridden, in this order. *)
Definition pickStrategy (w : Weights) : StrategyType :=
  let strategy := BASELINE in
  let maxVal := wBaseline w in
  let '(strategy, maxVal) :=
    if wOversample w >? maxVal then (OVERSAMPLE, wOversample w)
    else (strategy, maxVal) in
  let '(strategy, maxVal) :=
    if wHybrid w >? maxVal then (HYBRID, wHybrid w)
    else (strategy, maxVal) in
  let '(strategy, maxVal) :=
    if wUndersample w >? maxVal then (UNDERSAMPLE, wUndersample w)
    else (strategy, maxVal) in
  strategy.

Definition wasForcedToBaseline (strategy : StrategyType)
    (dominantOriginal : option StrategyType) : bool :=
  strategy_eqb strategy BASELINE &&
  (dominant_is dominantOriginal OVERSAMPLE
   || dominant_is dominantOriginal HYBRID).

(** The fields that the narrative branches assign. *)
Record Narrative : Type := {
  nTitle : JS.text;
  nDescription : string;
  nRationale : JS.text;
  nSparsityWarning : option string;
  nColor : string
}.

Definition narrative (params : DatasetParams) (strategy : StrategyType)
    (stability : R) (dominantOriginal : option StrategyType) : Narrative :=
  let features := features params in
  let minority := minority params in
  let total := total params in
  let sparsity := sparsity params in
  let sparsityHomogeneity := sparsityHomogeneity params in
  let threshold := getMinorityThreshold features in
  let ratio := total / JS.max 1 minority in
  let transitionNote : string :=
    if (minority >? threshold * 0.8) && (minority <? threshold * 1.2)
    then " You are in a complex transition zone. "
    else EmptyString in
  let useUndersampling := strategy_eqb strategy UNDERSAMPLE in
  if wasForcedToBaseline strategy dominantOriginal then
    if (sparsity >? 0.5) && (sparsityHomogeneity <? 0.3) then
      {| nTitle := [JS.Lit "Specialized "; JS.Lit (dominantName dominantOriginal)];
         nDescription := "Structured Sparsity Detected.";
         nRationale :=
           [JS.Lit "High sparsity ("; JS.Num (JS.round (sparsity * 100));
            JS.Lit "%) but concentrated. Standard interpolation (SMOTE) is unreliable. Strategy: Process features separately—interpolate dense columns, impute sparse ones."];
         nSparsityWarning :=
           Some "Recommendation: Utilize SMOTE-NC or feature-specific handling.";
         nColor :=
           COLORS (match dominantOriginal with Some d => d | None => HYBRID end) |}
    else
      {| nTitle := [JS.Lit "No Resampling / Class Weights"];
         nDescription := "Uniform Sparsity Risks Interpolation.";
         nRationale :=
           [JS.Lit "Normally "; JS.Lit (dominantName dominantOriginal);
            JS.Lit " is best, but "; JS.Num (JS.round (sparsity * 100));
            JS.Lit "% uniform sparsity (Stability: "; JS.Fixed stability 2;
            JS.Lit ") renders synthetic neighborhood generation unreliable. Use Class Weights."];
         nSparsityWarning :=
           Some "Critical Sparsity: Euclidean distance metrics are unstable.";
         nColor := COLORS strategy |}
  else if features <=? THRESHOLDS.DIM_LOW then
    if minority <? threshold then
      {| nTitle := [JS.Lit "Oversampling or Hybrid"];
         nDescription := "Small Dataset, Low Dimensionality.";
         nRationale :=
           [JS.Lit "High scarcity relative to feature space (p="; JS.Num features;
            JS.Lit ")."; JS.Lit transitionNote;
            JS.Lit " Avoid data reduction. Augment minority class via synthetic generation (e.g., SMOTE)."];
         nSparsityWarning := None;
         nColor := COLORS strategy |}
    else
      {| nTitle :=
           if useUndersampling
           then [JS.Lit "Undersampling (Efficiency Priority)"]
           else [JS.Lit "No Resampling / Class Weights"];
         nDescription :=
           if useUndersampling
           then (if ratio >? THRESHOLDS.EFFICIENCY_RATIO
                 then "Extreme Class Imbalance."
                 else "Large Scale Dataset.")
           else "Sufficient Signal Strength.";
         nRationale :=
           if useUndersampling
           then JS.Lit "Efficiency required. " ::
                (if ratio >? THRESHOLDS.EFFICIENCY_RATIO
                 then [JS.Lit "Class imbalance (1:"; JS.Fixed ratio 0;
                       JS.Lit ") is extreme."]
                 else [JS.Lit "Dataset magnitude justifies downsampling for computational feasibility."])
           else [JS.Lit "Signal-to-noise ratio likely sufficient.";
                 JS.Lit transitionNote;
                 JS.Lit " Utilize Class Weights or Cost-Sensitive Learning."];
         nSparsityWarning := None;
         nColor := COLORS strategy |}
  else if features <=? THRESHOLDS.DIM_HIGH then
    if minority <? threshold then
      {| nTitle := [JS.Lit "Hybrid Strategy (Over + Under)"];
         nDescription := "High Dimensionality Relative to Minority Count.";
         nRationale :=
           [JS.Lit "Need ~"; JS.Num (JS.round threshold);
            JS.Lit " samples to trust distribution."; JS.Lit transitionNote;
            JS.Lit " Pure oversampling may amplify noise. Recommended: Hybrid approach (e.g., SMOTE + Edited Nearest Neighbors)."];
         nSparsityWarning := None;
         nColor := COLORS strategy |}
    else
      {| nTitle :=
           if useUndersampling
           then [JS.Lit "Undersampling (Efficiency Priority)"]
           else [JS.Lit "No Resampling / Hybrid"];
         nDescription :=
           if useUndersampling
           then "Moderate Sample Regime, High Efficiency."
           else "Moderate Sample Regime.";
         nRationale :=
           if useUndersampling
           then [JS.Lit "Undersampling optimal for speed and 1:";
                 JS.Fixed ratio 0; JS.Lit " ratio."]
           else [JS.Lit "Prioritize Class Weights. If Recall is insufficient, introduce mild oversampling."];
         nSparsityWarning := None;
         nColor := COLORS strategy |}
  else
    if minority <? threshold then
      {| nTitle := [JS.Lit "Hybrid or Algorithmic Approaches"];
         nDescription := "High-Dimensional, Sparse Regime.";
         nRationale :=
           [JS.Lit "High dimensionality (p="; JS.Num features;
            JS.Lit ") induces sparsity (Curse of Dimensionality).";
            JS.Lit transitionNote;
            JS.Lit " Combine generation with aggressive cleaning (Hybrid) or utilize Anomaly Detection models."];
         nSparsityWarning := None;
         nColor := COLORS strategy |}
    else
      {| nTitle := [JS.Lit "Undersampling Strategy"];
         nDescription := "High-Dimensional, Large Scale Data.";
         nRationale :=
           [JS.Lit "Undersampling reduces computational load and noise without disrupting the manifold structure in high dimensions."];
         nSparsityWarning := None;
         nColor := COLORS strategy |}.

(** [if (!result.sparsityWarning && sparsity > SPARSITY_CRITICAL)]; the
    empty string is falsy as well. *)
Definition finalSparsityWarning (current : option string)
    (sparsity sparsityHomogeneity : R) : option string :=
  let unset :=
    match current with
    | None => true
    | Some s => String.eqb s EmptyString
    end in
  if unset && (sparsity >? THRESHOLDS.SPARSITY_CRITICAL) then
    Some (if sparsityHomogeneity <? 0.4
          then "Structured Sparsity: Use Nominal/Continuous variants (e.g., SMOTE-NC)."
          else "Caution: High sparsity reduces distance metric reliability.")
  else current.

(** The last [if] chain: fold target and sampling mix. *)
Definition foldAdvice (minority folds : R) (foldAnalysis : FoldAnalysis)
    : JS.text * JS.text :=
  if JS.includes "Leave-One-Out" (label foldAnalysis) then
    ([JS.Lit "Leave-One-Out (LOOCV)"], [JS.Lit "N/A (All data utilized)."])
  else if folds >? minority then
    ([JS.Lit "INVALID CONFIGURATION"],
     [JS.Lit "Cannot stratify "; JS.Num folds; JS.Lit " folds with ";
      JS.Num minority; JS.Lit " samples."])
  else if minority <? 200 then
    ([JS.Lit "Target >15 samples per fold (Current: ";
      JS.Num (minPerFold foldAnalysis); JS.Lit ")."],
     [JS.Lit "Primary: Oversampling. Maintain synthetic ratio ≤ 3:1."])
  else if minority <? 500 then
    ([JS.Lit "Target >30 samples per fold (Current: ";
      JS.Num (minPerFold foldAnalysis); JS.Lit ")."],
     [JS.Lit "Baseline: None. If unstable, introduce moderate oversampling."])
  else
    ([JS.Lit "Sufficient Minority Samples."],
     [JS.Lit "Undersampling or Ensemble Methods."]).

Definition analyzeDataset (params : DatasetParams) : Recommendation :=
  let wr :=
    calculateWeights (features params) (minority params) (total params)
      (sparsity params) (sparsityHomogeneity params) in
  let strategy := pickStrategy (weights wr) in
  let foldAnalysis :=
    analyzeFolds (minority params) (folds params) (total params) in
  let n := narrative params strategy (stability wr) (dominantOriginal wr) in
  let '(foldTarget, samplingMix) :=
    foldAdvice (minority params) (folds params) foldAnalysis in
  {| strategy := strategy;
     title := nTitle n;
     description := nDescription n;
     rationale := nRationale n;
     foldTarget := foldTarget;
     samplingMix := samplingMix;
     color := nColor n;
     foldAnalysis := foldAnalysis;
     sparsityWarning :=
       finalSparsityWarning (nSparsityWarning n)
         (sparsity params) (sparsityHomogeneity params) |}.

(** ** src/components/StrategyCard.tsx *)

(** The [backgroundColor] of the viability progress bar. *)
Definition viabilityBarColor (viabilityScore : R) : string :=
  if viabilityScore <? 30 then "#f87171"
  else if viabilityScore <? 100 then "#fbbf24"
  else "#34d399".

(** ** src/App.tsx: parameter updates *)

(** [keyof DatasetParams]. *)
Inductive ParamKey : Type :=
| KFeatures | KMinority | KTotal | KFolds | KSparsity | KSparsityHomogeneity.

(** [Partial<DatasetParams>]: [None] is an absent key. *)
Record PartialParams : Type := {
  pFeatures : option R;
  pMinority : option R;
  pTotal : option R;
  pFolds : option R;
  pSparsity : option R;
  pSparsityHomogeneity : option R
}.

Definition noParams : PartialParams :=
  {| pFeatures := None; pMinority := None; pTotal := None;
     pFolds := None; pSparsity := None; pSparsityHomogeneity := None |}.

(** [{ ...p, [key]: val }] on a partial object. *)
Definition setParam (key : ParamKey) (val : R) (p : PartialParams)
    : PartialParams :=
  match key with
  | KFeatures =>
      {| pFeatures := Some val; pMinority := pMinority p;
         pTotal := pTotal p; pFolds := pFolds p; pSparsity := pSparsity p;
         pSparsityHomogeneity := pSparsityHomogeneity p |}
  | KMinority =>
      {| pFeatures := pFeatures p; pMinority := Some val;
         pTotal := pTotal p; pFolds := pFolds p; pSparsity := pSparsity p;
         pSparsityHomogeneity := pSparsityHomogeneity p |}
  | KTotal =>
      {| pFeatures := pFeatures p; pMinority := pMinority p;
         pTotal := Some val; pFolds := pFolds p; pSparsity := pSparsity p;
         pSparsityHomogeneity := pSparsityHomogeneity p |}
  | KFolds =>
      {| pFeatures := pFeatures p; pMinority := pMinority p;
         pTotal := pTotal p; pFolds := Some val; pSparsity := pSparsity p;
         pSparsityHomogeneity := pSparsityHomogeneity p |}
  | KSparsity =>
      {| pFeatures := pFeatures p; pMinority := pMinority p;
         pTotal := pTotal p; pFolds := pFolds p; pSparsity := Some val;
         pSparsityHomogeneity := pSparsityHomogeneity p |}
  | KSparsityHomogeneity =>
      {| pFeatures := pFeatures p; pMinority := pMinority p;
         pTotal := pTotal p; pFolds := pFolds p; pSparsity := pSparsity p;
         pSparsityHomogeneity := Some val |}
  end.

(** A full object passed where a partial one is expected. *)
Definition allParams (d : DatasetParams) : PartialParams :=
  {| pFeatures := Some (features d); pMinority := Some (minority d);
     pTotal := Some (total d); pFolds := Some (folds d);
     pSparsity := Some (sparsity d);
     pSparsityHomogeneity := Some (sparsityHomogeneity d) |}.

Definition orElse (o : option R) (d : R) : R :=
  match o with
  | Some v => v
  | None => d
  end.

(** [{ ...prev, ...newParams }]. *)
Definition spread (prev : DatasetParams) (newParams : PartialParams)
    : DatasetParams :=
  {| features := orElse (pFeatures newParams) (features prev);
     minority := orElse (pMinority newParams) (minority prev);
     total := orElse (pTotal newParams) (total prev);
     folds := orElse (pFolds newParams) (folds prev);
     sparsity := orElse (pSparsity newParams) (sparsity prev);
     sparsityHomogeneity :=
       orElse (pSparsityHomogeneity newParams) (sparsityHomogeneity prev) |}.

(** [if (newParams.key)]: present and not zero. *)
Definition truthy (o : option R) : bool :=
  match o with
  | Some v => negb (v === 0)
  | None => false
  end.

Definition withTotal (d : DatasetParams) (v : R) : DatasetParams :=
  {| features := features d; minority := minority d; total := v;
     folds := folds d; sparsity := sparsity d;
     sparsityHomogeneity := sparsityHomogeneity d |}.

Definition withMinority (d : DatasetParams) (v : R) : DatasetParams :=
  {| features := features d; minority := v; total := total d;
     folds := folds d; sparsity := sparsity d;
     sparsityHomogeneity := sparsityHomogeneity d |}.

(** The state updater of [handleUpdate]: enforce total >= minority. *)
Definition handleUpdate (prev : DatasetParams) (newParams : PartialParams)
    : DatasetParams :=
  let next := spread prev newParams in
  if total next <? minority next then
    let next :=
      if truthy (pTotal newParams) then withTotal next (minority next)
      else next in
    let next :=
      if truthy (pMinority newParams) then withMinority next (total next)
      else next in
    next
  else next.

(** ** src/components/PhaseChart.tsx: scales *)

Module Axis.

Inductive Scale : Type := log | linear.

(** [AxisConfig] of src/types.ts; [scale] is optional. *)
Record Config : Type := {
  key : ParamKey;
  min : R;
  max : R;
  label : string;
  scale : option Scale
}.

End Axis.

Definition CFG_MINORITY : Axis.Config :=
  {| Axis.key := KMinority; Axis.min := 10; Axis.max := 10000;
     Axis.label := "Minority (N)"; Axis.scale := Some Axis.log |}.
Definition CFG_FEATURES : Axis.Config :=
  {| Axis.key := KFeatures; Axis.min := 5; Axis.max := 10000;
     Axis.label := "Features (p)"; Axis.scale := Some Axis.log |}.
Definition CFG_TOTAL : Axis.Config :=
  {| Axis.key := KTotal; Axis.min := 100; Axis.max := 10000000;
     Axis.label := "Total Samples"; Axis.scale := Some Axis.log |}.
Definition CFG_FOLDS : Axis.Config :=
  {| Axis.key := KFolds; Axis.min := 2; Axis.max := 100;
     Axis.label := "CV Folds (K)"; Axis.scale := Some Axis.log |}.

Definition toLog (val : R) : R := JS.log10 (JS.max val 1).

(** [scale === 'log']. *)
Definition isLog (config : Axis.Config) : bool :=
  match Axis.scale config with
  | Some Axis.log => true
  | _ => false
  end.

Definition logMin (config : Axis.Config) : R :=
  if isLog config then toLog (Axis.min config) else 0.
Definition logMax (config : Axis.Config) : R :=
  if isLog config then toLog (Axis.max config) else 0.
Definition logRange (config : Axis.Config) : R :=
  logMax config - logMin config.
Definition linearRange (config : Axis.Config) : R :=
  Axis.max config - Axis.min config.

(** The two closures that [createScale] returns.  Over the reals
    [getValue] undoes [getPct] exactly; in doubles the power of the
    logarithm comes back up to the last bit, which the [Math.round] of the
    callers absorbs on whole values. *)
Definition getPct (config : Axis.Config) (val : R) : R :=
  if isLog config then (toLog val - logMin config) / logRange config
  else (val - Axis.min config) / linearRange config.

Definition getValue (config : Axis.Config) (pct : R) : R :=
  if isLog config then JS.pow 10 (logMin config + pct * logRange config)
  else Axis.min config + pct * linearRange config.

Definition getLinearTicks (min max : R) : list R :=
  if max <=? 20 then
    filter (fun x => (x >=? min) && (x <=? max)) [2; 5; 10; 15; 20]
  else
    let step := (max - min) / 4 in
    map JS.round [min; min + step; min + step * 2; min + step * 3; max].

(** [Math.ceil], [Math.abs] and the remainder operator [%] (the result
    takes the sign of the dividend). *)
Definition Math_ceil (x : R) : R := IZR (Zceil x).
Definition Math_abs (x : R) : R := Rabs x.
Definition Math_trunc (x : R) : R :=
  if x <? 0 then - JS.floor (- x) else JS.floor x.
Definition remainder (x y : R) : R := x - y * Math_trunc (x / y).

(** The [while (val < max)] loop of [getLogTicks], one iteration per unit
    of fuel; [None] when the fuel runs out before the loop ends. *)
Fixpoint logTicksLoop (fuel : nat) (min max power val : R) (ticks : list R)
    : option (list R) :=
  match fuel with
  | O => None
  | S fuel =>
      if val <? max then
        let ticks := if val >? min then (ticks ++ [val])%list else ticks in
        let power := power + 1 in
        let val := JS.pow 10 power in
        logTicksLoop fuel min max power val ticks
      else Some ticks
  end.

Definition getLogTicks (fuel : nat) (min max : R) : option (list R) :=
  let power := Math_ceil (toLog min) in
  let val := JS.pow 10 power in
  let ticks := if val === min then [min] else [] in
  match logTicksLoop fuel min max power val ticks with
  | Some ticks =>
      Some (if Math_abs (remainder (toLog max) 1) <? 1e-9
            then (ticks ++ [max])%list else ticks)
  | None => None
  end.

(** [updateFromEvent]: the pointer is clamped into the chart rectangle
    and mapped through the scales; [offsetX = clientX - rect.left],
    [offsetY = clientY - rect.top]. *)
Definition pointerValueX (xConfig : Axis.Config) (width offsetX : R) : R :=
  let x := JS.max 0 (JS.min width offsetX) in
  JS.round (getValue xConfig (x / width)).

Definition pointerValueY (yConfig : Axis.Config) (height offsetY : R) : R :=
  let y := JS.max 0 (JS.min height offsetY) in
  JS.round (getValue yConfig (1 - y / height)).

(** The object [updateFromEvent] hands to [onUpdate]:
    [{ [xConfig.key]: newValX, [yConfig.key]: newValY }]. *)
Definition pointerUpdate (xConfig yConfig : Axis.Config)
    (width height offsetX offsetY : R) : PartialParams :=
  setParam (Axis.key yConfig) (pointerValueY yConfig height offsetY)
    (setParam (Axis.key xConfig) (pointerValueX xConfig width offsetX)
       noParams).

(** ** src/components/PhaseChart.tsx: painting the canvas *)

Definition CANVAS_RES_X : nat := 150.
Definition CANVAS_RES_Y : nat := 100.

(** Storing a number in a [Uint8ClampedArray]: clamped to [0, 255] and
    rounded to the nearest integer, a tie going to the even one. *)
Definition toUint8Clamp (x : R) : Z :=
  if x <=? 0 then 0%Z
  else if x >=? 255 then 255%Z
  else
    let f := Zfloor x in
    if IZR f + 0.5 <? x then (f + 1)%Z
    else if x <? IZR f + 0.5 then f
    else if Z.even f then f else (f + 1)%Z.

(** [data[i] = v]; a write past the end of a typed array is ignored. *)
Fixpoint store (i : nat) (v : Z) (data : list Z) : list Z :=
  match data, i with
  | [], _ => []
  | _ :: rest, O => v :: rest
  | d :: rest, S i => d :: store i v rest
  end.

(** The body of the inner loop. *)
Definition paintPixel (xConfig : Axis.Config)
    (getColor : R -> R -> RGB) (isValid : R -> R -> bool)
    (py : nat) (yVal : R) (data : list Z) (px : nat) : list Z :=
  let u := INR px / INR CANVAS_RES_X in
  let xVal := getValue xConfig u in
  let idx := ((py * CANVAS_RES_X + px) * 4)%nat in
  if isValid xVal yVal then
    let c := getColor xVal yVal in
    store (idx + 3) 255
      (store (idx + 2) (toUint8Clamp (b c))
         (store (idx + 1) (toUint8Clamp (g c))
            (store idx (toUint8Clamp (r c)) data)))
  else
    (* Invalid zone (dark red-gray) *)
    store (idx + 3) 255
      (store (idx + 2) 15 (store (idx + 1) 15 (store idx 25 data))).

(** The body of the outer loop. *)
Definition paintRow (xConfig yConfig : Axis.Config)
    (getColor : R -> R -> RGB) (isValid : R -> R -> bool)
    (data : list Z) (py : nat) : list Z :=
  let v := 1 - INR py / INR CANVAS_RES_Y in
  let yVal := getValue yConfig v in
  fold_left (paintPixel xConfig getColor isValid py yVal)
    (seq 0 CANVAS_RES_X) data.

(** The paint effect: the bytes handed to [putImageData], starting from
    the zeroed buffer of [createImageData]. *)
Definition paint (xConfig yConfig : Axis.Config)
    (getColor : R -> R -> RGB) (isValid : R -> R -> bool) : list Z :=
  let data := repeat 0%Z (CANVAS_RES_X * CANVAS_RES_Y * 4) in
  fold_left (paintRow xConfig yConfig getColor isValid)
    (seq 0 CANVAS_RES_Y) data.

(** ** src/components/Controls.tsx *)

(** [update(key, val)] of [Controls]: [onChange({ ...params, [key]: val })]. *)
Definition controlsUpdate (params : DatasetParams) (key : ParamKey) (val : R)
    : PartialParams :=
  setParam key val (allParams params).

(** [LogSlider]: slider position 0..1000 on a base-10 logarithmic axis.
    What is said of [getValue] holds of [fromSlider] too: a whole value is
    read back exactly, a value half-way between two whole numbers may be
    read either way. *)
Definition sliderScale (min max : R) : R :=
  (JS.log10 max - JS.log10 min) / 1000.

Definition toSlider (min max val : R) : R :=
  (JS.log10 (JS.max val min) - JS.log10 min) / sliderScale min max.

Definition fromSlider (min max sliderVal : R) : R :=
  JS.round (JS.pow 10 (JS.log10 min + sliderVal * sliderScale min max)).

(** The [value] attribute of the range input: [toSlider(Math.min(value, max))]. *)
Definition sliderPosition (min max value : R) : R :=
  toSlider min max (JS.min value max).

(** Helper for the distribution slider colours. *)
Definition getDistributionColor (inactiveFactor : R) : JS.text :=
  let r := 45 + (113 - 45) * inactiveFactor in
  let g := 212 + (113 - 212) * inactiveFactor in
  let b := 191 + (122 - 191) * inactiveFactor in
  [JS.Lit "rgb("; JS.Num (JS.round r); JS.Lit ", "; JS.Num (JS.round g);
   JS.Lit ", "; JS.Num (JS.round b); JS.Lit ")"].

(** * Definitions used to state the properties *)

(** The status key that [analyzeFolds] looks its display triple up with. *)
Definition foldStatusKey (minority folds total : R) : FoldStatus :=
  let e := effectiveFolds folds total in
  fst (fst (classifyFolds minority total e (minority / e)
              ((e >=? total) || (e >=? 5000)) (e >? minority))).

Definition hasStatus (fa : FoldAnalysis) (k : FoldStatus) : Prop :=
  label fa = cfgLabel (FOLD_STATUS_CONFIG k) /\
  statusColor fa = cfgColor (FOLD_STATUS_CONFIG k) /\
  statusBg fa = cfgBg (FOLD_STATUS_CONFIG k).

(** The classification as the specification words it: first match wins. *)
Inductive spec_status (minority folds total : R) : FoldStatus -> Prop :=
| spec_LOO :
    let e := Rmin folds total in
    e >= total \/ e >= 5000 ->
    spec_status minority folds total LOO
| spec_IMPOSSIBLE :
    let e := Rmin folds total in
    ~ (e >= total \/ e >= 5000) ->
    e > minority ->
    spec_status minority folds total IMPOSSIBLE
| spec_LOPO :
    let e := Rmin folds total in
    ~ (e >= total \/ e >= 5000) ->
    ~ e > minority ->
    minority / e < 1.5 ->
    spec_status minority folds total LOPO
| spec_VARIANCE :
    let e := Rmin folds total in
    ~ (e >= total \/ e >= 5000) ->
    ~ e > minority ->
    ~ minority / e < 1.5 ->
    minority / e < 15 ->
    spec_status minority folds total VARIANCE
| spec_STABLE :
    let e := Rmin folds total in
    ~ (e >= total \/ e >= 5000) ->
    ~ e > minority ->
    ~ minority / e < 1.5 ->
    ~ minority / e < 15 ->
    spec_status minority folds total STABLE.

(** Rounding toward zero to [d] decimal places. *)
Definition truncateDecimals (x : R) (d : nat) : R :=
  if x <? 0 then - (IZR (Zfloor (- x * 10 ^ d)) / 10 ^ d)
  else IZR (Zfloor (x * 10 ^ d)) / 10 ^ d.

(** The displayed [minPerFold] as the specification words it: truncated
    to 2 decimals below 1, floored otherwise. *)
Definition spec_displayMinPerFold (minority folds total : R) : R :=
  let q := minority / Rmin folds total in
  if q <? 1 then truncateDecimals q 2 else IZR (Zfloor q).

(** What [x / y] evaluates to in JavaScript: the quotient when the divisor
    is not zero, one of the three non-finite values when it is. *)
Inductive Quotient : Type :=
| Finite (q : R)
| PlusInfinity
| MinusInfinity
| NotANumber.

Definition divide (x y : R) : Quotient :=
  if y === 0 then
    if x === 0 then NotANumber
    else if x >? 0 then PlusInfinity else MinusInfinity
  else Finite (x / y).

(** All four weights are non-negative. *)
Definition nonneg (w : Weights) : Prop :=
  0 <= wOversample w /\ 0 <= wUndersample w /\
  0 <= wHybrid w /\ 0 <= wBaseline w.

(** The forced-to-baseline path of [analyzeDataset] as the specification
    describes it: oversample dominant before the penalty, baseline the
    winner after it, and a sparsity warning on the result. *)
Definition forcedToBaselinePath (params : DatasetParams) : Prop :=
  let wr :=
    calculateWeights (features params) (minority params) (total params)
      (sparsity params) (sparsityHomogeneity params) in
  let rec := analyzeDataset params in
  dominantOriginal wr = Some OVERSAMPLE /\
  strategy rec = BASELINE /\
  wasForcedToBaseline (strategy rec) (dominantOriginal wr) = true /\
  sparsityWarning rec <> None.

(** The inputs of the sparse low-dimensional example. *)
Definition sparseParams (total folds : R) : DatasetParams :=
  {| features := 5; minority := 50; total := total; folds := folds;
     sparsity := 0.8; sparsityHomogeneity := 0.8 |}.

(** A colour channel as the specification has it: an integer in [0, 255]. *)
Definition isByte (x : R) : Prop :=
  exists z : Z, x = IZR z /\ (0 <= z <= 255)%Z.

(** The weights after the three regime blocks, before the fallback. *)
Definition regimeWeights (p nMin nTotal : R) : Weights :=
  let f := factors p nMin nTotal in
  highDimRegime f
    (medDimRegime f
       (lowDimRegime f
          {| wOversample := 0; wUndersample := 0;
             wHybrid := 0; wBaseline := 0 |})).

(** The weight a strategy tag stands for. *)
Definition weightOf (s : StrategyType) (w : Weights) : R :=
  match s with
  | OVERSAMPLE => wOversample w
  | UNDERSAMPLE => wUndersample w
  | HYBRID => wHybrid w
  | BASELINE => wBaseline w
  end.

(** The specialised sparse path of the composer: forced to baseline with
    high but concentrated sparsity. *)
Definition specializedPath (params : DatasetParams) : bool :=
  let wr :=
    calculateWeights (features params) (minority params) (total params)
      (sparsity params) (sparsityHomogeneity params) in
  wasForcedToBaseline (pickStrategy (weights wr)) (dominantOriginal wr)
  && (sparsity params >? 0.5) && (sparsityHomogeneity params <? 0.3).

(** An axis the scales are well defined on: a non-empty range, starting at
    1 or above when logarithmic. *)
Definition validAxis (config : Axis.Config) : Prop :=
  Axis.min config < Axis.max config /\
  (isLog config = true -> 1 <= Axis.min config).

(** Both ends of the axis are whole numbers. *)
Definition wholeAxis (config : Axis.Config) : Prop :=
  exists lo hi : Z,
    Axis.min config = IZR lo /\ Axis.max config = IZR hi.

(** The four bytes a pixel of the chart should carry: the colour of the
    parameter point it samples, or the invalid-zone colour, fully
    opaque. *)
Definition pixelBytes (xConfig yConfig : Axis.Config)
    (getColor : R -> R -> RGB) (isValid : R -> R -> bool)
    (py px : nat) : list Z :=
  let xVal := getValue xConfig (INR px / INR CANVAS_RES_X) in
  let yVal := getValue yConfig (1 - INR py / INR CANVAS_RES_Y) in
  if isValid xVal yVal then
    let c := getColor xVal yVal in
    [toUint8Clamp (r c); toUint8Clamp (g c); toUint8Clamp (b c); 255%Z]
  else [25%Z; 15%Z; 15%Z; 255%Z].

(** * The fold analyzer on every input

    [analyzeFolds] above is the analyzer over the reals, which is the code
    wherever its divisor [min(folds, total)] is not zero.  At a zero
    divisor JavaScript does not fail: the quotient is [Infinity],
    [-Infinity] or [NaN], and the lines that follow compute with it.
    [Extended.analyzeFolds] follows the same source lines over the numbers
    extended with these three values ([Quotient]).  The arguments are
    finite numbers and a zero is the positive zero, which is what a slider
    or a number box holds. *)

Module Extended.

(** [a * b]. *)
Definition mul (a b : Quotient) : Quotient :=
  match a, b with
  | NotANumber, _ => NotANumber
  | _, NotANumber => NotANumber
  | Finite x, Finite y => Finite (x * y)
  | Finite x, PlusInfinity =>
      if x === 0 then NotANumber
      else if x >? 0 then PlusInfinity else MinusInfinity
  | Finite x, MinusInfinity =>
      if x === 0 then NotANumber
      else if x >? 0 then MinusInfinity else PlusInfinity
  | PlusInfinity, Finite y =>
      if y === 0 then NotANumber
      else if y >? 0 then PlusInfinity else MinusInfinity
  | MinusInfinity, Finite y =>
      if y === 0 then NotANumber
      else if y >? 0 then MinusInfinity else PlusInfinity
  | PlusInfinity, PlusInfinity => PlusInfinity
  | MinusInfinity, MinusInfinity => PlusInfinity
  | PlusInfinity, MinusInfinity => MinusInfinity
  | MinusInfinity, PlusInfinity => MinusInfinity
  end.

(** [a / b]. *)
Definition div (a b : Quotient) : Quotient :=
  match a, b with
  | NotANumber, _ => NotANumber
  | _, NotANumber => NotANumber
  | Finite x, Finite y => divide x y
  | Finite _, PlusInfinity => Finite 0
  | Finite _, MinusInfinity => Finite 0
  | PlusInfinity, Finite y => if y <? 0 then MinusInfinity else PlusInfinity
  | MinusInfinity, Finite y => if y <? 0 then PlusInfinity else MinusInfinity
  | PlusInfinity, PlusInfinity => NotANumber
  | PlusInfinity, MinusInfinity => NotANumber
  | MinusInfinity, PlusInfinity => NotANumber
  | MinusInfinity, MinusInfinity => NotANumber
  end.

(** [a < b]: false as soon as one side is [NaN]. *)
Definition ltb (a b : Quotient) : bool :=
  match a, b with
  | NotANumber, _ => false
  | _, NotANumber => false
  | Finite x, Finite y => x <? y
  | MinusInfinity, MinusInfinity => false
  | MinusInfinity, _ => true
  | PlusInfinity, _ => false
  | Finite _, PlusInfinity => true
  | Finite _, MinusInfinity => false
  end.

(** [Math.min(a, b)]: [NaN] as soon as one side is. *)
Definition min (a b : Quotient) : Quotient :=
  match a, b with
  | NotANumber, _ => NotANumber
  | _, NotANumber => NotANumber
  | Finite x, Finite y => Finite (JS.min x y)
  | MinusInfinity, _ => MinusInfinity
  | _, MinusInfinity => MinusInfinity
  | PlusInfinity, other => other
  | other, PlusInfinity => other
  end.

(** [Math.floor(a)]. *)
Definition floor (a : Quotient) : Quotient :=
  match a with
  | Finite x => Finite (JS.floor x)
  | other => other
  end.

(** [Number(a.toFixed(digits))]: a value that is not finite is formatted
    by its name, which [Number] reads back as the value. *)
Definition toFixedValue (a : Quotient) (digits : nat) : Quotient :=
  match a with
  | Finite x => Finite (JS.toFixedValue x digits)
  | other => other
  end.

(** [${a.toFixed(digits)}] inside a template. *)
Definition fixed (a : Quotient) (digits : nat) : JS.piece :=
  match a with
  | Finite x => JS.Fixed x digits
  | PlusInfinity => JS.Lit "Infinity"
  | MinusInfinity => JS.Lit "-Infinity"
  | NotANumber => JS.Lit "NaN"
  end.

Record FoldAnalysis : Type := {
  minPerFold : Quotient;
  minInTraining : Quotient;
  label : string;
  statusColor : string;
  statusBg : string;
  viabilityScore : Quotient;
  validationRisk : JS.text;
  trainingImpact : JS.text
}.

Definition classifyFolds (minority total effectiveFolds : R)
    (minPerFold : Quotient) (isLOOCV isStratificationImpossible : bool)
    : FoldStatus * JS.text * JS.text :=
  if isLOOCV then
    (LOO,
     [JS.Lit "Validation reduces to binary (0/1) loss. Probability calibration is impossible."],
     [JS.Lit "Maximizes training data (N="; JS.Num (total - 1);
      JS.Lit "), but computationally expensive."])
  else if isStratificationImpossible then
    (IMPOSSIBLE,
     [JS.Lit "Folds (k="; JS.Num effectiveFolds;
      JS.Lit ") > Minority Samples ("; JS.Num minority;
      JS.Lit "). Stratification is impossible."],
     [JS.Lit "N/A"])
  else if ltb minPerFold (Finite 1.5) then
    (LOPO,
     [JS.Lit "Single positive sample per fold prevents variance estimation."],
     [JS.Lit "Maximized Training (~"; JS.Num (minority - 1);
      JS.Lit " positives per round)."])
  else if ltb minPerFold (Finite 15) then
    (VARIANCE,
     [JS.Lit "Low density ("; fixed minPerFold 1;
      JS.Lit " samples/fold) results in noisy performance metrics."],
     [JS.Lit "High training data retention, but reduced validation reliability."])
  else
    (STABLE,
     [JS.Lit "Sufficient density for stable metric estimation (e.g., AUC-ROC, F1)."],
     [JS.Lit "Standard Stratified K-Fold Split."]).

Definition analyzeFolds (minority folds total : R) : FoldAnalysis :=
  let effectiveFolds := effectiveFolds folds total in
  let minPerFold := divide minority effectiveFolds in
  let minInTraining :=
    floor (mul (Finite minority)
             (divide (effectiveFolds - 1) effectiveFolds)) in
  let viabilityScore :=
    min (Finite 100) (mul (div minPerFold (Finite 30)) (Finite 100)) in
  let isLOOCV := (effectiveFolds >=? total) || (effectiveFolds >=? 5000) in
  let isStratificationImpossible := effectiveFolds >? minority in
  let '(statusKey, validationRisk, trainingImpact) :=
    classifyFolds minority total effectiveFolds minPerFold
      isLOOCV isStratificationImpossible in
  let config := FOLD_STATUS_CONFIG statusKey in
  (* [Number(displayMinPerFold)] *)
  let displayMinPerFold :=
    if ltb minPerFold (Finite 1) then toFixedValue minPerFold 2
    else floor minPerFold in
  {| minPerFold := displayMinPerFold;
     minInTraining := minInTraining;
     label := cfgLabel config;
     statusColor := cfgColor config;
     statusBg := cfgBg config;
     viabilityScore :=
       if isStratificationImpossible && negb isLOOCV then Finite 0
       else viabilityScore;
     validationRisk := validationRisk;
     trainingImpact := trainingImpact |}.

End Extended.

(** A result of the analyzer over the reals, read as one over the extended
    numbers. *)
Definition finiteAnalysis (fa : FoldAnalysis) : Extended.FoldAnalysis :=
  {| Extended.minPerFold := Finite (minPerFold fa);
     Extended.minInTraining := Finite (minInTraining fa);
     Extended.label := label fa;
     Extended.statusColor := statusColor fa;
     Extended.statusBg := statusBg fa;
     Extended.viabilityScore := Finite (viabilityScore fa);
     Extended.validationRisk := validationRisk fa;
     Extended.trainingImpact := trainingImpact fa |}.

(** * Properties *)

(** ** Deciding comparisons *)

Lemma ltb_reflect x y : reflect (x < y) (x <? y).
Proof. unfold JS.ltb; destruct (Rlt_dec x y); constructor; assumption. Qed.

Lemma leb_reflect x y : reflect (x <= y) (x <=? y).
Proof. unfold JS.leb; destruct (Rle_dec x y); constructor; assumption. Qed.

Lemma gtb_reflect x y : reflect (y < x) (x >? y).
Proof. unfold JS.gtb; destruct (Rgt_dec x y); constructor; assumption. Qed.

Lemma geb_reflect x y : reflect (y <= x) (x >=? y).
Proof.
  unfold JS.geb; destruct (Rge_dec x y); constructor; lra.
Qed.

Lemma eqb_reflect x y : reflect (x = y) (x === y).
Proof. unfold JS.eqb; destruct (Req_dec_T x y); constructor; assumption. Qed.

Lemma min_r x y : y <= x -> JS.min x y = y.
Proof. apply Rmin_right. Qed.

Lemma max_l x y : y <= x -> JS.max x y = x.
Proof. apply Rmax_left. Qed.

(** ** Fold analyzer *)

Lemma analyzeFolds_hasStatus minority folds total :
  hasStatus (analyzeFolds minority folds total)
    (foldStatusKey minority folds total).
Proof.
  unfold hasStatus, analyzeFolds, foldStatusKey.
  destruct (classifyFolds _ _ _ _ _ _) as [[k vr] ti]; simpl; auto.
Qed.

Lemma label_injective k1 k2 :
  cfgLabel (FOLD_STATUS_CONFIG k1) = cfgLabel (FOLD_STATUS_CONFIG k2) ->
  k1 = k2.
Proof. destruct k1, k2; simpl; intro H; try reflexivity; discriminate H. Qed.

Lemma hasStatus_functional fa k1 k2 :
  hasStatus fa k1 -> hasStatus fa k2 -> k1 = k2.
Proof.
  intros [H1 _] [H2 _]; apply label_injective; congruence.
Qed.

Lemma foldStatusKey_spec minority folds total :
  spec_status minority folds total (foldStatusKey minority folds total).
Proof.
  unfold foldStatusKey, classifyFolds, effectiveFolds, JS.min.
  set (e := Rmin folds total).
  destruct (geb_reflect e total) as [Ht | Ht]; simpl.
  { apply spec_LOO; fold e; lra. }
  destruct (geb_reflect e 5000) as [H5 | H5]; simpl.
  { apply spec_LOO; fold e; lra. }
  destruct (gtb_reflect e minority) as [Hm | Hm]; simpl.
  { apply spec_IMPOSSIBLE; fold e; lra. }
  destruct (ltb_reflect (minority / e) 1.5) as [H1 | H1]; simpl.
  { apply spec_LOPO; fold e; try lra; assumption. }
  destruct (ltb_reflect (minority / e) 15) as [H2 | H2]; simpl.
  { apply spec_VARIANCE; fold e; try lra; assumption. }
  apply spec_STABLE; fold e; try lra; assumption.
Qed.

Lemma spec_status_functional minority folds total k1 k2 :
  spec_status minority folds total k1 ->
  spec_status minority folds total k2 -> k1 = k2.
Proof.
  intros H1 H2; inversion H1; inversion H2; subst; try reflexivity;
    repeat match goal with e := _ |- _ => subst e end; tauto || lra.
Qed.

(** C5.  [analyzeFolds] assigns the status category by first match, with
    [effectiveFolds = min(folds, total)] and
    [minPerFold = minority / effectiveFolds]: LOO if
    [effectiveFolds >= total] or [effectiveFolds >= 5000]; else IMPOSSIBLE
    if [effectiveFolds > minority]; else LOPO if [minPerFold < 1.5]; else
    VARIANCE if [minPerFold < 15]; else STABLE.  The display triple
    (label, colour, background) of the result is the one of exactly that
    category.  In particular [analyzeFolds(150, 5, 2000)] is STABLE,
    [analyzeFolds(10, 20, 2000)] is IMPOSSIBLE and
    [analyzeFolds(100, 2000, 2000)] is LOO.  (The range assumptions
    [minority >= 0], [folds >= 1], [total >= 1] are not needed.) *)
Theorem analyzeFolds_status_first_match :
  (forall minority folds total k,
      hasStatus (analyzeFolds minority folds total) k <->
      spec_status minority folds total k) /\
  hasStatus (analyzeFolds 150 5 2000) STABLE /\
  hasStatus (analyzeFolds 10 20 2000) IMPOSSIBLE /\
  hasStatus (analyzeFolds 100 2000 2000) LOO.
Proof.
  assert (Hiff : forall minority folds total k,
             hasStatus (analyzeFolds minority folds total) k <->
             spec_status minority folds total k).
  { intros minority folds total k; split; intro H.
    - rewrite (hasStatus_functional _ _ _ H
                 (analyzeFolds_hasStatus minority folds total)).
      apply foldStatusKey_spec.
    - rewrite (spec_status_functional _ _ _ _ _ H
                 (foldStatusKey_spec minority folds total)).
      apply analyzeFolds_hasStatus. }
  split; [exact Hiff | ].
  split; [ | split]; apply Hiff.
  - apply spec_STABLE; cbv zeta; rewrite ?Rmin_left by lra; lra.
  - apply spec_IMPOSSIBLE; cbv zeta; rewrite ?Rmin_left by lra; lra.
  - apply spec_LOO; cbv zeta; rewrite ?Rmin_left by lra; lra.
Qed.

Lemma effectiveFolds_ge_1 folds total :
  1 <= folds -> 1 <= total -> 1 <= effectiveFolds folds total.
Proof.
  intros Hf Ht; unfold effectiveFolds, JS.min.
  apply Rmin_glb; assumption.
Qed.

Lemma minPerFold_nonneg minority folds total :
  0 <= minority -> 1 <= folds -> 1 <= total ->
  0 <= minority / effectiveFolds folds total.
Proof.
  intros Hm Hf Ht.
  pose proof (effectiveFolds_ge_1 folds total Hf Ht) as He.
  apply Rmult_le_pos; [assumption | ].
  left; apply Rinv_0_lt_compat; lra.
Qed.

(** C6.  For [minority >= 0], [folds >= 1], [total >= 1] the
    [viabilityScore] of [analyzeFolds] is
    [min(100, (minority / min(folds, total)) / 30 * 100)], except that it
    is exactly 0 when stratification is impossible
    ([min(folds, total) > minority]) and the input is not a Leave-One-Out
    case; so it always lies in [0, 100]. *)
Theorem analyzeFolds_viabilityScore minority folds total :
  0 <= minority -> 1 <= folds -> 1 <= total ->
  let e := Rmin folds total in
  let score := viabilityScore (analyzeFolds minority folds total) in
  (e > minority /\ ~ (e >= total \/ e >= 5000) -> score = 0) /\
  (~ (e > minority /\ ~ (e >= total \/ e >= 5000)) ->
   score = Rmin 100 (minority / e / 30 * 100)) /\
  0 <= score <= 100.
Proof.
  intros Hm Hf Ht e score.
  pose proof (minPerFold_nonneg minority folds total Hm Hf Ht) as Hq.
  assert (Hscore :
    score = if (e >? minority) && negb ((e >=? total) || (e >=? 5000))
            then 0 else Rmin 100 (minority / e / 30 * 100)).
  { unfold score, analyzeFolds.
    destruct (classifyFolds _ _ _ _ _ _) as [[k vr] ti]; reflexivity. }
  unfold effectiveFolds, JS.min in Hq; fold e in Hq.
  assert (Hraw : 0 <= Rmin 100 (minority / e / 30 * 100) <= 100).
  { split; [apply Rmin_glb; lra | apply Rmin_l]. }
  rewrite Hscore; clear Hscore.
  destruct (gtb_reflect e minority) as [Himp | Himp];
    destruct (geb_reflect e total) as [Hl1 | Hl1];
    destruct (geb_reflect e 5000) as [Hl2 | Hl2]; simpl;
    (split; [ | split]); try lra; try reflexivity;
    intros; try reflexivity; exfalso; try lra; tauto.
Qed.

Lemma analyzeFolds_viabilityScore_witness :
  let score := viabilityScore (analyzeFolds 10 20 2000) in
  (Rmin 20 2000 > 10 /\ ~ (Rmin 20 2000 >= 2000 \/ Rmin 20 2000 >= 5000) ->
   score = 0) /\
  (~ (Rmin 20 2000 > 10 /\
      ~ (Rmin 20 2000 >= 2000 \/ Rmin 20 2000 >= 5000)) ->
   score = Rmin 100 (10 / Rmin 20 2000 / 30 * 100)) /\
  0 <= score <= 100.
Proof.
  apply (analyzeFolds_viabilityScore 10 20 2000); lra.
Defined.

Lemma analyzeFolds_minPerFold minority folds total :
  minPerFold (analyzeFolds minority folds total) =
  let q := minority / Rmin folds total in
  if q <? 1 then JS.toFixedValue q 2 else JS.floor q.
Proof.
  unfold analyzeFolds.
  destruct (classifyFolds _ _ _ _ _ _) as [[k vr] ti]; reflexivity.
Qed.

(** C4, as the code has it.  For [minority >= 0], [folds >= 1],
    [total >= 1], with [q = minority / min(folds, total)]: when [q < 1]
    the displayed [minPerFold] is a whole number of hundredths nearest to
    [q], at most 1/200 away from it (the value of [q.toFixed(2)], where
    truncation can be almost 1/100 away); otherwise it is the floor of
    [q].  Where [q] lies
    exactly half-way between two hundredths both neighbours satisfy the
    statement: the code rounds the double that stores [q], which lies on
    one side of the tie (17/40 shows 0.42) unless it is exact (1/8 shows
    0.13). *)
Theorem analyzeFolds_minPerFold_rounded minority folds total :
  0 <= minority -> 1 <= folds -> 1 <= total ->
  let q := minority / Rmin folds total in
  let shown := minPerFold (analyzeFolds minority folds total) in
  (q < 1 ->
   exists n : Z,
     shown = IZR n / 100 /\ 100 * q - / 2 <= IZR n <= 100 * q + / 2) /\
  (1 <= q -> shown = IZR (Zfloor q)).
Proof.
  intros Hm Hf Ht q shown.
  pose proof (minPerFold_nonneg minority folds total Hm Hf Ht) as Hq.
  unfold effectiveFolds, JS.min in Hq; fold q in Hq.
  unfold shown; rewrite analyzeFolds_minPerFold; fold q; cbv zeta.
  split; intro H.
  - destruct (ltb_reflect q 1) as [_ | Hn]; [ | lra].
    unfold JS.toFixedValue.
    destruct (ltb_reflect q 0) as [Hneg | _]; [lra | ].
    unfold JS.toFixedNat.
    exists (Zfloor (q * 10 ^ 2 + / 2)).
    pose proof (Zfloor_bound (q * 10 ^ 2 + / 2)) as Hb.
    simpl pow in *.
    split; [f_equal; lra | lra].
  - destruct (ltb_reflect q 1) as [Hlt | _]; [lra | reflexivity].
Qed.

Lemma analyzeFolds_minPerFold_rounded_witness :
  (2 / Rmin 3 10 < 1 ->
   exists n : Z,
     minPerFold (analyzeFolds 2 3 10) = IZR n / 100 /\
     100 * (2 / Rmin 3 10) - / 2 <= IZR n <= 100 * (2 / Rmin 3 10) + / 2) /\
  (1 <= 2 / Rmin 3 10 ->
   minPerFold (analyzeFolds 2 3 10) = IZR (Zfloor (2 / Rmin 3 10))).
Proof.
  apply (analyzeFolds_minPerFold_rounded 2 3 10); lra.
Defined.

(** C4, as the specification states it, fails: [analyzeFolds(2, 3, 10)]
    shows 0.67 for the quotient 2/3, and truncation gives 0.66. *)
Lemma analyzeFolds_minPerFold_not_truncated :
  0 <= 2 /\ 1 <= 3 /\ 1 <= 10 /\
  minPerFold (analyzeFolds 2 3 10) = 67 / 100 /\
  spec_displayMinPerFold 2 3 10 = 66 / 100 /\
  minPerFold (analyzeFolds 2 3 10) <> spec_displayMinPerFold 2 3 10.
Proof.
  assert (Hq : Rmin 3 10 = 3) by (apply Rmin_left; lra).
  assert (Hshown : minPerFold (analyzeFolds 2 3 10) = 67 / 100).
  { rewrite analyzeFolds_minPerFold, Hq; cbv zeta.
    destruct (ltb_reflect (2 / 3) 1) as [_ | Hn]; [ | lra].
    unfold JS.toFixedValue.
    destruct (ltb_reflect (2 / 3) 0) as [Hneg | _]; [lra | ].
    unfold JS.toFixedNat.
    rewrite (Zfloor_eq 67) by (simpl pow; lra).
    simpl pow; lra. }
  assert (Hspec : spec_displayMinPerFold 2 3 10 = 66 / 100).
  { unfold spec_displayMinPerFold; rewrite Hq; cbv zeta.
    destruct (ltb_reflect (2 / 3) 1) as [_ | Hn]; [ | lra].
    unfold truncateDecimals.
    destruct (ltb_reflect (2 / 3) 0) as [Hneg | _]; [lra | ].
    rewrite (Zfloor_eq 66) by (simpl pow; lra).
    simpl pow; lra. }
  repeat split; try lra; assumption.
Qed.

Lemma analyzeFolds_minInTraining minority folds total :
  minInTraining (analyzeFolds minority folds total) =
  let e := effectiveFolds folds total in
  JS.floor (minority * ((e - 1) / e)).
Proof.
  unfold analyzeFolds.
  destruct (classifyFolds _ _ _ _ _ _) as [[k vr] ti]; reflexivity.
Qed.

Lemma divide_finite x y : y <> 0 -> divide x y = Finite (x / y).
Proof.
  intro Hy; unfold divide.
  destruct (eqb_reflect y 0) as [H0 | _]; [contradiction | reflexivity].
Qed.

Lemma toFixedValue_near x : Rabs (JS.toFixedValue x 2 - x) <= / 200.
Proof.
  unfold JS.toFixedValue, JS.toFixedNat.
  destruct (ltb_reflect x 0) as [Hneg | Hpos].
  - pose proof (Zfloor_bound (- x * 10 ^ 2 + / 2)) as Hb.
    simpl pow in *; apply Rabs_le; lra.
  - pose proof (Zfloor_bound (x * 10 ^ 2 + / 2)) as Hb.
    simpl pow in *; apply Rabs_le; lra.
Qed.

Lemma classifyFolds_finite minority total e q isLOOCV isImpossible :
  Extended.classifyFolds minority total e (Finite q) isLOOCV isImpossible =
  classifyFolds minority total e q isLOOCV isImpossible.
Proof. reflexivity. Qed.

(** With a divisor that is not zero the analyzer never leaves the finite
    numbers: the extended embedding and the one over the reals agree on
    every field. *)
Lemma analyzeFolds_finite minority folds total :
  effectiveFolds folds total <> 0 ->
  Extended.analyzeFolds minority folds total =
  finiteAnalysis (analyzeFolds minority folds total).
Proof.
  intro He; unfold Extended.analyzeFolds, analyzeFolds, finiteAnalysis.
  cbv zeta.
  rewrite !(divide_finite _ _ He), classifyFolds_finite.
  destruct (classifyFolds _ _ _ _ _ _) as [[k vr] ti].
  cbn [Extended.ltb Extended.mul Extended.div Extended.min Extended.floor
       Extended.toFixedValue minPerFold minInTraining label statusColor
       statusBg viabilityScore validationRisk trainingImpact].
  rewrite (divide_finite _ 30) by lra.
  cbn [Extended.mul Extended.min].
  f_equal.
  - destruct (_ <? 1); reflexivity.
  - destruct (_ && _); reflexivity.
Qed.

(** At a zero divisor the numeric fields are the non-finite values the
    divisions produce. *)
Lemma analyzeFolds_zero_divisor minority folds total :
  effectiveFolds folds total = 0 ->
  let fx := Extended.analyzeFolds minority folds total in
  (0 < minority ->
   Extended.minPerFold fx = PlusInfinity /\
   Extended.minInTraining fx = MinusInfinity /\
   Extended.viabilityScore fx = Finite 100) /\
  (minority = 0 ->
   Extended.minPerFold fx = NotANumber /\
   Extended.minInTraining fx = NotANumber /\
   Extended.viabilityScore fx = NotANumber).
Proof.
  intro He; cbv zeta; unfold Extended.analyzeFolds; rewrite He; cbv zeta.
  destruct (Extended.classifyFolds _ _ _ _ _ _) as [[k vr] ti].
  cbn [Extended.minPerFold Extended.minInTraining Extended.viabilityScore].
  assert (Hone : divide (0 - 1) 0 = MinusInfinity).
  { unfold divide.
    destruct (eqb_reflect 0 0) as [_ | N]; [ | now contradiction N].
    destruct (eqb_reflect (0 - 1) 0) as [E | _]; [lra | ].
    destruct (gtb_reflect (0 - 1) 0) as [G | _]; [lra | reflexivity]. }
  rewrite Hone; split; intro Hm.
  - assert (Hq : divide minority 0 = PlusInfinity).
    { unfold divide.
      destruct (eqb_reflect 0 0) as [_ | N]; [ | now contradiction N].
      destruct (eqb_reflect minority 0) as [E | _]; [lra | ].
      destruct (gtb_reflect minority 0) as [_ | G]; [reflexivity | lra]. }
    rewrite Hq; cbn [Extended.ltb Extended.floor Extended.div Extended.mul].
    destruct (ltb_reflect 30 0) as [L | _]; [lra | ].
    cbn [Extended.mul].
    destruct (eqb_reflect 100 0) as [E | _]; [lra | ].
    destruct (gtb_reflect 100 0) as [_ | G]; [ | lra].
    destruct (eqb_reflect minority 0) as [E | _]; [lra | ].
    destruct (gtb_reflect minority 0) as [_ | G]; [ | lra].
    cbn [Extended.min Extended.floor].
    destruct (gtb_reflect 0 minority) as [G | _]; [lra | ].
    repeat split; reflexivity.
  - subst minority.
    assert (Hq : divide 0 0 = NotANumber).
    { unfold divide.
      destruct (eqb_reflect 0 0) as [_ | N]; [reflexivity | ].
      now contradiction N. }
    rewrite Hq; cbn [Extended.ltb Extended.floor Extended.div Extended.mul].
    destruct (eqb_reflect 0 0) as [_ | N]; [ | now contradiction N].
    cbn [Extended.min Extended.floor].
    destruct (gtb_reflect 0 0) as [G | _]; [lra | ].
    repeat split; reflexivity.
Qed.

(** C10.  Under [total >= 1] and [folds >= 1] the divisor of both
    divisions in [analyzeFolds], [effectiveFolds = min(folds, total)], is
    at least 1.  Whenever the divisor is not zero the three numeric fields
    are finite, and they are computed from the quotients by the divisor
    itself: [minInTraining] is the floor of
    [minority * ((effectiveFolds - 1) / effectiveFolds)] and [minPerFold]
    is the floor of [minority / effectiveFolds], or its nearest hundredth
    below 1.  [analyzeFolds] does not floor its divisor, below 1 it
    divides by the smaller number, and at a divisor of 0, which is what
    [total = 0] gives, the fields are no longer finite: [Infinity],
    [-Infinity] and a score of 100 for a positive [minority], [NaN] three
    times for [minority = 0].  [getFoldStabilityRGB] divides by
    [max(1, folds)], which is at least 1 for every [folds]: below 1 it
    answers as it does at [folds = 1]. *)
Theorem analyzeFolds_divisor minority folds total :
  let e := effectiveFolds folds total in
  let fa := analyzeFolds minority folds total in
  let fx := Extended.analyzeFolds minority folds total in
  (1 <= folds -> 1 <= total -> 1 <= e) /\
  (e <> 0 ->
   Extended.minPerFold fx = Finite (minPerFold fa) /\
   Extended.minInTraining fx = Finite (minInTraining fa) /\
   Extended.viabilityScore fx = Finite (viabilityScore fa) /\
   minInTraining fa = JS.floor (minority * ((e - 1) / e)) /\
   (1 <= minority / e -> minPerFold fa = JS.floor (minority / e)) /\
   (minority / e < 1 -> Rabs (minPerFold fa - minority / e) <= / 200)) /\
  (e = 0 -> 0 < minority ->
   Extended.minPerFold fx = PlusInfinity /\
   Extended.minInTraining fx = MinusInfinity /\
   Extended.viabilityScore fx = Finite 100) /\
  (e = 0 -> minority = 0 ->
   Extended.minPerFold fx = NotANumber /\
   Extended.minInTraining fx = NotANumber /\
   Extended.viabilityScore fx = NotANumber) /\
  (0 <= folds -> effectiveFolds folds 0 = 0) /\
  (forall anyFolds,
     1 <= JS.max 1 anyFolds /\
     (anyFolds <= 1 ->
      getFoldStabilityRGB minority anyFolds =
      getFoldStabilityRGB minority 1)).
Proof.
  cbv zeta.
  split; [apply effectiveFolds_ge_1 | ].
  split; [ | split; [ | split; [ | split; [ | ]]]].
  - intro He; rewrite (analyzeFolds_finite _ _ _ He).
    split; [reflexivity | split; [reflexivity | split; [reflexivity | ]]].
    split; [apply analyzeFolds_minInTraining | ].
    rewrite analyzeFolds_minPerFold; cbv zeta.
    change (Rmin folds total) with (effectiveFolds folds total).
    split; intro Hq.
    + destruct (ltb_reflect (minority / effectiveFolds folds total) 1);
        [lra | reflexivity].
    + destruct (ltb_reflect (minority / effectiveFolds folds total) 1);
        [apply toFixedValue_near | lra].
  - intros He Hm.
    now apply (analyzeFolds_zero_divisor minority folds total He).
  - intros He Hm.
    now apply (analyzeFolds_zero_divisor minority folds total He).
  - intro Hf; unfold effectiveFolds; apply min_r; exact Hf.
  - intro anyFolds.
    split; [apply Rmax_l | ].
    intro Hle; unfold getFoldStabilityRGB.
    now rewrite (max_l 1 anyFolds Hle), (max_l 1 1) by lra.
Qed.

Lemma analyzeFolds_divisor_witness :
  1 <= effectiveFolds 5 2000 /\
  Extended.minPerFold (Extended.analyzeFolds 50 5 0) = PlusInfinity /\
  Extended.minInTraining (Extended.analyzeFolds 50 5 0) = MinusInfinity /\
  Extended.viabilityScore (Extended.analyzeFolds 50 5 0) = Finite 100 /\
  minPerFold (analyzeFolds 50 (/ 2) 2000) = 100.
Proof.
  split; [apply (analyzeFolds_divisor 50 5 2000); lra | ].
  assert (H0 : effectiveFolds 5 0 = 0)
    by (apply (analyzeFolds_divisor 50 5 0); lra).
  destruct (analyzeFolds_divisor 50 5 0) as (_ & _ & Hinf & _).
  destruct (Hinf H0) as (H1 & H2 & H3); [lra | ].
  split; [exact H1 | split; [exact H2 | split; [exact H3 | ]]].
  assert (Hh : effectiveFolds (/ 2) 2000 = / 2)
    by (unfold effectiveFolds, JS.min; apply Rmin_left; lra).
  destruct (analyzeFolds_divisor 50 (/ 2) 2000) as (_ & Hfin & _).
  cbv zeta in Hfin; rewrite Hh in Hfin.
  destruct Hfin as (_ & _ & _ & _ & Hfl & _); [lra | ].
  rewrite Hfl by lra.
  replace (50 / / 2) with 100 by lra.
  unfold JS.floor; rewrite (Zfloor_eq 100); [reflexivity | lra].
Defined.

(** ** The two impossible-fold detectors *)

Lemma includes_LOO_label k :
  JS.includes "Leave-One-Out" (cfgLabel (FOLD_STATUS_CONFIG k)) =
  match k with LOO => true | _ => false end.
Proof. destruct k; vm_compute; reflexivity. Qed.

Lemma foldStatusKey_cases minority folds total :
  let e := effectiveFolds folds total in
  foldStatusKey minority folds total =
  if (e >=? total) || (e >=? 5000) then LOO
  else if e >? minority then IMPOSSIBLE
  else if minority / e <? 1.5 then LOPO
  else if minority / e <? 15 then VARIANCE
  else STABLE.
Proof.
  unfold foldStatusKey, classifyFolds; cbv zeta.
  destruct (_ || _); [reflexivity | ].
  destruct (_ >? _); [reflexivity | ].
  destruct (_ <? 1.5); [reflexivity | ].
  destruct (_ <? 15); reflexivity.
Qed.

Lemma foldAdvice_invalid toString toFixed minority folds total :
  JS.render toString toFixed
    (fst (foldAdvice minority folds (analyzeFolds minority folds total)))
  = "INVALID CONFIGURATION"
  <-> foldStatusKey minority folds total = IMPOSSIBLE.
Proof.
  destruct (analyzeFolds_hasStatus minority folds total) as [Hlabel _].
  unfold foldAdvice; rewrite Hlabel, includes_LOO_label.
  pose proof (foldStatusKey_cases minority folds total) as Hkey.
  cbv zeta in Hkey; unfold effectiveFolds, JS.min in Hkey.
  rewrite Hkey; clear Hkey Hlabel.
  destruct (geb_reflect (Rmin folds total) total) as [Ht | Ht]; simpl orb.
  { cbn; split; intro H; discriminate H. }
  destruct (geb_reflect (Rmin folds total) 5000) as [H5 | H5]; simpl orb.
  { cbn; split; intro H; discriminate H. }
  assert (He : Rmin folds total = folds).
  { apply Rmin_left. destruct (Rle_dec folds total) as [Hle | Hgt];
      [exact Hle | rewrite Rmin_right in Ht by lra; lra]. }
  rewrite He.
  destruct (gtb_reflect folds minority) as [Hm | Hm].
  { cbn; split; reflexivity. }
  destruct (minority / folds <? 1.5);
    [ | destruct (minority / folds <? 15)];
    destruct (minority <? 200); try destruct (minority <? 500);
    cbn; split; intro H; discriminate H.
Qed.

(** C8.  The Composer's and the Fold Analyzer's impossible-fold detectors
    agree: the [foldTarget] of the recommendation that [analyzeDataset]
    returns reads "INVALID CONFIGURATION" exactly when its embedded
    fold analysis has the IMPOSSIBLE status, whose label is
    "Statistically Invalid".  With [folds > total] the effective fold
    count is [total], which is the Leave-One-Out case in both places.
    (The range assumptions are not needed; the number formatters are
    arbitrary.) *)
Theorem impossible_fold_detectors_agree
    (toString : R -> string) (toFixed : R -> nat -> string)
    (params : DatasetParams) :
  let rec := analyzeDataset params in
  (JS.render toString toFixed (foldTarget rec) = "INVALID CONFIGURATION"
   <-> hasStatus (foldAnalysis rec) IMPOSSIBLE) /\
  (JS.render toString toFixed (foldTarget rec) = "INVALID CONFIGURATION"
   <-> label (foldAnalysis rec) = "Statistically Invalid") /\
  (folds params > total params ->
   hasStatus (foldAnalysis rec) LOO /\
   JS.render toString toFixed (foldTarget rec) = "Leave-One-Out (LOOCV)").
Proof.
  cbv zeta.
  set (m := minority params); set (f := folds params);
    set (t := total params).
  assert (Hfa : foldAnalysis (analyzeDataset params) = analyzeFolds m f t).
  { unfold analyzeDataset; fold m f t.
    destruct (foldAdvice m f (analyzeFolds m f t)); reflexivity. }
  assert (Hft : foldTarget (analyzeDataset params) =
                fst (foldAdvice m f (analyzeFolds m f t))).
  { unfold analyzeDataset; fold m f t.
    destruct (foldAdvice m f (analyzeFolds m f t)); reflexivity. }
  rewrite Hfa, Hft.
  pose proof (foldAdvice_invalid toString toFixed m f t) as Hinv.
  pose proof (analyzeFolds_hasStatus m f t) as Hst.
  assert (Hkey : foldStatusKey m f t = IMPOSSIBLE <->
                 hasStatus (analyzeFolds m f t) IMPOSSIBLE).
  { split; intro H.
    - rewrite <- H; exact Hst.
    - exact (hasStatus_functional _ _ _ Hst H). }
  assert (Hlab : foldStatusKey m f t = IMPOSSIBLE <->
                 label (analyzeFolds m f t) = "Statistically Invalid").
  { split; intro H.
    - destruct Hst as [Hl _]; rewrite Hl, H; reflexivity.
    - apply label_injective. destruct Hst as [Hl _].
      rewrite <- Hl, H; reflexivity. }
  split; [tauto | split; [tauto | ]].
  intro Hgt.
  assert (Hloo : foldStatusKey m f t = LOO).
  { pose proof (foldStatusKey_cases m f t) as Hc; cbv zeta in Hc.
    rewrite Hc; unfold effectiveFolds.
    rewrite min_r by lra.
    destruct (geb_reflect t t) as [_ | Hn]; [reflexivity | lra]. }
  split.
  - rewrite <- Hloo; exact Hst.
  - destruct Hst as [Hl _].
    unfold foldAdvice; rewrite Hl, includes_LOO_label, Hloo.
    reflexivity.
Qed.

(** ** Logarithms, exponentials and the sigmoid *)

Lemma ln10_pos : 0 < ln 10.
Proof. rewrite <- ln_1; apply ln_increasing; lra. Qed.

Lemma log10_increasing x y : 0 < x -> x < y -> JS.log10 x < JS.log10 y.
Proof.
  intros Hx Hxy; unfold JS.log10.
  apply Rmult_lt_compat_r;
    [apply Rinv_0_lt_compat, ln10_pos | now apply ln_increasing].
Qed.

Lemma log10_mult x y :
  0 < x -> 0 < y -> JS.log10 (x * y) = JS.log10 x + JS.log10 y.
Proof.
  intros Hx Hy; unfold JS.log10; rewrite ln_mult by assumption.
  field; apply Rgt_not_eq, ln10_pos.
Qed.

Lemma log10_pow x n : 0 < x -> JS.log10 (x ^ n) = INR n * JS.log10 x.
Proof.
  intro Hx; unfold JS.log10; rewrite ln_pow by assumption.
  field; apply Rgt_not_eq, ln10_pos.
Qed.

Lemma log10_10 : JS.log10 10 = 1.
Proof. unfold JS.log10; field; apply Rgt_not_eq, ln10_pos. Qed.

Lemma log10_100 : JS.log10 100 = 2.
Proof.
  replace 100 with (10 ^ 2) by (simpl; lra).
  rewrite log10_pow, log10_10 by lra; simpl; lra.
Qed.

Lemma log10_10000 : JS.log10 10000 = 4.
Proof.
  replace 10000 with (10 ^ 4) by (simpl; lra).
  rewrite log10_pow, log10_10 by lra; simpl; lra.
Qed.

(** [4^5 = 1024 > 10^3]. *)
Lemma log10_4_lower : 0.6 < JS.log10 4.
Proof.
  assert (H : JS.log10 (10 ^ 3) < JS.log10 (4 ^ 5)).
  { apply log10_increasing; simpl; lra. }
  rewrite !log10_pow, log10_10 in H by lra; simpl in H; lra.
Qed.

Lemma log10_20_bounds : 1 < JS.log10 20 < 2.
Proof.
  split.
  - rewrite <- log10_10; apply log10_increasing; lra.
  - rewrite <- log10_100; apply log10_increasing; lra.
Qed.

Lemma exp_double x : JS.exp (2 * x) = JS.exp x * JS.exp x.
Proof.
  unfold JS.exp; replace (2 * x) with (x + x) by lra; apply exp_plus.
Qed.

(** [exp 7.2 = (exp 0.9)^8 > 1.9^8 > 99]. *)
Lemma exp_7_2_lower : 99 < JS.exp 7.2.
Proof.
  assert (H1 : 1.9 < JS.exp 0.9).
  { unfold JS.exp. pose proof (exp_ineq1 0.9). lra. }
  assert (H2 : JS.exp 1.8 = JS.exp 0.9 * JS.exp 0.9).
  { rewrite <- exp_double; f_equal; lra. }
  assert (H4 : JS.exp 3.6 = JS.exp 1.8 * JS.exp 1.8).
  { rewrite <- exp_double; f_equal; lra. }
  assert (H8 : JS.exp 7.2 = JS.exp 3.6 * JS.exp 3.6).
  { rewrite <- exp_double; f_equal; lra. }
  assert (B2 : 3.61 < JS.exp 1.8) by nra.
  assert (B4 : 13 < JS.exp 3.6) by nra.
  nra.
Qed.

Lemma exp_lower_from x : 7.2 <= x -> 99 < JS.exp x.
Proof.
  intro Hx. pose proof exp_7_2_lower as H.
  destruct Hx as [Hlt | Heq]; [ | now rewrite <- Heq].
  apply Rlt_trans with (1 := H); unfold JS.exp; now apply exp_increasing.
Qed.

Lemma sigmoid_bounds val threshold k : 0 < sigmoid val threshold k < 1.
Proof.
  unfold sigmoid; cbv zeta.
  set (e := JS.exp _).
  assert (He : 0 < e) by apply exp_pos.
  split.
  - apply Rdiv_lt_0_compat; lra.
  - apply Rmult_lt_reg_r with (1 + e); [lra | ].
    unfold Rdiv; rewrite Rmult_assoc, Rinv_l by lra; lra.
Qed.

(** The sigmoid is small well below the threshold ... *)
Lemma sigmoid_upper val threshold k c :
  0 < c ->
  c <= JS.exp (k * (JS.log10 (JS.max threshold 1)
                    - JS.log10 (JS.max val 1))) ->
  sigmoid val threshold k <= 1 / (1 + c).
Proof.
  intros Hc H; unfold sigmoid; cbv zeta.
  replace (- k * (JS.log10 (JS.max val 1) - JS.log10 (JS.max threshold 1)))
    with (k * (JS.log10 (JS.max threshold 1) - JS.log10 (JS.max val 1)))
    by lra.
  set (e := JS.exp _) in *.
  unfold Rdiv; rewrite !Rmult_1_l.
  apply Rinv_le_contravar; lra.
Qed.

(** ... and close to 1 well above it. *)
Lemma sigmoid_lower val threshold k c :
  0 < c ->
  c <= JS.exp (k * (JS.log10 (JS.max val 1)
                    - JS.log10 (JS.max threshold 1))) ->
  1 - 1 / (1 + c) <= sigmoid val threshold k.
Proof.
  intros Hc H; unfold sigmoid; cbv zeta.
  set (d := JS.log10 (JS.max val 1) - JS.log10 (JS.max threshold 1)) in *.
  replace (- k * d) with (- (k * d)) by lra.
  unfold JS.exp in *; rewrite exp_Ropp.
  set (e := exp (k * d)) in *.
  assert (He : 0 < e) by apply exp_pos.
  replace (1 - 1 / (1 + c)) with (1 / (1 + / c)) by (field; lra).
  unfold Rdiv; rewrite !Rmult_1_l.
  assert (Hinv : / e <= / c) by (apply Rinv_le_contravar; lra).
  assert (Hpos : 0 < / e) by (apply Rinv_0_lt_compat; lra).
  apply Rinv_le_contravar; lra.
Qed.

(** ** Weight engine *)

Lemma factors_bounds p nMin nTotal :
  let f := factors p nMin nTotal in
  0 < isLowDim f < 1 /\ 0 < isHighDim f < 1 /\
  0 < isTinyMin f < 1 /\ 0 < efficiencyPressure f < 1.
Proof.
  unfold factors; cbv zeta; simpl.
  pose proof (sigmoid_bounds p THRESHOLDS.DIM_LOW 12).
  pose proof (sigmoid_bounds p THRESHOLDS.DIM_HIGH 12).
  pose proof (sigmoid_bounds nMin (getMinorityThreshold p) 10).
  pose proof (sigmoid_bounds (nTotal / JS.max 1 nMin)
                THRESHOLDS.EFFICIENCY_RATIO 8).
  pose proof (sigmoid_bounds nTotal THRESHOLDS.EFFICIENCY_TOTAL 8).
  repeat split; try lra; unfold JS.max at 1;
    (apply Rmax_case_strong; intros; lra).
Qed.

Section Regimes.
Variable f : Factors.
Hypothesis HT : 0 < isTinyMin f < 1.
Hypothesis HE : 0 < efficiencyPressure f < 1.

Lemma lowDimRegime_nonneg w : nonneg w -> nonneg (lowDimRegime f w).
Proof.
  unfold nonneg, lowDimRegime; intros (HO & HU & HH & HB).
  destruct (gtb_reflect (isLowDim f) 0.01) as [Hb | Hb]; simpl;
    repeat split; try assumption;
    (apply Rplus_le_le_0_compat;
     [assumption | repeat apply Rmult_le_pos; lra]).
Qed.

Lemma medDimRegime_nonneg w : nonneg w -> nonneg (medDimRegime f w).
Proof.
  unfold nonneg, medDimRegime; intros (HO & HU & HH & HB).
  destruct (gtb_reflect (isMedDim f) 0.01) as [Hb | Hb]; simpl;
    repeat split; try assumption;
    (apply Rplus_le_le_0_compat;
     [assumption | repeat apply Rmult_le_pos; lra]).
Qed.

Lemma highDimRegime_nonneg w : nonneg w -> nonneg (highDimRegime f w).
Proof.
  unfold nonneg, highDimRegime; intros (HO & HU & HH & HB).
  destruct (gtb_reflect (isHighDim f) 0.01) as [Hb | Hb]; simpl;
    repeat split; try assumption;
    (apply Rplus_le_le_0_compat;
     [assumption | repeat apply Rmult_le_pos; lra]).
Qed.
End Regimes.

Lemma fallback_nonneg w : nonneg w -> nonneg (fallback w).
Proof.
  unfold nonneg, fallback; intros (HO & HU & HH & HB).
  destruct (ltb_reflect (totalOf w) 0.001); simpl;
    repeat split; try assumption; lra.
Qed.

Lemma fallback_total_pos w : nonneg w -> 0 < totalOf (fallback w).
Proof.
  unfold nonneg, fallback; intros (HO & HU & HH & HB).
  destruct (ltb_reflect (totalOf w) 0.001) as [Hlt | Hge];
    unfold totalOf in *; simpl; lra.
Qed.

Lemma fallback_degenerate w :
  totalOf w < 0.001 -> wBaseline (fallback w) = 1.
Proof.
  intro H; unfold fallback.
  destruct (ltb_reflect (totalOf w) 0.001); [reflexivity | lra].
Qed.

Lemma rawWeights_nonneg p nMin nTotal : nonneg (rawWeights p nMin nTotal).
Proof.
  destruct (factors_bounds p nMin nTotal) as (_ & _ & HT & HE).
  unfold rawWeights; cbv zeta.
  apply fallback_nonneg, highDimRegime_nonneg, medDimRegime_nonneg,
    lowDimRegime_nonneg; try assumption.
  unfold nonneg; simpl; lra.
Qed.

Lemma rawWeights_total_pos p nMin nTotal :
  0 < totalOf (rawWeights p nMin nTotal).
Proof.
  destruct (factors_bounds p nMin nTotal) as (_ & _ & HT & HE).
  unfold rawWeights; cbv zeta.
  apply fallback_total_pos, highDimRegime_nonneg, medDimRegime_nonneg,
    lowDimRegime_nonneg; try assumption.
  unfold nonneg; simpl; lra.
Qed.

Lemma Rpower_lt_1 x y : 0 < x < 1 -> 0 < y -> 0 < Rpower x y < 1.
Proof.
  intros Hx Hy; unfold Rpower; split; [apply exp_pos | ].
  rewrite <- exp_0; apply exp_increasing.
  assert (Hln : ln x < 0) by (rewrite <- ln_1; apply ln_increasing; lra).
  nra.
Qed.

Lemma stability_bounds sparsity homogeneity :
  0 <= sparsity <= 0.99 -> 0 <= homogeneity <= 1 ->
  0 < getDistanceStability sparsity homogeneity <= 1.
Proof.
  intros Hs Hh; unfold getDistanceStability.
  destruct (ltb_reflect sparsity 0.3) as [Hlt | Hge]; [lra | ].
  cbv zeta; unfold JS.pow, JS.max.
  assert (Hp : 0 < Rpower sparsity 2.5 < 1) by (apply Rpower_lt_1; lra).
  assert (Hrisk : 0 < Rpower sparsity 2.5 * (0.2 + 0.8 * homogeneity) < 1)
    by nra.
  rewrite Rmax_right by lra; lra.
Qed.

Lemma applyPenalty_total q w :
  0 <= q ->
  totalOf (applyPenalty q w) =
  totalOf w - q * q * (wOversample w + wHybrid w).
Proof.
  intro Hq; unfold applyPenalty.
  destruct (gtb_reflect q 0) as [Hpos | Hz]; unfold totalOf; simpl.
  - ring.
  - replace q with 0 by lra; ring.
Qed.

Lemma applyPenalty_nonneg q w :
  0 <= q <= 1 -> nonneg w -> nonneg (applyPenalty q w).
Proof.
  unfold nonneg, applyPenalty; intros Hq (HO & HU & HH & HB).
  assert (HO1 : 0 <= wOversample w - wOversample w * q) by nra.
  assert (HH1 : 0 <= wHybrid w - wHybrid w * q) by nra.
  assert (HO2 : 0 <= (wOversample w - wOversample w * q) * q)
    by (apply Rmult_le_pos; lra).
  assert (HH2 : 0 <= (wHybrid w - wHybrid w * q) * q)
    by (apply Rmult_le_pos; lra).
  destruct (gtb_reflect q 0) as [Hpos | Hz]; simpl;
    repeat split; try assumption; lra.
Qed.

Lemma applyPenalty_undersample q w :
  wUndersample (applyPenalty q w) = wUndersample w.
Proof. unfold applyPenalty; destruct (q >? 0); reflexivity. Qed.

Lemma weights_valid p nMin nTotal sparsity homogeneity :
  0 <= sparsity <= 0.99 -> 0 <= homogeneity <= 1 ->
  let w := weights (calculateWeights p nMin nTotal sparsity homogeneity) in
  nonneg w /\ 0 < totalOf w.
Proof.
  intros Hs Hh; cbv zeta; unfold calculateWeights; simpl.
  pose proof (stability_bounds sparsity homogeneity Hs Hh) as Hst.
  pose proof (rawWeights_nonneg p nMin nTotal) as Hnn.
  pose proof (rawWeights_total_pos p nMin nTotal) as Hpos.
  set (q := 1 - getDistanceStability sparsity homogeneity) in *.
  set (w := rawWeights p nMin nTotal) in *.
  assert (Hq : 0 <= q < 1) by (unfold q; lra).
  split; [apply applyPenalty_nonneg; [lra | assumption] | ].
  rewrite applyPenalty_total by lra.
  destruct Hnn as (HO & HU & HH & HB); unfold totalOf in *.
  assert (Hq2 : 0 <= q * q < 1) by nra.
  nra.
Qed.

(** C7.  For [features > 0], [minority > 0], [total >= minority],
    [sparsity] in [0, 0.99] and [sparsityHomogeneity] in [0, 1], the four
    weights that [calculateWeights] returns are non-negative and their
    sum is strictly positive; when the mass collected by the three
    regimes is below 0.001 the fallback sets the baseline to 1. *)
Theorem calculateWeights_nonneg_positive_sum
    (p nMin nTotal sparsity homogeneity : R) :
  0 < p -> 0 < nMin -> nMin <= nTotal ->
  0 <= sparsity <= 0.99 -> 0 <= homogeneity <= 1 ->
  let w := weights (calculateWeights p nMin nTotal sparsity homogeneity) in
  nonneg w /\ 0 < totalOf w /\
  (forall w0, totalOf w0 < 0.001 -> wBaseline (fallback w0) = 1).
Proof.
  intros _ _ _ Hs Hh; cbv zeta.
  destruct (weights_valid p nMin nTotal sparsity homogeneity Hs Hh)
    as [Hnn Hpos].
  split; [exact Hnn | split; [exact Hpos | exact fallback_degenerate]].
Qed.

Lemma calculateWeights_nonneg_positive_sum_witness :
  let w := weights (calculateWeights 5 50 2000 0.8 0.8) in
  nonneg w /\ 0 < totalOf w.
Proof.
  destruct (calculateWeights_nonneg_positive_sum 5 50 2000 0.8 0.8)
    as (Hnn & Hpos & _); try lra.
  split; assumption.
Defined.

(** C9.  The undersample weight and the pre-penalty dominant strategy do
    not depend on the sparsity inputs: two runs of [calculateWeights] that
    agree on features, minority and total return the same [wUndersample]
    and the same [dominantOriginal], whatever their [sparsity] and
    [sparsityHomogeneity]; the penalty step leaves [wUndersample]
    untouched. *)
Theorem undersample_independent_of_sparsity
    (p nMin nTotal s1 h1 s2 h2 : R) :
  let run1 := calculateWeights p nMin nTotal s1 h1 in
  let run2 := calculateWeights p nMin nTotal s2 h2 in
  wUndersample (weights run1) = wUndersample (weights run2) /\
  dominantOriginal run1 = dominantOriginal run2 /\
  wUndersample (weights run1) = wUndersample (rawWeights p nMin nTotal).
Proof.
  cbv zeta; unfold calculateWeights; simpl.
  rewrite !applyPenalty_undersample; repeat split; reflexivity.
Qed.

(** ** The engine at [features = 5], [minority = 50] *)

Lemma max_ge_1 x : 1 <= x -> JS.max x 1 = x.
Proof. intro H; now apply max_l. Qed.

Lemma threshold_low p : p <= 20 -> getMinorityThreshold p = 200.
Proof.
  intro H; unfold getMinorityThreshold, THRESHOLDS.DIM_LOW,
    THRESHOLDS.MIN_SAMPLES_BASE.
  destruct (leb_reflect p 20); [reflexivity | lra].
Qed.

Lemma exp_6_lower : 16 < JS.exp 6.
Proof.
  assert (H3 : 4 < JS.exp 3).
  { unfold JS.exp. pose proof (exp_ineq1 3). lra. }
  assert (H6 : JS.exp 6 = JS.exp 3 * JS.exp 3).
  { rewrite <- exp_double; f_equal; lra. }
  nra.
Qed.

Lemma sigmoid_5_20 : sigmoid 5 20 12 <= 1 / 100.
Proof.
  replace (1 / 100) with (1 / (1 + 99)) by lra.
  apply sigmoid_upper; [lra | ].
  rewrite !max_ge_1 by lra.
  replace 20 with (5 * 4) by lra. rewrite log10_mult by lra.
  pose proof log10_4_lower.
  left; apply exp_lower_from; lra.
Qed.

Lemma sigmoid_5_100 : sigmoid 5 100 12 <= 1 / 100.
Proof.
  replace (1 / 100) with (1 / (1 + 99)) by lra.
  apply sigmoid_upper; [lra | ].
  rewrite !max_ge_1 by lra.
  replace 100 with (5 * 20) by lra. rewrite log10_mult by lra.
  pose proof log10_20_bounds.
  left; apply exp_lower_from; lra.
Qed.

Lemma sigmoid_50_200 : sigmoid 50 200 10 <= 1 / 17.
Proof.
  replace (1 / 17) with (1 / (1 + 16)) by lra.
  apply sigmoid_upper; [lra | ].
  rewrite !max_ge_1 by lra.
  replace 200 with (50 * 4) by lra. rewrite log10_mult by lra.
  pose proof log10_4_lower. pose proof exp_6_lower.
  left; apply Rlt_trans with (JS.exp 6); [assumption | ].
  unfold JS.exp; apply exp_increasing; lra.
Qed.

(** Only the low-dimensional regime fires, and it puts almost all of its
    mass on oversampling. *)
Lemma rawWeights_5_50 nTotal :
  exists L T E,
    0.99 <= L < 1 /\ 16 / 17 <= T < 1 /\ 0 < E < 1 /\
    rawWeights 5 50 nTotal =
    {| wOversample := L * T;
       wUndersample := L * (1 - T) * E;
       wHybrid := 0;
       wBaseline := L * (1 - T) * (1 - E) |}.
Proof.
  destruct (factors_bounds 5 50 nTotal) as (HL & HH & HT & HE).
  pose proof sigmoid_5_20 as S20. pose proof sigmoid_5_100 as S100.
  pose proof sigmoid_50_200 as S200.
  pose proof (sigmoid_bounds 5 20 12) as B20.
  pose proof (sigmoid_bounds 5 100 12) as B100.
  unfold rawWeights; cbv zeta.
  set (f := factors 5 50 nTotal) in *.
  assert (EL : isLowDim f = 1 - sigmoid 5 20 12) by reflexivity.
  assert (EH : isHighDim f = sigmoid 5 100 12) by reflexivity.
  assert (EM : isMedDim f = 1 - isLowDim f - isHighDim f) by reflexivity.
  assert (ET : isTinyMin f = 1 - sigmoid 50 200 10).
  { unfold f, factors; simpl; now rewrite threshold_low by lra. }
  clearbody f.
  exists (isLowDim f), (isTinyMin f), (efficiencyPressure f).
  repeat split; try lra.
  unfold lowDimRegime, medDimRegime, highDimRegime, fallback.
  destruct (gtb_reflect (isLowDim f) 0.01) as [_ | Hn]; [ | lra].
  destruct (gtb_reflect (isMedDim f) 0.01) as [Hm | _]; [lra | ].
  destruct (gtb_reflect (isHighDim f) 0.01) as [Hh | _]; [lra | ].
  cbv zeta; simpl wOversample; simpl wUndersample; simpl wHybrid;
    simpl wBaseline.
  match goal with
  | |- context [JS.ltb ?t 0.001] =>
      destruct (ltb_reflect t 0.001) as [Hlt | _]
  end.
  { exfalso; unfold totalOf in Hlt; simpl in Hlt.
    match type of Hlt with
    | ?t < _ => replace t with (isLowDim f) in Hlt by ring
    end.
    lra. }
  f_equal; ring.
Qed.

(** The penalty at [sparsity = 0.8], [sparsityHomogeneity = 0.8]. *)
Lemma penalty_08 :
  let q := 1 - getDistanceStability 0.8 0.8 in 0 < q < 0.5376.
Proof.
  cbv zeta; unfold getDistanceStability.
  destruct (ltb_reflect 0.8 0.3) as [Hlt | _]; [lra | ].
  cbv zeta; unfold JS.pow, JS.max.
  assert (Hln : ln 0.8 < 0) by (rewrite <- ln_1; apply ln_increasing; lra).
  assert (Hpos : 0 < Rpower 0.8 2.5) by apply exp_pos.
  assert (Hup : Rpower 0.8 2.5 < 0.64).
  { replace 0.64 with (Rpower 0.8 (INR 2))
      by (rewrite Rpower_pow by lra; simpl; lra).
    unfold Rpower; apply exp_increasing; simpl INR; nra. }
  rewrite Rmax_right by nra.
  nra.
Qed.

Lemma applyPenalty_fields q w :
  0 < q ->
  applyPenalty q w =
  {| wOversample := wOversample w - wOversample w * q;
     wUndersample := wUndersample w;
     wHybrid := wHybrid w - wHybrid w * q;
     wBaseline :=
       wBaseline w + (wOversample w - wOversample w * q) * q
       + (wHybrid w - wHybrid w * q) * q |}.
Proof.
  intro Hq; unfold applyPenalty.
  destruct (gtb_reflect q 0); [reflexivity | lra].
Qed.

(** C1, on the code.  At [calculateWeights(5, 50, 2000, 0.8, 0.8)] the
    oversample and hybrid weights are reduced by the fraction [penalty] of
    their pre-penalty values, but the baseline gains strictly less than
    the removed amount, [penalty * (oversample + hybrid)], and the total
    weight mass strictly decreases: each [+=] on the baseline reads the
    weight after it has been reduced. *)
Theorem sparsity_penalty_loses_mass :
  let raw := rawWeights 5 50 2000 in
  let res := calculateWeights 5 50 2000 0.8 0.8 in
  let penalty := 1 - stability res in
  wOversample (weights res) = wOversample raw - wOversample raw * penalty /\
  wHybrid (weights res) = wHybrid raw - wHybrid raw * penalty /\
  wBaseline (weights res) - wBaseline raw
    = penalty * (1 - penalty) * (wOversample raw + wHybrid raw) /\
  wBaseline (weights res) - wBaseline raw
    < penalty * (wOversample raw + wHybrid raw) /\
  totalOf (weights res) < totalOf raw.
Proof.
  cbv zeta; unfold calculateWeights; simpl stability; simpl weights.
  pose proof penalty_08 as Hq; cbv zeta in Hq.
  set (q := 1 - getDistanceStability 0.8 0.8) in *.
  destruct (rawWeights_5_50 2000) as (L & T & E & HL & HT & HE & Hraw).
  rewrite Hraw, applyPenalty_fields by lra; unfold totalOf; simpl.
  assert (Ha : 0 < L * T) by (apply Rmult_lt_0_compat; lra).
  assert (Hqq : 0 < q * q) by (apply Rmult_lt_0_compat; lra).
  assert (Hloss : 0 < q * q * (L * T)) by (apply Rmult_lt_0_compat; lra).
  repeat split; try ring; nra.
Qed.

(** ** The composer at [features = 5], [minority = 50], sparsity 0.8/0.8 *)

Lemma max4_first a u h c :
  u <= a -> h <= a -> c <= a -> JS.max4 a u h c = a.
Proof.
  intros Hu Hh Hc; unfold JS.max4, JS.max.
  rewrite (Rmax_left a u) by lra.
  rewrite (Rmax_left a h) by lra.
  apply Rmax_left; lra.
Qed.

(** Below the low-dimensionality bound with a scarce minority, an
    oversampling winner gets the plain narrative, without a warning. *)
Lemma narrative_low_scarce params stab dom :
  features params <= 20 -> minority params < 200 ->
  nSparsityWarning (narrative params OVERSAMPLE stab dom) = None.
Proof.
  intros Hf Hm; unfold narrative; cbv zeta.
  change (wasForcedToBaseline OVERSAMPLE dom) with false; cbv iota.
  rewrite threshold_low by assumption.
  unfold THRESHOLDS.DIM_LOW.
  destruct (leb_reflect (features params) 20) as [_ | Hn]; [ | lra].
  destruct (ltb_reflect (minority params) 200) as [_ | Hn]; [ | lra].
  reflexivity.
Qed.

(** The raw weights of the example: oversample carries at least 0.93,
    undersample and baseline at most 0.06 each, hybrid nothing. *)
Lemma rawWeights_sparse_shape nTotal :
  exists a u c,
    0.93 <= a < 1 /\ 0 <= u <= 0.06 /\ 0 <= c <= 0.06 /\
    rawWeights 5 50 nTotal =
    {| wOversample := a; wUndersample := u; wHybrid := 0; wBaseline := c |}.
Proof.
  destruct (rawWeights_5_50 nTotal) as (L & T & E & HL & HT & HE & Hraw).
  exists (L * T), (L * (1 - T) * E), (L * (1 - T) * (1 - E)).
  assert (Hrest : 0 <= L * (1 - T) <= 0.06).
  { assert (0 <= L * (1 - T)) by (apply Rmult_le_pos; lra).
    assert (L * (1 - T) <= 1 * (1 - T))
      by (apply Rmult_le_compat_r; lra).
    lra. }
  repeat split; try exact Hraw.
  - assert (0.99 * T <= L * T) by (apply Rmult_le_compat_r; lra). lra.
  - assert (L * T < 1 * T) by (apply Rmult_lt_compat_r; lra). lra.
  - apply Rmult_le_pos; lra.
  - assert (L * (1 - T) * E <= L * (1 - T) * 1)
      by (apply Rmult_le_compat_l; lra).
    lra.
  - apply Rmult_le_pos; lra.
  - assert (L * (1 - T) * (1 - E) <= L * (1 - T) * 1)
      by (apply Rmult_le_compat_l; lra).
    lra.
Qed.

Lemma dominant_sparse nTotal :
  dominantOriginal (calculateWeights 5 50 nTotal 0.8 0.8) = Some OVERSAMPLE.
Proof.
  destruct (rawWeights_sparse_shape nTotal)
    as (a & u & c & Ha & Hu & Hc & Hraw).
  unfold calculateWeights; simpl dominantOriginal.
  rewrite Hraw; unfold dominantOf; simpl.
  rewrite max4_first by lra.
  destruct (eqb_reflect a a) as [_ | Hn];
    [reflexivity | now contradiction Hn].
Qed.

(** Oversample stays ahead of the baseline after the penalty. *)
Lemma pickStrategy_sparse nTotal :
  pickStrategy (weights (calculateWeights 5 50 nTotal 0.8 0.8)) = OVERSAMPLE.
Proof.
  destruct (rawWeights_sparse_shape nTotal)
    as (a & u & c & Ha & Hu & Hc & Hraw).
  pose proof penalty_08 as Hq; cbv zeta in Hq.
  unfold calculateWeights; simpl weights.
  set (q := 1 - getDistanceStability 0.8 0.8) in *.
  rewrite Hraw, applyPenalty_fields by lra.
  unfold pickStrategy; simpl.
  assert (Hkeep : 0.43 < a - a * q).
  { assert (a * q <= a * 0.5376) by (apply Rmult_le_compat_l; lra).
    lra. }
  assert (Hback : (a - a * q) * q <= 0.25).
  { assert (0 <= (q - / 2) * (q - / 2)) by apply Rle_0_sqr.
    assert (a * (q * (1 - q)) <= 1 * (q * (1 - q)))
      by (apply Rmult_le_compat_r; [apply Rmult_le_pos | ]; lra).
    lra. }
  destruct (gtb_reflect (a - a * q)
              (c + (a - a * q) * q + (0 - 0 * q) * q)) as [_ | Hn];
    [ | lra].
  destruct (gtb_reflect (0 - 0 * q) (a - a * q)) as [Hh | _]; [lra | ].
  destruct (gtb_reflect u (a - a * q)) as [Hh | _]; [lra | reflexivity].
Qed.

Lemma analyzeDataset_strategy params :
  strategy (analyzeDataset params) =
  pickStrategy
    (weights
       (calculateWeights (features params) (minority params) (total params)
          (sparsity params) (sparsityHomogeneity params))).
Proof.
  unfold analyzeDataset; destruct (foldAdvice _ _ _); reflexivity.
Qed.

Lemma analyzeDataset_sparsityWarning params :
  let wr :=
    calculateWeights (features params) (minority params) (total params)
      (sparsity params) (sparsityHomogeneity params) in
  sparsityWarning (analyzeDataset params) =
  finalSparsityWarning
    (nSparsityWarning
       (narrative params (pickStrategy (weights wr)) (stability wr)
          (dominantOriginal wr)))
    (sparsity params) (sparsityHomogeneity params).
Proof.
  unfold analyzeDataset; destruct (foldAdvice _ _ _); reflexivity.
Qed.

(** C2, on the code.  With [features = 5], [minority = 50],
    [sparsity = 0.8], [sparsityHomogeneity = 0.8], for every
    [total >= minority] and [folds >= 1]: the pre-penalty dominant
    strategy is Oversample and the post-penalty winner is still
    Oversample, so [wasForcedToBaseline] is false; the recommendation
    carries the high-sparsity caution as its [sparsityWarning]. *)
Theorem evaluate_sparse_keeps_oversample nTotal nFolds :
  nTotal >= 50 -> nFolds >= 1 ->
  let wr := calculateWeights 5 50 nTotal 0.8 0.8 in
  let rec := analyzeDataset (sparseParams nTotal nFolds) in
  dominantOriginal wr = Some OVERSAMPLE /\
  strategy rec = OVERSAMPLE /\
  wasForcedToBaseline (strategy rec) (dominantOriginal wr) = false /\
  sparsityWarning rec =
    Some "Caution: High sparsity reduces distance metric reliability.".
Proof.
  intros _ _; cbv zeta.
  pose proof (dominant_sparse nTotal) as Hdom.
  pose proof (pickStrategy_sparse nTotal) as Hstrat.
  assert (Hrec : strategy (analyzeDataset (sparseParams nTotal nFolds))
                 = OVERSAMPLE).
  { rewrite analyzeDataset_strategy; exact Hstrat. }
  split; [exact Hdom | ].
  split; [exact Hrec | ].
  split; [rewrite Hrec, Hdom; reflexivity | ].
  rewrite analyzeDataset_sparsityWarning; cbv zeta.
  change (features (sparseParams nTotal nFolds)) with 5.
  change (minority (sparseParams nTotal nFolds)) with 50.
  change (total (sparseParams nTotal nFolds)) with nTotal.
  change (sparsity (sparseParams nTotal nFolds)) with 0.8.
  change (sparsityHomogeneity (sparseParams nTotal nFolds)) with 0.8.
  rewrite Hstrat, narrative_low_scarce by (simpl; lra).
  unfold finalSparsityWarning, THRESHOLDS.SPARSITY_CRITICAL; simpl.
  destruct (gtb_reflect 0.8 0.6) as [_ | Hn]; [ | lra].
  destruct (ltb_reflect 0.8 0.4) as [Hlt | _]; [lra | reflexivity].
Qed.

Lemma evaluate_sparse_keeps_oversample_witness :
  strategy (analyzeDataset (sparseParams 2000 5)) = OVERSAMPLE.
Proof.
  destruct (evaluate_sparse_keeps_oversample 2000 5) as (_ & H & _);
    [lra | lra | exact H].
Defined.

(** C2, as the specification states it, fails: no [total >= minority] and
    [folds >= 1] put these inputs on the forced-to-baseline path. *)
Lemma forced_path_unreachable :
  ~ exists total folds,
      total >= 50 /\ folds >= 1 /\
      forcedToBaselinePath (sparseParams total folds).
Proof.
  intros (total & folds & _ & _ & Hpath).
  unfold forcedToBaselinePath in Hpath; cbv zeta in Hpath.
  destruct Hpath as (_ & Hbase & _).
  rewrite analyzeDataset_strategy in Hbase.
  change (pickStrategy (weights (calculateWeights 5 50 total 0.8 0.8))
          = BASELINE) in Hbase.
  rewrite pickStrategy_sparse in Hbase; discriminate Hbase.
Qed.

(** ** Colour blender *)

Lemma STRATEGY_RGB_values :
  STRATEGY_RGB OVERSAMPLE = {| r := 239; g := 68; b := 68 |} /\
  STRATEGY_RGB UNDERSAMPLE = {| r := 59; g := 130; b := 246 |} /\
  STRATEGY_RGB HYBRID = {| r := 168; g := 85; b := 247 |} /\
  STRATEGY_RGB BASELINE = {| r := 16; g := 185; b := 129 |}.
Proof. repeat split; reflexivity. Qed.

(** A weight of zero adds nothing, with or without the guard. *)
Lemma accumulate_components tot w ty acc :
  0 <= w ->
  accumulate tot w ty acc =
  {| r := r acc + r (STRATEGY_RGB ty) * (w / tot);
     g := g acc + g (STRATEGY_RGB ty) * (w / tot);
     b := b acc + b (STRATEGY_RGB ty) * (w / tot) |}.
Proof.
  intro Hw; unfold accumulate.
  destruct (gtb_reflect w 0) as [Hpos | Hz]; [reflexivity | ].
  replace w with 0 by lra.
  destruct acc as [ra ga ba]; simpl; f_equal; unfold Rdiv; ring.
Qed.

(** The blend is the weighted mean of the four anchor colours. *)
Lemma blend_components p nMin nTotal sparsity homogeneity :
  let w := weights (calculateWeights p nMin nTotal sparsity homogeneity) in
  let c := getSmoothStrategyRGB p nMin nTotal sparsity homogeneity in
  nonneg w -> 0 < totalOf w ->
  r c = (239 * wOversample w + 59 * wUndersample w
         + 168 * wHybrid w + 16 * wBaseline w) / totalOf w /\
  g c = (68 * wOversample w + 130 * wUndersample w
         + 85 * wHybrid w + 185 * wBaseline w) / totalOf w /\
  b c = (68 * wOversample w + 246 * wUndersample w
         + 247 * wHybrid w + 129 * wBaseline w) / totalOf w.
Proof.
  cbv zeta; intros (HO & HU & HH & HB) Hpos.
  unfold getSmoothStrategyRGB; cbv zeta.
  set (w := weights (calculateWeights p nMin nTotal sparsity homogeneity))
    in *.
  destruct (eqb_reflect (totalOf w) 0) as [Hz | _]; [lra | ].
  rewrite !accumulate_components by assumption.
  destruct STRATEGY_RGB_values as (-> & -> & -> & ->); simpl.
  repeat split; field; lra.
Qed.

(** C3, on the code.  For inputs in the documented ranges each component
    of [getSmoothStrategyRGB] is a real number in [0, 255]; it lies
    between the smallest and the largest value of that channel among the
    four anchor colours. *)
Theorem blendColor_in_range (p nMin nTotal sparsity homogeneity : R) :
  0 < p -> 0 < nMin -> nMin <= nTotal ->
  0 <= sparsity <= 0.99 -> 0 <= homogeneity <= 1 ->
  let c := getSmoothStrategyRGB p nMin nTotal sparsity homogeneity in
  (0 <= r c <= 255 /\ 0 <= g c <= 255 /\ 0 <= b c <= 255) /\
  (16 <= r c <= 239 /\ 68 <= g c <= 185 /\ 68 <= b c <= 247).
Proof.
  intros _ _ _ Hs Hh; cbv zeta.
  destruct (weights_valid p nMin nTotal sparsity homogeneity Hs Hh)
    as [Hnn Hpos]; cbv zeta in Hnn, Hpos.
  destruct (blend_components p nMin nTotal sparsity homogeneity Hnn Hpos)
    as (Hr & Hg & Hb).
  set (w := weights (calculateWeights p nMin nTotal sparsity homogeneity))
    in *.
  destruct Hnn as (HO & HU & HH & HB).
  assert (Hinv : 0 < / totalOf w) by now apply Rinv_0_lt_compat.
  assert (Hsum : wOversample w / totalOf w + wUndersample w / totalOf w
                 + wHybrid w / totalOf w + wBaseline w / totalOf w = 1).
  { unfold totalOf in *; field; lra. }
  assert (XO : 0 <= wOversample w / totalOf w)
    by (apply Rmult_le_pos; lra).
  assert (XU : 0 <= wUndersample w / totalOf w)
    by (apply Rmult_le_pos; lra).
  assert (XH : 0 <= wHybrid w / totalOf w) by (apply Rmult_le_pos; lra).
  assert (XB : 0 <= wBaseline w / totalOf w) by (apply Rmult_le_pos; lra).
  rewrite Hr, Hg, Hb; unfold Rdiv in *.
  rewrite !Rmult_plus_distr_r, !Rmult_assoc.
  lra.
Qed.

Lemma blendColor_in_range_witness :
  let c := getSmoothStrategyRGB 5 50 2000 0.8 0.8 in
  0 <= r c <= 255 /\ 0 <= g c <= 255 /\ 0 <= b c <= 255.
Proof.
  destruct (blendColor_in_range 5 50 2000 0.8 0.8) as [H _];
    [lra | lra | lra | lra | lra | exact H].
Defined.

(** *** A blend that is not an integer *)

Lemma sigmoid_10000_20 : 0.99 <= sigmoid 10000 20 12.
Proof.
  replace 0.99 with (1 - 1 / (1 + 99)) by lra.
  apply sigmoid_lower; [lra | ].
  rewrite !max_ge_1 by lra. rewrite log10_10000.
  pose proof log10_20_bounds.
  left; apply exp_lower_from; lra.
Qed.

Lemma sigmoid_10000_100 : 0.99 <= sigmoid 10000 100 12.
Proof.
  replace 0.99 with (1 - 1 / (1 + 99)) by lra.
  apply sigmoid_lower; [lra | ].
  rewrite !max_ge_1 by lra. rewrite log10_10000, log10_100.
  left; apply exp_lower_from; lra.
Qed.

(** Only the high-dimensional regime fires: its mass is split between
    hybrid and undersample. *)
Lemma rawWeights_10000 nMin nTotal :
  exists H T,
    0.99 <= H < 1 /\ 0 < T < 1 /\
    rawWeights 10000 nMin nTotal =
    {| wOversample := 0;
       wUndersample := H * (1 - T);
       wHybrid := H * T;
       wBaseline := 0 |}.
Proof.
  destruct (factors_bounds 10000 nMin nTotal) as (HL & HH & HT & HE).
  pose proof sigmoid_10000_20 as S20. pose proof sigmoid_10000_100 as S100.
  pose proof (sigmoid_bounds 10000 20 12) as B20.
  unfold rawWeights; cbv zeta.
  set (f := factors 10000 nMin nTotal) in *.
  assert (EL : isLowDim f = 1 - sigmoid 10000 20 12) by reflexivity.
  assert (EH : isHighDim f = sigmoid 10000 100 12) by reflexivity.
  assert (EM : isMedDim f = 1 - isLowDim f - isHighDim f) by reflexivity.
  clearbody f.
  exists (isHighDim f), (isTinyMin f).
  repeat split; try lra.
  unfold lowDimRegime, medDimRegime, highDimRegime, fallback.
  destruct (gtb_reflect (isLowDim f) 0.01) as [Hl | _]; [lra | ].
  destruct (gtb_reflect (isMedDim f) 0.01) as [Hm | _]; [lra | ].
  destruct (gtb_reflect (isHighDim f) 0.01) as [_ | Hn]; [ | lra].
  cbv zeta; simpl wOversample; simpl wUndersample; simpl wHybrid;
    simpl wBaseline.
  match goal with
  | |- context [JS.ltb ?t 0.001] =>
      destruct (ltb_reflect t 0.001) as [Hlt | _]
  end.
  { exfalso; unfold totalOf in Hlt; simpl in Hlt.
    match type of Hlt with
    | ?t < _ => replace t with (isHighDim f) in Hlt by ring
    end.
    lra. }
  f_equal; ring.
Qed.

Lemma blue_10000 :
  246 < b (getSmoothStrategyRGB 10000 800 2000 0 0.5) < 247.
Proof.
  assert (Hs : 0 <= 0 <= 0.99) by lra.
  assert (Hh : 0 <= 0.5 <= 1) by lra.
  destruct (weights_valid 10000 800 2000 0 0.5 Hs Hh) as [Hnn Hpos];
    cbv zeta in Hnn, Hpos.
  destruct (blend_components 10000 800 2000 0 0.5 Hnn Hpos)
    as (_ & _ & Hb).
  rewrite Hb; clear Hb Hnn Hpos.
  unfold calculateWeights; simpl weights.
  assert (Hq : 1 - getDistanceStability 0 0.5 = 0).
  { unfold getDistanceStability.
    destruct (ltb_reflect 0 0.3); lra. }
  rewrite Hq.
  assert (Hid : forall w, applyPenalty 0 w = w).
  { intro w; unfold applyPenalty.
    destruct (gtb_reflect 0 0); [lra | reflexivity]. }
  rewrite Hid.
  destruct (rawWeights_10000 800 2000) as (H & T & HH & HT & Hraw).
  rewrite Hraw; unfold totalOf; simpl.
  replace ((68 * 0 + 246 * (H * (1 - T)) + 247 * (H * T) + 129 * 0)
           / (0 + H * (1 - T) + H * T + 0))
    with (246 + T) by (field; lra).
  lra.
Qed.

(** C3, as the specification states it, fails: at
    [getSmoothStrategyRGB(10000, 800, 2000, 0, 0.5)] the blue component
    lies strictly between 246 and 247. *)
Lemma blendColor_not_integer :
  0 < 10000 /\ 0 < 800 /\ 800 <= 2000 /\ 0 <= 0 <= 0.99 /\ 0 <= 0.5 <= 1 /\
  ~ isByte (b (getSmoothStrategyRGB 10000 800 2000 0 0.5)).
Proof.
  repeat split; try lra.
  intros (z & Hz & _).
  pose proof blue_10000 as [Hlo Hhi].
  rewrite Hz in Hlo, Hhi.
  apply lt_IZR in Hlo, Hhi; lia.
Qed.

(** * Further properties of the engine *)

(** ** The sigmoid gate *)

Lemma log10_le x y : 0 < x -> x <= y -> JS.log10 x <= JS.log10 y.
Proof.
  intros Hx [Hlt | Heq]; [left; now apply log10_increasing | ].
  rewrite Heq; apply Rle_refl.
Qed.

Lemma max_below x y : x <= y -> JS.max x y = y.
Proof. apply Rmax_right. Qed.

Lemma max_1_pos x : 1 <= JS.max x 1.
Proof. apply Rmax_r. Qed.

Lemma max_1_le x y : x <= y -> JS.max x 1 <= JS.max y 1.
Proof. intro H; apply Rle_max_compat_r; exact H. Qed.

Lemma logistic_le d1 d2 :
  d1 <= d2 -> 1 / (1 + JS.exp (- d1)) <= 1 / (1 + JS.exp (- d2)).
Proof.
  intro H; unfold JS.exp.
  pose proof (exp_pos (- d1)) as H1. pose proof (exp_pos (- d2)) as H2.
  assert (He : exp (- d2) <= exp (- d1)).
  { destruct H as [Hlt | Heq]; [left; apply exp_increasing; lra | ].
    rewrite Heq; apply Rle_refl. }
  unfold Rdiv; rewrite !Rmult_1_l.
  apply Rinv_le_contravar; lra.
Qed.

Lemma logistic_lt d1 d2 :
  d1 < d2 -> 1 / (1 + JS.exp (- d1)) < 1 / (1 + JS.exp (- d2)).
Proof.
  intro H; unfold JS.exp.
  pose proof (exp_pos (- d1)) as H1. pose proof (exp_pos (- d2)) as H2.
  assert (He : exp (- d2) < exp (- d1)) by (apply exp_increasing; lra).
  unfold Rdiv; rewrite !Rmult_1_l.
  apply Rinv_lt_contravar; [apply Rmult_lt_0_compat | ]; lra.
Qed.

Lemma sigmoid_logistic val threshold k :
  sigmoid val threshold k =
  1 / (1 + JS.exp (- (k * (JS.log10 (JS.max val 1)
                           - JS.log10 (JS.max threshold 1))))).
Proof. unfold sigmoid; cbv zeta; do 3 f_equal; ring. Qed.

(** X1.  For a steepness [k >= 0] the sigmoid gate is monotone: it does
    not decrease when the value grows and does not increase when the
    threshold grows. *)
Theorem sigmoid_monotone val1 val2 thr1 thr2 k :
  0 <= k -> val1 <= val2 -> thr1 <= thr2 ->
  sigmoid val1 thr2 k <= sigmoid val2 thr1 k.
Proof.
  intros Hk Hv Ht; rewrite !sigmoid_logistic.
  apply logistic_le.
  pose proof (max_1_pos val1). pose proof (max_1_pos thr1).
  assert (Hlv : JS.log10 (JS.max val1 1) <= JS.log10 (JS.max val2 1))
    by (apply log10_le; [lra | now apply max_1_le]).
  assert (Hlt : JS.log10 (JS.max thr1 1) <= JS.log10 (JS.max thr2 1))
    by (apply log10_le; [lra | now apply max_1_le]).
  apply Rmult_le_compat_l; lra.
Qed.

Lemma sigmoid_monotone_witness : sigmoid 5 100 12 <= sigmoid 50 20 12.
Proof. apply (sigmoid_monotone 5 50 20 100 12); lra. Defined.

Lemma logistic_zero : 1 / (1 + JS.exp (- 0)) = / 2.
Proof. unfold JS.exp; rewrite Ropp_0, exp_0; lra. Qed.

Lemma gate_argument_le k a b c d :
  0 <= k -> a <= b -> c <= d ->
  k * (JS.log10 (JS.max a 1) - JS.log10 (JS.max d 1))
  <= k * (JS.log10 (JS.max b 1) - JS.log10 (JS.max c 1)).
Proof.
  intros Hk Hab Hcd.
  pose proof (max_1_pos a). pose proof (max_1_pos c).
  assert (JS.log10 (JS.max a 1) <= JS.log10 (JS.max b 1))
    by (apply log10_le; [lra | now apply max_1_le]).
  assert (JS.log10 (JS.max c 1) <= JS.log10 (JS.max d 1))
    by (apply log10_le; [lra | now apply max_1_le]).
  apply Rmult_le_compat_l; lra.
Qed.

(** X2.  The gate is centred on its threshold: a value equal to the
    threshold scores exactly one half and, for a steepness [k >= 0], a
    value at or above the threshold scores at least one half, a value at
    or below it at most one half.  The score always lies in [0, 1], and
    every value or threshold below 1 counts as 1 (the floor that protects
    the logarithm). *)
Theorem sigmoid_midpoint val threshold k :
  sigmoid val val k = / 2 /\
  0 <= sigmoid val threshold k <= 1 /\
  (0 <= k -> threshold <= val -> / 2 <= sigmoid val threshold k) /\
  (0 <= k -> val <= threshold -> sigmoid val threshold k <= / 2) /\
  (val <= 1 -> sigmoid val threshold k = sigmoid 1 threshold k) /\
  (threshold <= 1 -> sigmoid val threshold k = sigmoid val 1 k).
Proof.
  assert (Hhalf : forall v, sigmoid v v k = / 2).
  { intro v; rewrite sigmoid_logistic, <- logistic_zero.
    do 4 f_equal; ring. }
  split; [apply Hhalf | ].
  split; [pose proof (sigmoid_bounds val threshold k); lra | ].
  split; [ | split; [ | split]].
  - intros Hk Hle; rewrite <- (Hhalf threshold), !sigmoid_logistic.
    apply logistic_le, gate_argument_le; lra.
  - intros Hk Hle; rewrite <- (Hhalf threshold), !sigmoid_logistic.
    apply logistic_le, gate_argument_le; lra.
  - intro Hle; unfold sigmoid; cbv zeta.
    rewrite (max_below val 1 Hle), (max_below 1 1) by lra; reflexivity.
  - intro Hle; unfold sigmoid; cbv zeta.
    rewrite (max_below threshold 1 Hle), (max_below 1 1) by lra; reflexivity.
Qed.

Lemma sigmoid_midpoint_witness :
  / 2 <= sigmoid 500 200 10 /\ sigmoid 0 200 10 = sigmoid 1 200 10.
Proof.
  destruct (sigmoid_midpoint 500 200 10) as (_ & _ & Hup & _).
  destruct (sigmoid_midpoint 0 200 10) as (_ & _ & _ & _ & Hfloor & _).
  split; [apply Hup; lra | apply Hfloor; lra].
Defined.

(** ** Thresholds and stability *)

Lemma log10_1 : JS.log10 1 = 0.
Proof. unfold JS.log10; rewrite ln_1; lra. Qed.

Lemma threshold_cases p :
  (p <= 20 /\ getMinorityThreshold p = 200) \/
  (20 < p <= 100 /\ getMinorityThreshold p = 200 + (p - 20) * 2.5) \/
  (100 < p /\ getMinorityThreshold p = 400 + 200 * JS.log10 (p / 100)).
Proof.
  unfold getMinorityThreshold, THRESHOLDS.DIM_LOW, THRESHOLDS.DIM_HIGH,
    THRESHOLDS.MIN_SAMPLES_BASE.
  destruct (leb_reflect p 20); [left; split; [lra | reflexivity] | ].
  destruct (leb_reflect p 100); right;
    [left | right]; (split; [lra | reflexivity]).
Qed.

(** X3.  The minority-sufficiency threshold never drops below 200, never
    decreases when the feature count grows, and its three pieces meet at
    the band edges (200 at [p = 20], 400 at [p = 100], also approached
    from above). *)
Theorem getMinorityThreshold_monotone p1 p2 :
  p1 <= p2 ->
  200 <= getMinorityThreshold p1 <= getMinorityThreshold p2 /\
  getMinorityThreshold 20 = 200 /\
  getMinorityThreshold 100 = 400 /\
  (100 < p2 ->
   getMinorityThreshold p2 - getMinorityThreshold 100
   = 200 * JS.log10 (p2 / 100)).
Proof.
  intro Hle.
  assert (Hlog : forall p, 100 < p -> 0 < JS.log10 (p / 100)).
  { intros p Hp; rewrite <- log10_1; apply log10_increasing; lra. }
  assert (H100 : getMinorityThreshold 100 = 400).
  { destruct (threshold_cases 100) as [[H _] | [[_ H] | [H _]]];
      [lra | rewrite H; lra | lra]. }
  split; [ | split; [apply threshold_low; lra | split; [exact H100 | ]]].
  - destruct (threshold_cases p1) as [[B1 E1] | [[B1 E1] | [B1 E1]]];
      destruct (threshold_cases p2) as [[B2 E2] | [[B2 E2] | [B2 E2]]];
      rewrite E1, E2; try lra.
    + pose proof (Hlog p2 B2); lra.
    + pose proof (Hlog p2 B2); lra.
    + pose proof (Hlog p1 B1).
      assert (JS.log10 (p1 / 100) <= JS.log10 (p2 / 100))
        by (apply log10_le; lra).
      lra.
  - intro Hp; rewrite H100.
    destruct (threshold_cases p2) as [[B _] | [[B _] | [_ E]]];
      [lra | lra | rewrite E; lra].
Qed.

Lemma getMinorityThreshold_monotone_witness :
  200 <= getMinorityThreshold 5 <= getMinorityThreshold 50.
Proof.
  destruct (getMinorityThreshold_monotone 5 50) as [H _]; [lra | exact H].
Defined.

Lemma stability_range sparsity homogeneity :
  0 <= homogeneity -> 0 <= getDistanceStability sparsity homogeneity <= 1.
Proof.
  intro Hh; unfold getDistanceStability.
  destruct (ltb_reflect sparsity 0.3); [lra | ].
  cbv zeta; unfold JS.pow, JS.max.
  assert (Hp : 0 < Rpower sparsity 2.5) by apply exp_pos.
  assert (Hr : 0 <= Rpower sparsity 2.5 * (0.2 + 0.8 * homogeneity))
    by (apply Rmult_le_pos; lra).
  split; [apply Rmax_l | apply Rmax_lub; lra].
Qed.

(** X4.  Distance stability lies in [0, 1] and never increases when the
    sparsity or its homogeneity grows; it is exactly 1 below a sparsity of
    0.3. *)
Theorem getDistanceStability_monotone s1 s2 h1 h2 :
  0 <= s1 <= s2 -> 0 <= h1 <= h2 ->
  0 <= getDistanceStability s2 h2 <= getDistanceStability s1 h1 /\
  getDistanceStability s1 h1 <= 1 /\
  (s1 < 0.3 -> getDistanceStability s1 h1 = 1).
Proof.
  intros Hs Hh.
  pose proof (stability_range s1 h1) as R1.
  pose proof (stability_range s2 h2) as R2.
  split; [split; [apply R2; lra | ] | split; [apply R1; lra | ]].
  - unfold getDistanceStability in *.
    destruct (ltb_reflect s2 0.3) as [H2 | H2];
      destruct (ltb_reflect s1 0.3) as [H1 | H1]; try lra.
    cbv zeta; unfold JS.pow, JS.max.
    { apply Rle_max_compat_l.
      assert (Hp1 : 0 < Rpower s1 2.5) by apply exp_pos.
      assert (Hp : Rpower s1 2.5 <= Rpower s2 2.5)
        by (apply Rle_Rpower_l; lra).
      assert (Rpower s1 2.5 * (0.2 + 0.8 * h1)
              <= Rpower s2 2.5 * (0.2 + 0.8 * h2))
        by (apply Rmult_le_compat; lra).
      lra. }
  - intro H; unfold getDistanceStability.
    destruct (ltb_reflect s1 0.3); [reflexivity | lra].
Qed.

Lemma getDistanceStability_monotone_witness :
  getDistanceStability 0.8 0.8 <= getDistanceStability 0.5 0.2.
Proof.
  destruct (getDistanceStability_monotone 0.5 0.8 0.2 0.8) as [[_ H] _];
    [lra | lra | exact H].
Defined.

(** ** Regimes and mass *)

Lemma sigmoid_threshold_strict p :
  sigmoid p THRESHOLDS.DIM_HIGH 12 < sigmoid p THRESHOLDS.DIM_LOW 12.
Proof.
  rewrite !sigmoid_logistic; apply logistic_lt.
  unfold THRESHOLDS.DIM_HIGH, THRESHOLDS.DIM_LOW.
  rewrite (max_ge_1 100), (max_ge_1 20) by lra.
  assert (JS.log10 20 < JS.log10 100) by (apply log10_increasing; lra).
  lra.
Qed.

(** X5.  The three dimensionality factors of [calculateWeights] are
    proper shares: each of [isLowDim], [isMedDim], [isHighDim] lies in
    [0, 1], the low and the high factor together never exceed 1 (which is
    what keeps the medium factor from going negative), and as the feature
    count grows the low factor never rises and the high factor never
    falls. *)
Theorem dimensionality_factors_range p1 p2 nMin nTotal :
  p1 <= p2 ->
  let f1 := factors p1 nMin nTotal in
  let f2 := factors p2 nMin nTotal in
  0 <= isLowDim f1 <= 1 /\ 0 <= isMedDim f1 <= 1 /\
  0 <= isHighDim f1 <= 1 /\
  isLowDim f1 + isHighDim f1 <= 1 /\
  isLowDim f2 <= isLowDim f1 /\ isHighDim f1 <= isHighDim f2.
Proof.
  intro Hp; cbv zeta.
  destruct (factors_bounds p1 nMin nTotal) as (HL & HH & _ & _).
  pose proof (sigmoid_threshold_strict p1) as Hstrict.
  assert (Hlow : sigmoid p1 THRESHOLDS.DIM_LOW 12
                 <= sigmoid p2 THRESHOLDS.DIM_LOW 12).
  { rewrite !sigmoid_logistic.
    apply logistic_le, gate_argument_le; lra. }
  assert (Hhigh : sigmoid p1 THRESHOLDS.DIM_HIGH 12
                  <= sigmoid p2 THRESHOLDS.DIM_HIGH 12).
  { rewrite !sigmoid_logistic.
    apply logistic_le, gate_argument_le; lra. }
  set (f1 := factors p1 nMin nTotal) in *.
  set (f2 := factors p2 nMin nTotal).
  assert (EL1 : isLowDim f1 = 1 - sigmoid p1 THRESHOLDS.DIM_LOW 12)
    by reflexivity.
  assert (EH1 : isHighDim f1 = sigmoid p1 THRESHOLDS.DIM_HIGH 12)
    by reflexivity.
  assert (EM1 : isMedDim f1 = 1 - isLowDim f1 - isHighDim f1)
    by reflexivity.
  assert (EL2 : isLowDim f2 = 1 - sigmoid p2 THRESHOLDS.DIM_LOW 12)
    by reflexivity.
  assert (EH2 : isHighDim f2 = sigmoid p2 THRESHOLDS.DIM_HIGH 12)
    by reflexivity.
  repeat split; lra.
Qed.

Lemma dimensionality_factors_range_witness :
  isLowDim (factors 500 150 2000) <= isLowDim (factors 50 150 2000) /\
  isHighDim (factors 50 150 2000) <= isHighDim (factors 500 150 2000).
Proof.
  destruct (dimensionality_factors_range 50 500 150 2000)
    as (_ & _ & _ & _ & HL & HH); [lra | ].
  split; [exact HL | exact HH].
Defined.

Lemma regime_mass f w :
  totalOf (lowDimRegime f w) =
    totalOf w + (if isLowDim f >? 0.01 then isLowDim f else 0) /\
  totalOf (medDimRegime f w) =
    totalOf w + (if isMedDim f >? 0.01 then isMedDim f else 0) /\
  totalOf (highDimRegime f w) =
    totalOf w + (if isHighDim f >? 0.01 then isHighDim f else 0).
Proof.
  unfold lowDimRegime, medDimRegime, highDimRegime, totalOf.
  destruct (isLowDim f >? 0.01), (isMedDim f >? 0.01),
    (isHighDim f >? 0.01); simpl; repeat split; ring.
Qed.

(** X6.  The three regime blocks always collect between 0.98 and 1 of
    weight mass, so the below-0.001 fallback never fires: the raw weights
    are the regime weights. *)
Theorem fallback_never_fires p nMin nTotal :
  0.98 <= totalOf (regimeWeights p nMin nTotal) <= 1 /\
  rawWeights p nMin nTotal = regimeWeights p nMin nTotal.
Proof.
  destruct (factors_bounds p nMin nTotal) as (HL & HH & _ & _).
  pose proof (sigmoid_threshold_strict p) as Hstrict.
  assert (Hmass : 0.98 <= totalOf (regimeWeights p nMin nTotal) <= 1).
  { unfold regimeWeights; cbv zeta.
    set (f := factors p nMin nTotal) in *.
    assert (EL : isLowDim f = 1 - sigmoid p THRESHOLDS.DIM_LOW 12)
      by reflexivity.
    assert (EH : isHighDim f = sigmoid p THRESHOLDS.DIM_HIGH 12)
      by reflexivity.
    assert (EM : isMedDim f = 1 - isLowDim f - isHighDim f)
      by reflexivity.
    clearbody f.
    destruct (regime_mass f
                (medDimRegime f
                   (lowDimRegime f
                      {| wOversample := 0; wUndersample := 0;
                         wHybrid := 0; wBaseline := 0 |})))
      as (_ & _ & ->).
    destruct (regime_mass f
                (lowDimRegime f
                   {| wOversample := 0; wUndersample := 0;
                      wHybrid := 0; wBaseline := 0 |}))
      as (_ & -> & _).
    destruct (regime_mass f
                {| wOversample := 0; wUndersample := 0;
                   wHybrid := 0; wBaseline := 0 |})
      as (-> & _ & _).
    unfold totalOf; simpl.
    destruct (gtb_reflect (isLowDim f) 0.01);
      destruct (gtb_reflect (isMedDim f) 0.01);
      destruct (gtb_reflect (isHighDim f) 0.01); lra. }
  split; [exact Hmass | ].
  change (rawWeights p nMin nTotal)
    with (fallback (regimeWeights p nMin nTotal)).
  unfold fallback.
  destruct (ltb_reflect (totalOf (regimeWeights p nMin nTotal)) 0.001);
    [lra | reflexivity].
Qed.

(** X7.  The sparsity penalty only moves weight towards the baseline: for
    a non-negative homogeneity, oversample and hybrid never grow, baseline
    never shrinks and the total mass never grows; below a sparsity of 0.3
    the weights are returned as the regimes left them. *)
Theorem penalty_direction p nMin nTotal sparsity homogeneity :
  0 <= homogeneity ->
  let raw := rawWeights p nMin nTotal in
  let res := weights (calculateWeights p nMin nTotal sparsity homogeneity) in
  wOversample res <= wOversample raw /\
  wHybrid res <= wHybrid raw /\
  wBaseline raw <= wBaseline res /\
  totalOf res <= totalOf raw /\
  (sparsity < 0.3 -> res = raw).
Proof.
  intro Hh; cbv zeta; unfold calculateWeights; simpl weights.
  pose proof (stability_range sparsity homogeneity Hh) as Hst.
  destruct (rawWeights_nonneg p nMin nTotal) as (HO & HU & HH & HB).
  set (w := rawWeights p nMin nTotal) in *.
  set (q := 1 - getDistanceStability sparsity homogeneity).
  assert (Hq : 0 <= q <= 1) by (unfold q; lra).
  assert (HqO : 0 <= wOversample w * q) by (apply Rmult_le_pos; lra).
  assert (HqH : 0 <= wHybrid w * q) by (apply Rmult_le_pos; lra).
  assert (HO1 : 0 <= wOversample w - wOversample w * q) by nra.
  assert (HH1 : 0 <= wHybrid w - wHybrid w * q) by nra.
  assert (HO2 : 0 <= (wOversample w - wOversample w * q) * q)
    by (apply Rmult_le_pos; lra).
  assert (HH2 : 0 <= (wHybrid w - wHybrid w * q) * q)
    by (apply Rmult_le_pos; lra).
  assert (Hloss : 0 <= q * q * (wOversample w + wHybrid w)).
  { apply Rmult_le_pos; [apply Rmult_le_pos | ]; lra. }
  split; [ | split; [ | split; [ | split]]].
  - unfold applyPenalty; destruct (q >? 0); simpl; lra.
  - unfold applyPenalty; destruct (q >? 0); simpl; lra.
  - unfold applyPenalty; destruct (q >? 0); simpl; lra.
  - rewrite applyPenalty_total by lra; lra.
  - intro Hs.
    assert (Hq0 : q = 0).
    { unfold q, getDistanceStability.
      destruct (ltb_reflect sparsity 0.3); lra. }
    rewrite Hq0; unfold applyPenalty.
    destruct (gtb_reflect 0 0); [lra | reflexivity].
Qed.

Lemma penalty_direction_witness :
  totalOf (weights (calculateWeights 50 150 2000 0.8 0.5))
  <= totalOf (rawWeights 50 150 2000).
Proof.
  destruct (penalty_direction 50 150 2000 0.8 0.5) as (_ & _ & _ & H & _);
    [lra | exact H].
Defined.

(** ** Picking the winner *)

(** X8.  [pickStrategy] returns a strategy of maximal post-penalty weight,
    and ties follow the order of the comparisons: baseline wins unless
    another weight is strictly larger, undersample wins only when strictly
    larger than the other three. *)
Theorem pickStrategy_argmax w :
  (forall s, weightOf s w <= weightOf (pickStrategy w) w) /\
  (pickStrategy w = BASELINE <->
   wOversample w <= wBaseline w /\ wHybrid w <= wBaseline w /\
   wUndersample w <= wBaseline w) /\
  (pickStrategy w = UNDERSAMPLE <->
   wBaseline w < wUndersample w /\ wOversample w < wUndersample w /\
   wHybrid w < wUndersample w).
Proof.
  unfold pickStrategy.
  destruct (gtb_reflect (wOversample w) (wBaseline w)) as [H1 | H1];
    cbv iota beta.
  - destruct (gtb_reflect (wHybrid w) (wOversample w)) as [H2 | H2];
      cbv iota beta.
    + destruct (gtb_reflect (wUndersample w) (wHybrid w)) as [H3 | H3];
        (split; [intros []; simpl; lra | ]);
        split; split; intros; try discriminate; try reflexivity; lra.
    + destruct (gtb_reflect (wUndersample w) (wOversample w)) as [H3 | H3];
        (split; [intros []; simpl; lra | ]);
        split; split; intros; try discriminate; try reflexivity; lra.
  - destruct (gtb_reflect (wHybrid w) (wBaseline w)) as [H2 | H2];
      cbv iota beta.
    + destruct (gtb_reflect (wUndersample w) (wHybrid w)) as [H3 | H3];
        (split; [intros []; simpl; lra | ]);
        split; split; intros; try discriminate; try reflexivity; lra.
    + destruct (gtb_reflect (wUndersample w) (wBaseline w)) as [H3 | H3];
        (split; [intros []; simpl; lra | ]);
        split; split; intros; try discriminate; try reflexivity; lra.
Qed.

Lemma max4_cases a u h c :
  let m := JS.max4 a u h c in
  a <= m /\ u <= m /\ h <= m /\ c <= m /\
  (m = a \/ m = u \/ m = h \/ m = c).
Proof.
  cbv zeta; unfold JS.max4, JS.max.
  repeat apply Rmax_case_strong; intros; repeat split; lra || auto.
Qed.

(** X9.  [dominantOriginal] is never null: it names a strategy of maximal
    pre-penalty weight, with ties resolved in the order oversample,
    hybrid, undersample, baseline.  Oversample is named whenever it
    attains the maximum, baseline only when strictly above the rest. *)
Theorem dominantOf_argmax w :
  (exists s, dominantOf w = Some s /\
             forall s', weightOf s' w <= weightOf s w) /\
  (dominantOf w = Some OVERSAMPLE <->
   wUndersample w <= wOversample w /\ wHybrid w <= wOversample w /\
   wBaseline w <= wOversample w) /\
  (dominantOf w = Some BASELINE <->
   wOversample w < wBaseline w /\ wHybrid w < wBaseline w /\
   wUndersample w < wBaseline w).
Proof.
  unfold dominantOf; cbv zeta.
  destruct (max4_cases (wOversample w) (wUndersample w) (wHybrid w)
              (wBaseline w)) as (Ha & Hu & Hh & Hc & Hm); cbv zeta in *.
  set (m := JS.max4 _ _ _ _) in *.
  destruct (eqb_reflect m (wOversample w)) as [E1 | E1].
  { split; [exists OVERSAMPLE; split; [reflexivity | intros []; simpl; lra]
           | ].
    split; split; intros; try discriminate; try reflexivity; lra. }
  destruct (eqb_reflect m (wHybrid w)) as [E2 | E2].
  { split; [exists HYBRID; split; [reflexivity | intros []; simpl; lra] | ].
    split; split; intros; try discriminate; try reflexivity; lra. }
  destruct (eqb_reflect m (wUndersample w)) as [E3 | E3].
  { split; [exists UNDERSAMPLE;
            split; [reflexivity | intros []; simpl; lra] | ].
    split; split; intros; try discriminate; try reflexivity; lra. }
  assert (E4 : m = wBaseline w) by (destruct Hm as [? | [? | [? | ?]]];
                                   congruence).
  split; [exists BASELINE; split; [reflexivity | intros []; simpl; lra] | ].
  split; split; intros; try discriminate; try reflexivity; lra.
Qed.

(** ** The recommendation record *)

Lemma analyzeDataset_color params :
  let wr :=
    calculateWeights (features params) (minority params) (total params)
      (sparsity params) (sparsityHomogeneity params) in
  color (analyzeDataset params) =
  nColor (narrative params (pickStrategy (weights wr)) (stability wr)
            (dominantOriginal wr)).
Proof.
  unfold analyzeDataset; destruct (foldAdvice _ _ _); reflexivity.
Qed.

Lemma narrative_color params st stab dom :
  nColor (narrative params st stab dom) =
  if wasForcedToBaseline st dom
     && (sparsity params >? 0.5) && (sparsityHomogeneity params <? 0.3)
  then COLORS (match dom with Some d => d | None => HYBRID end)
  else COLORS st.
Proof.
  unfold narrative; cbv zeta.
  destruct (wasForcedToBaseline st dom); simpl.
  - destruct (_ && _); reflexivity.
  - repeat match goal with
           | |- context [if ?c then _ else _] => destruct c
           end; reflexivity.
Qed.

Lemma narrative_warning params st stab dom :
  nSparsityWarning (narrative params st stab dom) =
  if wasForcedToBaseline st dom then
    Some (if (sparsity params >? 0.5) && (sparsityHomogeneity params <? 0.3)
          then "Recommendation: Utilize SMOTE-NC or feature-specific handling."
          else "Critical Sparsity: Euclidean distance metrics are unstable.")
  else None.
Proof.
  unfold narrative; cbv zeta.
  destruct (wasForcedToBaseline st dom); simpl.
  - destruct (_ && _); reflexivity.
  - repeat match goal with
           | |- context [if ?c then _ else _] => destruct c
           end; reflexivity.
Qed.

Lemma wasForced_cases st dom :
  wasForcedToBaseline st dom = true <->
  st = BASELINE /\ (dom = Some OVERSAMPLE \/ dom = Some HYBRID).
Proof.
  unfold wasForcedToBaseline, dominant_is.
  destruct st, dom as [[] | ]; simpl; split; intros H;
    try discriminate; try reflexivity; auto;
    destruct H as [H1 [H2 | H2]]; discriminate.
Qed.

(** X10.  The [color] of a recommendation is always one of the four
    palette values.  It is the colour of the returned [strategy], except
    on the specialised sparse path (forced to baseline with
    [sparsity > 0.5] and [sparsityHomogeneity < 0.3]), where the strategy
    is the baseline but the colour is that of the pre-penalty dominant
    strategy, oversample or hybrid. *)
Theorem recommendation_color params :
  let rec := analyzeDataset params in
  (exists s, color rec = COLORS s) /\
  (specializedPath params = false -> color rec = COLORS (strategy rec)) /\
  (specializedPath params = true ->
   strategy rec = BASELINE /\
   (color rec = COLORS OVERSAMPLE \/ color rec = COLORS HYBRID) /\
   color rec <> COLORS (strategy rec)).
Proof.
  cbv zeta.
  rewrite analyzeDataset_color, analyzeDataset_strategy; cbv zeta.
  rewrite narrative_color; unfold specializedPath; cbv zeta.
  set (wr := calculateWeights _ _ _ _ _); clearbody wr.
  destruct (wasForcedToBaseline (pickStrategy (weights wr))
              (dominantOriginal wr)) eqn:Hf; simpl.
  - apply wasForced_cases in Hf; destruct Hf as [Hst Hdom].
    destruct (_ && _).
    + split; [eexists; reflexivity | ].
      split; [discriminate | intros _].
      split; [exact Hst | ].
      rewrite Hst; destruct Hdom as [-> | ->];
        (split; [auto | discriminate]).
    + split; [eexists; reflexivity | ].
      split; [reflexivity | discriminate].
  - split; [eexists; reflexivity | ].
    split; [reflexivity | discriminate].
Qed.

(** X11.  A recommendation carries a [sparsityWarning] exactly when the
    strategy was forced to the baseline or the sparsity exceeds 0.6; the
    forced path keeps its own wording, the generic wording depends only on
    [sparsityHomogeneity < 0.4]. *)
Theorem sparsityWarning_set params :
  let wr :=
    calculateWeights (features params) (minority params) (total params)
      (sparsity params) (sparsityHomogeneity params) in
  let rec := analyzeDataset params in
  let forced := wasForcedToBaseline (strategy rec) (dominantOriginal wr) in
  (sparsityWarning rec <> None <->
   forced = true \/ sparsity params > 0.6) /\
  (forced = false -> sparsity params > 0.6 ->
   sparsityWarning rec =
   Some (if sparsityHomogeneity params <? 0.4
         then "Structured Sparsity: Use Nominal/Continuous variants (e.g., SMOTE-NC)."
         else "Caution: High sparsity reduces distance metric reliability.")) /\
  (forced = true ->
   sparsityWarning rec =
   Some (if (sparsity params >? 0.5) && (sparsityHomogeneity params <? 0.3)
         then "Recommendation: Utilize SMOTE-NC or feature-specific handling."
         else "Critical Sparsity: Euclidean distance metrics are unstable.")).
Proof.
  cbv zeta.
  rewrite analyzeDataset_sparsityWarning, analyzeDataset_strategy;
    cbv zeta.
  rewrite narrative_warning.
  set (wr := calculateWeights _ _ _ _ _); clearbody wr.
  destruct (wasForcedToBaseline (pickStrategy (weights wr))
              (dominantOriginal wr)).
  - assert (Hkeep : forall c : bool,
        finalSparsityWarning
          (Some (if c
                 then "Recommendation: Utilize SMOTE-NC or feature-specific handling."
                 else "Critical Sparsity: Euclidean distance metrics are unstable."))
          (sparsity params) (sparsityHomogeneity params)
        = Some (if c
                then "Recommendation: Utilize SMOTE-NC or feature-specific handling."
                else "Critical Sparsity: Euclidean distance metrics are unstable.")).
    { intros []; reflexivity. }
    rewrite Hkeep.
    split; [split; [auto | discriminate] | ].
    split; [discriminate | reflexivity].
  - unfold finalSparsityWarning, THRESHOLDS.SPARSITY_CRITICAL; simpl.
    destruct (gtb_reflect (sparsity params) 0.6) as [Hs | Hs].
    + split; [split; [auto | discriminate] | ].
      split; [reflexivity | discriminate].
    + split; [split; [intro H; now contradiction H
                     | intros [H | H]; [discriminate | lra]] | ].
      split; [intros _ H; lra | discriminate].
Qed.

(** ** More on the fold analyzer *)

Lemma analyzeFolds_score minority folds total :
  let e := effectiveFolds folds total in
  viabilityScore (analyzeFolds minority folds total) =
  if (e >? minority) && negb ((e >=? total) || (e >=? 5000)) then 0
  else JS.min 100 (minority / e / 30 * 100).
Proof.
  unfold analyzeFolds.
  destruct (classifyFolds _ _ _ _ _ _) as [[k vr] ti]; reflexivity.
Qed.

Lemma hasStatus_key minority folds total k :
  hasStatus (analyzeFolds minority folds total) k ->
  foldStatusKey minority folds total = k.
Proof.
  intro H.
  exact (hasStatus_functional _ _ _
           (analyzeFolds_hasStatus minority folds total) H).
Qed.

(** What each status says about the raw quotient, under the input ranges. *)
Lemma status_quotient minority folds total k :
  0 <= minority -> 1 <= folds -> 1 <= total ->
  hasStatus (analyzeFolds minority folds total) k ->
  let e := effectiveFolds folds total in
  let q := minority / e in
  1 <= e /\
  match k with
  | LOO => e >= total \/ e >= 5000
  | IMPOSSIBLE => ~ (e >= total \/ e >= 5000) /\ minority < e /\ 0 <= q < 1
  | LOPO => ~ (e >= total \/ e >= 5000) /\ e <= minority /\ 1 <= q < 1.5
  | VARIANCE => ~ (e >= total \/ e >= 5000) /\ e <= minority /\ 1.5 <= q < 15
  | STABLE => ~ (e >= total \/ e >= 5000) /\ e <= minority /\ 15 <= q
  end.
Proof.
  intros Hm Hf Ht Hst; cbv zeta.
  pose proof (effectiveFolds_ge_1 folds total Hf Ht) as He.
  pose proof (minPerFold_nonneg minority folds total Hm Hf Ht) as Hq.
  apply hasStatus_key in Hst.
  pose proof (foldStatusKey_spec minority folds total) as Hspec.
  rewrite Hst in Hspec.
  unfold effectiveFolds, JS.min in *.
  remember (Rmin folds total) as e eqn:Ee.
  assert (Hdiv : forall c, minority / e < c <-> minority < c * e).
  { intro c; split; intro H.
    - apply (Rmult_lt_compat_r e) in H; [ | lra].
      unfold Rdiv in H; rewrite Rmult_assoc, Rinv_l, Rmult_1_r in H; lra.
    - apply (Rmult_lt_reg_r e); [lra | ].
      unfold Rdiv; rewrite Rmult_assoc, Rinv_l, Rmult_1_r; lra. }
  split; [exact He | ].
  inversion Hspec;
    repeat match goal with x := _ |- _ => subst x end;
    rewrite <- ?Ee in *.
  - assumption.
  - split; [assumption | split; [lra | split; [exact Hq | ]]].
    apply Hdiv; lra.
  - split; [assumption | split; [lra | split; [ | assumption]]].
    apply Rnot_lt_le; rewrite Hdiv; lra.
  - split; [assumption | split; [lra | split; [lra | assumption]]].
  - split; [assumption | split; [lra | lra]].
Qed.

(** X12.  Status and score agree: for [minority >= 0], [folds >= 1],
    [total >= 1], an IMPOSSIBLE analysis has [viabilityScore] 0, a LOPO one
    a score in [10/3, 5), a VARIANCE one a score in [5, 50) and a STABLE
    one a score in [50, 100]. *)
Theorem status_bounds_score minority folds total :
  0 <= minority -> 1 <= folds -> 1 <= total ->
  let fa := analyzeFolds minority folds total in
  (hasStatus fa IMPOSSIBLE -> viabilityScore fa = 0) /\
  (hasStatus fa LOPO -> 10 / 3 <= viabilityScore fa < 5) /\
  (hasStatus fa VARIANCE -> 5 <= viabilityScore fa < 50) /\
  (hasStatus fa STABLE -> 50 <= viabilityScore fa <= 100).
Proof.
  intros Hm Hf Ht; cbv zeta.
  pose proof (analyzeFolds_score minority folds total) as Hsc;
    cbv zeta in Hsc.
  split; [ | split; [ | split]]; intro Hst;
    destruct (status_quotient minority folds total _ Hm Hf Ht Hst)
      as (He & Hk); cbv zeta in Hk; rewrite Hsc; clear Hsc;
    set (e := effectiveFolds folds total) in *;
    destruct (gtb_reflect e minority);
    destruct (geb_reflect e total); destruct (geb_reflect e 5000);
    simpl; try lra; unfold JS.min;
    apply Rmin_case_strong; intros; lra.
Qed.

Lemma status_bounds_score_witness :
  let fa := analyzeFolds 150 5 2000 in
  (hasStatus fa IMPOSSIBLE -> viabilityScore fa = 0) /\
  (hasStatus fa LOPO -> 10 / 3 <= viabilityScore fa < 5) /\
  (hasStatus fa VARIANCE -> 5 <= viabilityScore fa < 50) /\
  (hasStatus fa STABLE -> 50 <= viabilityScore fa <= 100).
Proof. apply (status_bounds_score 150 5 2000); lra. Defined.

(** X13.  What the card shows per status, for [minority >= 0],
    [folds >= 1], [total >= 1]: under LOPO exactly 1 sample per fold,
    under VARIANCE a whole number from 1 to 14, under STABLE a whole
    number of at least 15, and under IMPOSSIBLE a value in [0, 1]. *)
Theorem status_bounds_minPerFold minority folds total :
  0 <= minority -> 1 <= folds -> 1 <= total ->
  let fa := analyzeFolds minority folds total in
  (hasStatus fa IMPOSSIBLE -> 0 <= minPerFold fa <= 1) /\
  (hasStatus fa LOPO -> minPerFold fa = 1) /\
  (hasStatus fa VARIANCE ->
   exists n : Z, minPerFold fa = IZR n /\ (1 <= n <= 14)%Z) /\
  (hasStatus fa STABLE ->
   exists n : Z, minPerFold fa = IZR n /\ (15 <= n)%Z).
Proof.
  intros Hm Hf Ht; cbv zeta.
  pose proof (analyzeFolds_minPerFold minority folds total) as Hsh;
    cbv zeta in Hsh.
  split; [ | split; [ | split]]; intro Hst;
    destruct (status_quotient minority folds total _ Hm Hf Ht Hst)
      as (He & Hk); cbv zeta in Hk;
    unfold effectiveFolds, JS.min in Hk;
    set (q := minority / Rmin folds total) in *;
    rewrite Hsh; clear Hsh;
    destruct (ltb_reflect q 1) as [Hq1 | Hq1]; try lra.
  - unfold JS.toFixedValue, JS.toFixedNat.
    destruct (ltb_reflect q 0); [lra | ].
    pose proof (Zfloor_bound (q * 10 ^ 2 + / 2)) as Hb.
    assert (H0 : (0 <= Zfloor (q * 10 ^ 2 + / 2))%Z)
      by (apply Zfloor_lub; simpl; lra).
    assert (H1 : (Zfloor (q * 10 ^ 2 + / 2) < 101)%Z)
      by (apply lt_IZR; simpl pow in *; lra).
    assert (H2 : (Zfloor (q * 10 ^ 2 + / 2) <= 100)%Z) by lia.
    apply IZR_le in H0, H2. simpl pow in *. lra.
  - unfold JS.floor; rewrite (Zfloor_eq 1); lra.
  - exists (Zfloor q); split; [reflexivity | ].
    pose proof (Zfloor_bound q) as Hb.
    split; [apply Zfloor_lub; lra | ].
    assert (Zfloor q < 15)%Z by (apply lt_IZR; lra). lia.
  - exists (Zfloor q); split; [reflexivity | apply Zfloor_lub; lra].
Qed.

Lemma status_bounds_minPerFold_witness :
  let fa := analyzeFolds 7 5 2000 in
  (hasStatus fa IMPOSSIBLE -> 0 <= minPerFold fa <= 1) /\
  (hasStatus fa LOPO -> minPerFold fa = 1) /\
  (hasStatus fa VARIANCE ->
   exists n : Z, minPerFold fa = IZR n /\ (1 <= n <= 14)%Z) /\
  (hasStatus fa STABLE ->
   exists n : Z, minPerFold fa = IZR n /\ (15 <= n)%Z).
Proof. apply (status_bounds_minPerFold 7 5 2000); lra. Defined.

(** X14.  For [minority >= 0], [folds >= 1], [total >= 1],
    [minInTraining] is a whole number between 0 and [minority]: it is the
    floor of [minority] minus the per-fold quotient, so training and
    validation shares add up to [minority] within one sample. *)
Theorem minInTraining_bounds minority folds total :
  0 <= minority -> 1 <= folds -> 1 <= total ->
  let q := minority / effectiveFolds folds total in
  exists n : Z,
    minInTraining (analyzeFolds minority folds total) = IZR n /\
    (0 <= n)%Z /\ IZR n <= minority /\
    minority - q - 1 < IZR n <= minority - q.
Proof.
  intros Hm Hf Ht; cbv zeta.
  pose proof (effectiveFolds_ge_1 folds total Hf Ht) as He.
  pose proof (minPerFold_nonneg minority folds total Hm Hf Ht) as Hq.
  rewrite analyzeFolds_minInTraining; cbv zeta; unfold JS.floor.
  set (e := effectiveFolds folds total) in *.
  assert (Heq : minority * ((e - 1) / e) = minority - minority / e)
    by (field; lra).
  rewrite Heq.
  assert (Hle : minority / e <= minority).
  { apply (Rmult_le_reg_r e); [lra | ].
    unfold Rdiv; rewrite Rmult_assoc, Rinv_l, Rmult_1_r by lra.
    assert (minority * 1 <= minority * e)
      by (apply Rmult_le_compat_l; lra).
    lra. }
  exists (Zfloor (minority - minority / e)).
  pose proof (Zfloor_bound (minority - minority / e)) as Hb.
  split; [reflexivity | ].
  split; [apply Zfloor_lub; lra | lra].
Qed.

Lemma minInTraining_bounds_witness :
  exists n : Z,
    minInTraining (analyzeFolds 150 5 2000) = IZR n /\
    (0 <= n)%Z /\ IZR n <= 150 /\
    150 - 150 / effectiveFolds 5 2000 - 1 < IZR n
      <= 150 - 150 / effectiveFolds 5 2000.
Proof. apply (minInTraining_bounds 150 5 2000); lra. Defined.

(** ** The fold-stability colour ramp *)

(** The four bands of [getFoldStabilityRGB] in terms of the quotient. *)
Lemma foldColor_cases minority folds :
  let q := minority / JS.max 1 folds in
  let c := getFoldStabilityRGB minority folds in
  (q < 1 /\ c = {| r := 20; g := 10; b := 10 |}) \/
  (1 <= q < 5 /\ c = {| r := 220; g := 40; b := 40 |}) \/
  (5 <= q < 30 /\
   c = {| r := 239 + (16 - 239) * ((q - 5) / 25);
          g := 68 + (185 - 68) * ((q - 5) / 25);
          b := 68 + (129 - 68) * ((q - 5) / 25) |}) \/
  (30 <= q /\ c = {| r := 16; g := 185; b := 129 |}).
Proof.
  cbv zeta; unfold getFoldStabilityRGB.
  set (q := minority / JS.max 1 folds).
  destruct (ltb_reflect q 1); [left; split; [lra | reflexivity] | ].
  destruct (ltb_reflect q 5);
    [right; left; split; [lra | reflexivity] | ].
  destruct (ltb_reflect q 30);
    [right; right; left; split; [lra | reflexivity] | ].
  right; right; right; split; [lra | reflexivity].
Qed.

(** X15.  Every component of [getFoldStabilityRGB] is a valid colour
    channel for every input: red lies in [16, 239], green in [10, 185]
    and blue in [10, 129]. *)
Theorem foldColor_in_range minority folds :
  let c := getFoldStabilityRGB minority folds in
  16 <= r c <= 239 /\ 10 <= g c <= 185 /\ 10 <= b c <= 129.
Proof.
  cbv zeta.
  destruct (foldColor_cases minority folds)
    as [[Hq ->] | [[Hq ->] | [[Hq ->] | [Hq ->]]]]; simpl; lra.
Qed.

(** X16.  Green and blue never decrease when the minority count per fold,
    [minority / max(1, folds)], grows, across all four bands; red is not
    monotone (it rises from the void band to the ramp before it falls). *)
Theorem foldColor_green_blue_monotone m1 f1 m2 f2 :
  m1 / JS.max 1 f1 <= m2 / JS.max 1 f2 ->
  g (getFoldStabilityRGB m1 f1) <= g (getFoldStabilityRGB m2 f2) /\
  b (getFoldStabilityRGB m1 f1) <= b (getFoldStabilityRGB m2 f2) /\
  r (getFoldStabilityRGB 0 1) < r (getFoldStabilityRGB 5 1) /\
  r (getFoldStabilityRGB 30 1) < r (getFoldStabilityRGB 5 1).
Proof.
  intro Hle.
  split; [ | split].
  - destruct (foldColor_cases m1 f1)
      as [[H1 ->] | [[H1 ->] | [[H1 ->] | [H1 ->]]]];
      destruct (foldColor_cases m2 f2)
        as [[H2 ->] | [[H2 ->] | [[H2 ->] | [H2 ->]]]];
      simpl; lra.
  - destruct (foldColor_cases m1 f1)
      as [[H1 ->] | [[H1 ->] | [[H1 ->] | [H1 ->]]]];
      destruct (foldColor_cases m2 f2)
        as [[H2 ->] | [[H2 ->] | [[H2 ->] | [H2 ->]]]];
      simpl; lra.
  - assert (Hmax : JS.max 1 1 = 1) by (apply max_l; lra).
    destruct (foldColor_cases 0 1)
      as [[H0 ->] | [[H0 ->] | [[H0 ->] | [H0 ->]]]];
      destruct (foldColor_cases 5 1)
        as [[H5 ->] | [[H5 ->] | [[H5 ->] | [H5 ->]]]];
      destruct (foldColor_cases 30 1)
        as [[H30 ->] | [[H30 ->] | [[H30 ->] | [H30 ->]]]];
      rewrite Hmax in *; simpl; lra.
Qed.

Lemma foldColor_green_blue_monotone_witness :
  g (getFoldStabilityRGB 10 5) <= g (getFoldStabilityRGB 150 5).
Proof.
  destruct (foldColor_green_blue_monotone 10 5 150 5) as [H _];
    [ | exact H].
  assert (Hmax : JS.max 1 5 = 5) by (apply max_below; lra).
  rewrite Hmax; lra.
Defined.

(** X17.  The chart and the analyzer agree on the invalid region: outside
    the Leave-One-Out case ([1 <= folds < total], [folds < 5000]) the
    fold colour is the void triple exactly when [analyzeFolds] reports
    the IMPOSSIBLE status, that is when [folds > minority]. *)
Theorem foldColor_void_iff_impossible minority folds total :
  1 <= folds -> folds < total -> folds < 5000 ->
  (getFoldStabilityRGB minority folds = {| r := 20; g := 10; b := 10 |}
   <-> hasStatus (analyzeFolds minority folds total) IMPOSSIBLE) /\
  (hasStatus (analyzeFolds minority folds total) IMPOSSIBLE
   <-> folds > minority).
Proof.
  intros Hf Ht H5.
  assert (He : effectiveFolds folds total = folds)
    by (unfold effectiveFolds; apply Rmin_left; lra).
  assert (Hkey : hasStatus (analyzeFolds minority folds total) IMPOSSIBLE
                 <-> folds > minority).
  { pose proof (analyzeFolds_hasStatus minority folds total) as Hst.
    pose proof (foldStatusKey_cases minority folds total) as Hc;
      cbv zeta in Hc; rewrite He in Hc.
    destruct (geb_reflect folds total); [lra | ].
    destruct (geb_reflect folds 5000); [lra | ]; simpl in Hc.
    split; intro H.
    - apply hasStatus_key in H; rewrite H in Hc.
      destruct (gtb_reflect folds minority); [lra | ].
      destruct (_ <? 1.5); [discriminate | ].
      destruct (_ <? 15); discriminate.
    - destruct (gtb_reflect folds minority); [ | lra].
      rewrite <- Hc; exact Hst. }
  split; [ | exact Hkey].
  rewrite Hkey.
  assert (Hmax : JS.max 1 folds = folds) by (apply max_below; lra).
  assert (Hq : minority / folds < 1 <-> folds > minority).
  { split; intro H.
    - apply (Rmult_lt_compat_r folds) in H; [ | lra].
      unfold Rdiv in H; rewrite Rmult_assoc, Rinv_l, Rmult_1_r in H; lra.
    - apply (Rmult_lt_reg_r folds); [lra | ].
      unfold Rdiv; rewrite Rmult_assoc, Rinv_l, Rmult_1_r; lra. }
  rewrite <- Hq.
  destruct (foldColor_cases minority folds)
    as [[H1 E] | [[H1 E] | [[H1 E] | [H1 E]]]];
    cbv zeta in *; rewrite Hmax in *; rewrite E;
    (split; [intro Habs | intro Habs]); try lra; try reflexivity;
    injection Habs; intros; lra.
Qed.

Lemma foldColor_void_iff_impossible_witness :
  hasStatus (analyzeFolds 10 20 2000) IMPOSSIBLE <-> 20 > 10.
Proof.
  destruct (foldColor_void_iff_impossible 10 20 2000) as [_ H];
    [lra | lra | lra | exact H].
Defined.

(** X18.  The viability bar of the strategy card is coloured by the
    per-fold quotient alone, for [minority >= 0], [folds >= 1],
    [total >= 1]: red below 9 samples per fold, amber from 9 up to 30,
    green from 30 on. *)
Theorem viabilityBarColor_bands minority folds total :
  0 <= minority -> 1 <= folds -> 1 <= total ->
  let q := minority / effectiveFolds folds total in
  let bar :=
    viabilityBarColor (viabilityScore (analyzeFolds minority folds total)) in
  (bar = "#f87171" <-> q < 9) /\
  (bar = "#fbbf24" <-> 9 <= q < 30) /\
  (bar = "#34d399" <-> 30 <= q).
Proof.
  intros Hm Hf Ht; cbv zeta.
  pose proof (effectiveFolds_ge_1 folds total Hf Ht) as He.
  pose proof (minPerFold_nonneg minority folds total Hm Hf Ht) as Hq.
  rewrite analyzeFolds_score; cbv zeta.
  set (e := effectiveFolds folds total) in *.
  set (q := minority / e) in *.
  assert (Himp : e > minority -> q < 1).
  { intro H; apply (Rmult_lt_reg_r e); [lra | ].
    unfold q, Rdiv; rewrite Rmult_assoc, Rinv_l, Rmult_1_r; lra. }
  assert (Hscore :
    forall s, s = 0 /\ q < 1 \/ s = JS.min 100 (q / 30 * 100) ->
      (viabilityBarColor s = "#f87171" <-> q < 9) /\
      (viabilityBarColor s = "#fbbf24" <-> 9 <= q < 30) /\
      (viabilityBarColor s = "#34d399" <-> 30 <= q)).
  { intros s Hs; unfold viabilityBarColor.
    assert (Hs30 : s < 30 <-> q < 9).
    { destruct Hs as [[-> Hq1] | ->]; [split; intro; lra | ].
      unfold JS.min; apply Rmin_case_strong; intros; split; intro; lra. }
    assert (Hs100 : s < 100 <-> q < 30).
    { destruct Hs as [[-> Hq1] | ->]; [split; intro; lra | ].
      unfold JS.min; apply Rmin_case_strong; intros; split; intro; lra. }
    destruct (ltb_reflect s 30); [ | destruct (ltb_reflect s 100)];
      repeat split; intros; try discriminate; try reflexivity;
      try lra; tauto. }
  apply Hscore.
  destruct (gtb_reflect e minority) as [Hi | Hi];
    destruct (geb_reflect e total); destruct (geb_reflect e 5000);
    simpl; auto.
Qed.

Lemma viabilityBarColor_bands_witness :
  viabilityBarColor (viabilityScore (analyzeFolds 150 5 2000)) = "#34d399"
  <-> 30 <= 150 / effectiveFolds 5 2000.
Proof.
  destruct (viabilityBarColor_bands 150 5 2000) as (_ & _ & H);
    [lra | lra | lra | exact H].
Defined.

(** * The application shell *)

(** ** Parameter updates (src/App.tsx) *)

Lemma truthy_spec o :
  truthy o = true <-> exists v, o = Some v /\ v <> 0.
Proof.
  destruct o as [v | ]; simpl.
  - destruct (eqb_reflect v 0); simpl; split.
    + discriminate.
    + intros (v' & Hv & Hn); injection Hv as <-; contradiction.
    + intros _; exists v; auto.
    + reflexivity.
  - split; [discriminate | intros (v & Hv & _); discriminate].
Qed.

(** X19.  [handleUpdate] keeps the constraint total >= minority: if the
    previous state satisfies it and the update does not set [total] or
    [minority] to zero, the next state satisfies it; the other four
    fields are those of the update where present and of the previous
    state otherwise. *)
Theorem handleUpdate_keeps_constraint prev newParams :
  minority prev <= total prev ->
  pTotal newParams <> Some 0 -> pMinority newParams <> Some 0 ->
  let next := handleUpdate prev newParams in
  minority next <= total next /\
  features next = orElse (pFeatures newParams) (features prev) /\
  folds next = orElse (pFolds newParams) (folds prev) /\
  sparsity next = orElse (pSparsity newParams) (sparsity prev) /\
  sparsityHomogeneity next =
    orElse (pSparsityHomogeneity newParams) (sparsityHomogeneity prev).
Proof.
  intros Hinv Ht Hm; cbv zeta; unfold handleUpdate; cbv zeta.
  destruct (ltb_reflect (total (spread prev newParams))
              (minority (spread prev newParams))) as [Hlt | Hge].
  - destruct newParams as [pf pm pt pk ps ph]; simpl in *.
    destruct pt as [t | ], pm as [m | ]; simpl in *.
    + destruct (eqb_reflect t 0) as [-> | _]; [now contradiction Ht | ].
      simpl; destruct (m === 0); simpl; repeat split; lra.
    + destruct (eqb_reflect t 0) as [-> | _]; [now contradiction Ht | ].
      simpl; repeat split; lra.
    + destruct (eqb_reflect m 0) as [-> | _]; [now contradiction Hm | ].
      simpl; repeat split; lra.
    + lra.
  - repeat split; try reflexivity; lra.
Qed.

Lemma handleUpdate_keeps_constraint_witness :
  minority (handleUpdate
              {| features := 50; minority := 150; total := 2000; folds := 5;
                 sparsity := 0; sparsityHomogeneity := 0.5 |}
              (setParam KTotal 100 noParams))
  <= total (handleUpdate
              {| features := 50; minority := 150; total := 2000; folds := 5;
                 sparsity := 0; sparsityHomogeneity := 0.5 |}
              (setParam KTotal 100 noParams)).
Proof.
  apply (handleUpdate_keeps_constraint
           {| features := 50; minority := 150; total := 2000; folds := 5;
              sparsity := 0; sparsityHomogeneity := 0.5 |}
           (setParam KTotal 100 noParams)); simpl.
  - lra.
  - intro H; injection H; lra.
  - discriminate.
Defined.

(** X20.  How [handleUpdate] repairs a violation.  When the update
    carries a non-zero [total], the total is raised to the minority count
    and the minority is kept (also when both are in the update); when it
    carries only a non-zero [minority], the minority is lowered to the
    total.  A [total] of zero without a [minority] in the update is not
    repaired. *)
Theorem handleUpdate_repair prev newParams :
  let next := handleUpdate prev newParams in
  (forall t, pTotal newParams = Some t -> t <> 0 ->
     minority next = orElse (pMinority newParams) (minority prev) /\
     total next = Rmax t (minority next)) /\
  (forall m, pTotal newParams = None -> pMinority newParams = Some m ->
     m <> 0 ->
     total next = total prev /\ minority next = Rmin m (total prev)) /\
  (pTotal newParams = Some 0 -> pMinority newParams = None ->
   0 < minority prev ->
   total next = 0 /\ minority next = minority prev /\
   total next < minority next).
Proof.
  cbv zeta; unfold handleUpdate; cbv zeta.
  destruct newParams as [pf pm pt pk ps ph]; simpl.
  split; [ | split].
  - intros t -> Ht; simpl.
    destruct (eqb_reflect t 0) as [E | _]; [contradiction | ]; simpl.
    destruct pm as [m | ]; simpl.
    + destruct (ltb_reflect t m) as [Hlt | Hge]; simpl.
      * destruct (m === 0); simpl;
          (split; [reflexivity | rewrite Rmax_right; lra]).
      * split; [reflexivity | rewrite Rmax_left; lra].
    + destruct (ltb_reflect t (minority prev)) as [Hlt | Hge]; simpl.
      * split; [reflexivity | rewrite Rmax_right; lra].
      * split; [reflexivity | rewrite Rmax_left; lra].
  - intros m -> -> Hm; simpl.
    destruct (eqb_reflect m 0) as [E | _]; [contradiction | ]; simpl.
    destruct (ltb_reflect (total prev) m) as [Hlt | Hge]; simpl.
    + split; [reflexivity | rewrite Rmin_right; lra].
    + split; [reflexivity | rewrite Rmin_left; lra].
  - intros -> -> Hpos; simpl.
    destruct (ltb_reflect 0 (minority prev)) as [_ | Hn]; [ | lra].
    destruct (eqb_reflect 0 0) as [_ | Hn]; [ | now contradiction Hn].
    simpl; repeat split; lra.
Qed.

(** ** Scales (src/components/PhaseChart.tsx) *)

Lemma pow10_log10 v : 0 < v -> JS.pow 10 (JS.log10 v) = v.
Proof.
  intro Hv; unfold JS.pow, JS.log10, Rpower.
  replace (ln v / ln 10 * ln 10) with (ln v)
    by (field; apply Rgt_not_eq, ln10_pos).
  now apply exp_ln.
Qed.

Lemma log10_pow10 x : JS.log10 (JS.pow 10 x) = x.
Proof.
  unfold JS.pow, JS.log10, Rpower; rewrite ln_exp.
  field; apply Rgt_not_eq, ln10_pos.
Qed.

Lemma pow10_le x y : x <= y -> JS.pow 10 x <= JS.pow 10 y.
Proof.
  intros [Hlt | ->]; [left | apply Rle_refl].
  unfold JS.pow, Rpower; apply exp_increasing.
  apply Rmult_lt_compat_r; [apply ln10_pos | exact Hlt].
Qed.

Lemma pow10_ge_1 x : 0 <= x -> 1 <= JS.pow 10 x.
Proof.
  intro Hx; replace 1 with (JS.pow 10 0).
  - now apply pow10_le.
  - unfold JS.pow, Rpower; rewrite Rmult_0_l; apply exp_0.
Qed.

Lemma toLog_ge_1 v : 1 <= v -> toLog v = JS.log10 v.
Proof. intro H; unfold toLog; now rewrite max_ge_1. Qed.

Lemma toLog_nonneg v : 0 <= toLog v.
Proof.
  unfold toLog; rewrite <- log10_1.
  apply log10_le; [lra | apply max_1_pos].
Qed.

Lemma logRange_pos config :
  validAxis config -> isLog config = true -> 0 < logRange config.
Proof.
  intros [Hlt Hmin] Hl; specialize (Hmin Hl).
  unfold logRange, logMax, logMin; rewrite Hl.
  rewrite !toLog_ge_1 by lra.
  assert (JS.log10 (Axis.min config) < JS.log10 (Axis.max config))
    by (apply log10_increasing; lra).
  lra.
Qed.

Lemma round_IZR (z : Z) : JS.round (IZR z) = IZR z.
Proof. unfold JS.round; rewrite (Zfloor_eq z); [reflexivity | lra]. Qed.

Lemma round_le x y : x <= y -> JS.round x <= JS.round y.
Proof.
  intro H; unfold JS.round; apply IZR_le, Zfloor_le; lra.
Qed.

Lemma getValue_getPct config v :
  validAxis config -> (isLog config = true -> 1 <= v) ->
  getValue config (getPct config v) = v.
Proof.
  intros Hv Hge; pose proof Hv as [Hlt Hmin].
  unfold getPct, getValue.
  destruct (isLog config) eqn:Hl.
  - specialize (Hmin eq_refl); specialize (Hge eq_refl).
    pose proof (logRange_pos config Hv Hl) as Hr.
    replace (logMin config
             + (toLog v - logMin config) / logRange config * logRange config)
      with (toLog v) by (field; lra).
    rewrite toLog_ge_1 by lra; apply pow10_log10; lra.
  - unfold linearRange; field; lra.
Qed.

Lemma getPct_ends config :
  validAxis config ->
  getPct config (Axis.min config) = 0 /\
  getPct config (Axis.max config) = 1.
Proof.
  intros Hv; pose proof Hv as [Hlt Hmin]; unfold getPct.
  destruct (isLog config) eqn:Hl.
  - pose proof (logRange_pos config Hv Hl) as Hr.
    assert (E0 : toLog (Axis.min config) = logMin config)
      by (unfold logMin; now rewrite Hl).
    assert (E1 : toLog (Axis.max config) = logMax config)
      by (unfold logMax; now rewrite Hl).
    rewrite E0, E1; fold (logRange config); split; field; lra.
  - unfold linearRange; split; field; lra.
Qed.

Lemma toLog_le v1 v2 : v1 <= v2 -> toLog v1 <= toLog v2.
Proof.
  intro H; unfold toLog.
  pose proof (max_1_pos v1).
  apply log10_le; [lra | now apply max_1_le].
Qed.

Lemma getPct_le config v1 v2 :
  validAxis config -> v1 <= v2 -> getPct config v1 <= getPct config v2.
Proof.
  intros Hv Hle; pose proof Hv as [Hlt _]; unfold getPct.
  destruct (isLog config) eqn:Hl.
  - pose proof (logRange_pos config Hv Hl) as Hr.
    pose proof (toLog_le v1 v2 Hle).
    assert (Hi : 0 < / logRange config) by now apply Rinv_0_lt_compat.
    unfold Rdiv; apply Rmult_le_compat_r; lra.
  - unfold linearRange.
    assert (Hi : 0 < / (Axis.max config - Axis.min config))
      by (apply Rinv_0_lt_compat; lra).
    unfold Rdiv; apply Rmult_le_compat_r; lra.
Qed.

(** X21.  On a valid axis [getPct] places the axis ends at 0 and 1,
    never decreases, and so keeps every value of the axis range inside
    [0, 1]; and a whole value of the range is read back from its own
    position: rounding [getValue (getPct v)], as the pointer handler does,
    gives [v]. *)
Theorem scale_round_trip config :
  validAxis config ->
  getPct config (Axis.min config) = 0 /\
  getPct config (Axis.max config) = 1 /\
  (forall v1 v2, v1 <= v2 -> getPct config v1 <= getPct config v2) /\
  (forall v, Axis.min config <= v <= Axis.max config ->
     0 <= getPct config v <= 1) /\
  (forall z : Z, Axis.min config <= IZR z <= Axis.max config ->
     JS.round (getValue config (getPct config (IZR z))) = IZR z).
Proof.
  intros Hv; pose proof Hv as [Hlt Hmin].
  destruct (getPct_ends config Hv) as [E0 E1].
  split; [exact E0 | split; [exact E1 | split; [ | split]]].
  - intros v1 v2 Hle; now apply getPct_le.
  - intros v [Hlo Hhi]; rewrite <- E0 at 1; rewrite <- E1.
    split; now apply getPct_le.
  - intros z [Hlo Hhi].
    rewrite getValue_getPct; [apply round_IZR | exact Hv | ].
    intro Hl; specialize (Hmin Hl); lra.
Qed.

Lemma CFG_TOTAL_valid : validAxis CFG_TOTAL.
Proof. split; simpl; [lra | intros _; lra]. Qed.

Lemma scale_round_trip_witness :
  JS.round (getValue CFG_TOTAL (getPct CFG_TOTAL 2000)) = 2000.
Proof.
  destruct (scale_round_trip CFG_TOTAL CFG_TOTAL_valid)
    as (_ & _ & _ & _ & H).
  apply (H 2000%Z); simpl; lra.
Defined.

Lemma logMin_logMax config :
  validAxis config -> isLog config = true ->
  logMin config = JS.log10 (Axis.min config) /\
  logMin config + logRange config = JS.log10 (Axis.max config).
Proof.
  intros [Hlt Hmin] Hl; specialize (Hmin Hl).
  unfold logRange, logMax, logMin; rewrite Hl.
  rewrite !toLog_ge_1 by lra; split; [reflexivity | ring].
Qed.

Lemma getValue_le config p1 p2 :
  validAxis config -> p1 <= p2 ->
  getValue config p1 <= getValue config p2.
Proof.
  intros Hv Hle; pose proof Hv as [Hlt _]; unfold getValue.
  destruct (isLog config) eqn:Hl.
  - pose proof (logRange_pos config Hv Hl) as Hr.
    apply pow10_le.
    assert (p1 * logRange config <= p2 * logRange config)
      by (apply Rmult_le_compat_r; lra).
    lra.
  - unfold linearRange.
    assert (p1 * (Axis.max config - Axis.min config)
            <= p2 * (Axis.max config - Axis.min config))
      by (apply Rmult_le_compat_r; lra).
    lra.
Qed.

Lemma getValue_ends config :
  validAxis config ->
  getValue config 0 = Axis.min config /\
  getValue config 1 = Axis.max config.
Proof.
  intros Hv; pose proof Hv as [Hlt Hmin]; unfold getValue.
  destruct (isLog config) eqn:Hl.
  - specialize (Hmin eq_refl).
    destruct (logMin_logMax config Hv Hl) as [Hlm Hsum].
    rewrite Rmult_0_l, Rplus_0_r, Rmult_1_l, Hsum, Hlm.
    split; apply pow10_log10; lra.
  - unfold linearRange; split; ring.
Qed.

(** X22.  The chart reads in the direction it is drawn.  On a valid axis
    [getValue] never decreases with the position, so on a chart of
    positive size the value [updateFromEvent] computes never falls when
    the pointer moves right and never rises when it moves down. *)
Theorem getValue_monotone config size pct1 pct2 offset1 offset2 :
  validAxis config -> 0 < size -> pct1 <= pct2 -> offset1 <= offset2 ->
  getValue config pct1 <= getValue config pct2 /\
  pointerValueX config size offset1 <= pointerValueX config size offset2 /\
  pointerValueY config size offset2 <= pointerValueY config size offset1.
Proof.
  intros Hv Hs Hp Ho.
  assert (Hclamp : JS.max 0 (JS.min size offset1) / size
                   <= JS.max 0 (JS.min size offset2) / size).
  { assert (Hi : 0 < / size) by now apply Rinv_0_lt_compat.
    unfold Rdiv; apply Rmult_le_compat_r; [lra | ].
    unfold JS.max, JS.min.
    apply Rle_max_compat_l, Rle_min_compat_l; exact Ho. }
  split; [now apply getValue_le | split].
  - unfold pointerValueX; cbv zeta.
    apply round_le, getValue_le; assumption.
  - unfold pointerValueY; cbv zeta.
    apply round_le, getValue_le; [assumption | lra].
Qed.

Lemma getValue_monotone_witness :
  getValue CFG_TOTAL 0.25 <= getValue CFG_TOTAL 0.75 /\
  pointerValueX CFG_TOTAL 640 100 <= pointerValueX CFG_TOTAL 640 500.
Proof.
  destruct (getValue_monotone CFG_TOTAL 640 0.25 0.75 100 500
              CFG_TOTAL_valid) as (H1 & H2 & _); [lra | lra | lra | ].
  split; [exact H1 | exact H2].
Defined.

Lemma round_between (lo hi : Z) x :
  IZR lo <= x <= IZR hi ->
  exists z : Z, JS.round x = IZR z /\ (lo <= z <= hi)%Z.
Proof.
  intros [Hlo Hhi]; unfold JS.round.
  exists (Zfloor (x + / 2)); split; [reflexivity | ].
  pose proof (Zfloor_bound (x + / 2)) as Hb.
  split; [apply Zfloor_lub; lra | ].
  assert (Zfloor (x + / 2) < hi + 1)%Z
    by (apply lt_IZR; rewrite plus_IZR; lra).
  lia.
Qed.

Lemma clamp_unit size offset :
  0 < size -> 0 <= JS.max 0 (JS.min size offset) / size <= 1.
Proof.
  intro Hs; unfold JS.max, JS.min.
  assert (H0 : 0 <= Rmax 0 (Rmin size offset)) by apply Rmax_l.
  assert (H1 : Rmax 0 (Rmin size offset) <= size).
  { apply Rmax_lub; [lra | apply Rmin_l]. }
  assert (Hi : 0 < / size) by now apply Rinv_0_lt_compat.
  split.
  - apply Rmult_le_pos; lra.
  - apply (Rmult_le_reg_r size); [lra | ].
    unfold Rdiv; rewrite Rmult_assoc, Rinv_l by lra; lra.
Qed.

Lemma pointerValue_bounds config size offset :
  validAxis config -> wholeAxis config -> 0 < size ->
  (exists z : Z, pointerValueX config size offset = IZR z /\
     Axis.min config <= IZR z <= Axis.max config) /\
  (exists z : Z, pointerValueY config size offset = IZR z /\
     Axis.min config <= IZR z <= Axis.max config).
Proof.
  intros Hv (lo & hi & Elo & Ehi) Hs.
  pose proof (clamp_unit size offset Hs) as Hu.
  destruct (getValue_ends config Hv) as [E0 E1].
  assert (Hrange : forall pct, 0 <= pct <= 1 ->
            IZR lo <= getValue config pct <= IZR hi).
  { intros pct Hp; rewrite <- Elo, <- Ehi, <- E0, <- E1.
    split; apply getValue_le; (assumption || lra). }
  split.
  - unfold pointerValueX; cbv zeta.
    destruct (round_between lo hi _ (Hrange _ Hu)) as (z & Ez & Hz).
    exists z; split; [exact Ez | ].
    rewrite Elo, Ehi; split; apply IZR_le; lia.
  - unfold pointerValueY; cbv zeta.
    assert (Hu' : 0 <= 1 - JS.max 0 (JS.min size offset) / size <= 1)
      by lra.
    destruct (round_between lo hi _ (Hrange _ Hu')) as (z & Ez & Hz).
    exists z; split; [exact Ez | ].
    rewrite Elo, Ehi; split; apply IZR_le; lia.
Qed.

(** X23.  A pointer event never yields an out-of-range parameter: on a
    valid axis with whole ends and a chart of positive size, the value
    [updateFromEvent] computes for either axis is a whole number between
    the axis [min] and [max], wherever the pointer is. *)
Theorem pointerValue_in_range config size offset :
  validAxis config -> wholeAxis config -> 0 < size ->
  (exists z : Z, pointerValueX config size offset = IZR z) /\
  Axis.min config <= pointerValueX config size offset <= Axis.max config /\
  (exists z : Z, pointerValueY config size offset = IZR z) /\
  Axis.min config <= pointerValueY config size offset <= Axis.max config.
Proof.
  intros Hv Hw Hs.
  destruct (pointerValue_bounds config size offset Hv Hw Hs)
    as [(zx & Ex & Hx) (zy & Ey & Hy)].
  split; [exists zx; exact Ex | ].
  split; [rewrite Ex; exact Hx | ].
  split; [exists zy; exact Ey | rewrite Ey; exact Hy].
Qed.

Lemma CFG_TOTAL_whole : wholeAxis CFG_TOTAL.
Proof. exists 100%Z, 10000000%Z; split; reflexivity. Qed.

Lemma pointerValue_in_range_witness :
  Axis.min CFG_TOTAL <= pointerValueX CFG_TOTAL 640 (-15)
    <= Axis.max CFG_TOTAL.
Proof.
  destruct (pointerValue_in_range CFG_TOTAL 640 (-15)
              CFG_TOTAL_valid CFG_TOTAL_whole) as (_ & H & _);
    [lra | exact H].
Defined.

Lemma handleUpdate_constraint prev newParams :
  minority prev <= total prev ->
  pTotal newParams <> Some 0 -> pMinority newParams <> Some 0 ->
  minority (handleUpdate prev newParams)
  <= total (handleUpdate prev newParams).
Proof.
  intros Hinv Ht Hm; unfold handleUpdate; cbv zeta.
  destruct (ltb_reflect (total (spread prev newParams))
              (minority (spread prev newParams))) as [Hlt | Hge];
    [ | lra].
  destruct newParams as [pf pm pt pk ps ph]; simpl in *.
  destruct pt as [t | ], pm as [m | ]; simpl in *.
  - destruct (eqb_reflect t 0) as [-> | _]; [now contradiction Ht | ].
    simpl; destruct (m === 0); simpl; lra.
  - destruct (eqb_reflect t 0) as [-> | _]; [now contradiction Ht | ].
    simpl; lra.
  - destruct (eqb_reflect m 0) as [-> | _]; [now contradiction Hm | ].
    simpl; lra.
  - lra.
Qed.

Lemma setParam_nonzero key val p :
  val <> 0 ->
  (pTotal p <> Some 0 -> pTotal (setParam key val p) <> Some 0) /\
  (pMinority p <> Some 0 -> pMinority (setParam key val p) <> Some 0).
Proof.
  intro Hv; destruct key; simpl; split; intros H; try exact H;
    intro E; injection E; exact Hv.
Qed.

(** X24.  Dragging in a chart cannot break total >= minority: for valid
    axes with whole, positive ends and a chart of positive size, the
    update that [updateFromEvent] sends through [handleUpdate] leaves a
    state that satisfies the constraint whenever the previous one did. *)
Theorem drag_keeps_constraint xConfig yConfig width height offsetX offsetY
    prev :
  validAxis xConfig -> validAxis yConfig ->
  wholeAxis xConfig -> wholeAxis yConfig ->
  0 < Axis.min xConfig -> 0 < Axis.min yConfig ->
  0 < width -> 0 < height ->
  minority prev <= total prev ->
  let next :=
    handleUpdate prev
      (pointerUpdate xConfig yConfig width height offsetX offsetY) in
  minority next <= total next.
Proof.
  intros Hvx Hvy Hwx Hwy Hpx Hpy Hw Hh Hinv; cbv zeta.
  destruct (pointerValue_bounds xConfig width offsetX Hvx Hwx Hw)
    as [(zx & Ex & Hx) _].
  destruct (pointerValue_bounds yConfig height offsetY Hvy Hwy Hh)
    as [_ (zy & Ey & Hy)].
  assert (Hnx : pointerValueX xConfig width offsetX <> 0)
    by (rewrite Ex; lra).
  assert (Hny : pointerValueY yConfig height offsetY <> 0)
    by (rewrite Ey; lra).
  unfold pointerUpdate.
  destruct (setParam_nonzero (Axis.key xConfig) _ noParams Hnx)
    as [Ht1 Hm1].
  destruct (setParam_nonzero (Axis.key yConfig) _
              (setParam (Axis.key xConfig)
                 (pointerValueX xConfig width offsetX) noParams) Hny)
    as [Ht2 Hm2].
  apply handleUpdate_constraint; [exact Hinv | | ].
  - apply Ht2, Ht1; discriminate.
  - apply Hm2, Hm1; discriminate.
Qed.

Lemma CFG_MINORITY_valid : validAxis CFG_MINORITY.
Proof. split; simpl; [lra | intros _; lra]. Qed.

Lemma CFG_MINORITY_whole : wholeAxis CFG_MINORITY.
Proof. exists 10%Z, 10000%Z; split; reflexivity. Qed.

Lemma drag_keeps_constraint_witness :
  let prev :=
    {| features := 50; minority := 150; total := 2000; folds := 5;
       sparsity := 0; sparsityHomogeneity := 0.5 |} in
  let next :=
    handleUpdate prev (pointerUpdate CFG_MINORITY CFG_TOTAL 640 240 600 230)
  in
  minority next <= total next.
Proof.
  apply (drag_keeps_constraint CFG_MINORITY CFG_TOTAL 640 240 600 230);
    try apply CFG_MINORITY_valid; try apply CFG_TOTAL_valid;
    try apply CFG_MINORITY_whole; try apply CFG_TOTAL_whole; simpl; lra.
Defined.

(** ** Sliders (src/components/Controls.tsx) *)

Lemma handleUpdate_total_present prev newParams t m :
  pTotal newParams = Some t -> pMinority newParams = Some m -> t <> 0 ->
  minority (handleUpdate prev newParams) = m /\
  total (handleUpdate prev newParams) = Rmax t m.
Proof.
  intros Ht Hm Ht0; unfold handleUpdate; cbv zeta.
  destruct newParams as [pf pm pt pk ps ph]; simpl in *; subst pt pm.
  simpl.
  destruct (eqb_reflect t 0) as [E | _]; [contradiction | ]; simpl.
  destruct (ltb_reflect t m) as [Hlt | Hge]; simpl.
  - destruct (m === 0); simpl;
      (split; [reflexivity | rewrite Rmax_right; lra]).
  - split; [reflexivity | rewrite Rmax_left; lra].
Qed.

(** X25.  A slider change overrides the whole state, and the repair always
    favours the minority count: for positive counts with
    [minority <= total] on screen and a positive new value, moving the
    minority slider to [val] sets the minority to [val] and raises the
    total to at least [val]; moving the total slider below the minority
    leaves the total at the minority; the other sliders leave both
    untouched. *)
Theorem slider_update prev params key val :
  0 < minority params -> minority params <= total params -> 0 < val ->
  let next := handleUpdate prev (controlsUpdate params key val) in
  minority next <= total next /\
  (key = KMinority ->
   minority next = val /\ total next = Rmax (total params) val) /\
  (key = KTotal ->
   minority next = minority params /\
   total next = Rmax val (minority params)) /\
  (key <> KMinority -> key <> KTotal ->
   minority next = minority params /\ total next = total params).
Proof.
  intros Hm Hinv Hv; cbv zeta.
  set (t := match key with KTotal => val | _ => total params end).
  set (m := match key with KMinority => val | _ => minority params end).
  assert (Ht : pTotal (controlsUpdate params key val) = Some t)
    by (destruct key; reflexivity).
  assert (Hpm : pMinority (controlsUpdate params key val) = Some m)
    by (destruct key; reflexivity).
  assert (Ht0 : t <> 0) by (unfold t; destruct key; lra).
  destruct (handleUpdate_total_present prev _ t m Ht Hpm Ht0) as [Em Et].
  rewrite Em, Et.
  split; [apply Rmax_r | ].
  unfold t, m; destruct key;
    (split; [intro E; try discriminate E; split; reflexivity | ]);
    (split; [intro E; try discriminate E; split; reflexivity | ]);
    intros N1 N2; try (now contradiction N1); try (now contradiction N2);
    (split; [reflexivity | apply Rmax_left; lra]).
Qed.

Lemma slider_update_witness :
  let params :=
    {| features := 50; minority := 150; total := 2000; folds := 5;
       sparsity := 0; sparsityHomogeneity := 0.5 |} in
  let next := handleUpdate params (controlsUpdate params KMinority 5000) in
  minority next = 5000 /\ total next = Rmax 2000 5000.
Proof.
  cbv zeta.
  destruct (slider_update
              {| features := 50; minority := 150; total := 2000; folds := 5;
                 sparsity := 0; sparsityHomogeneity := 0.5 |}
              {| features := 50; minority := 150; total := 2000; folds := 5;
                 sparsity := 0; sparsityHomogeneity := 0.5 |}
              KMinority 5000) as (_ & H & _); simpl; try lra.
  apply H; reflexivity.
Defined.

Lemma sliderScale_pos min max :
  0 < min < max -> 0 < sliderScale min max.
Proof.
  intros [H0 Hlt]; unfold sliderScale.
  assert (JS.log10 min < JS.log10 max) by (apply log10_increasing; lra).
  lra.
Qed.

Lemma fromSlider_toSlider min max v :
  0 < min < max ->
  fromSlider min max (toSlider min max v) = JS.round (JS.max v min).
Proof.
  intro H; pose proof (sliderScale_pos min max H) as Hs.
  unfold fromSlider, toSlider; f_equal.
  replace (JS.log10 min
           + (JS.log10 (JS.max v min) - JS.log10 min) / sliderScale min max
             * sliderScale min max)
    with (JS.log10 (JS.max v min)) by (field; lra).
  apply pow10_log10.
  assert (min <= JS.max v min) by apply Rmax_r. lra.
Qed.

Lemma sliderPosition_le min max v1 v2 :
  0 < min < max -> v1 <= v2 ->
  sliderPosition min max v1 <= sliderPosition min max v2.
Proof.
  intros H Hle; pose proof (sliderScale_pos min max H) as Hs.
  unfold sliderPosition, toSlider.
  assert (Hx : JS.max (JS.min v1 max) min <= JS.max (JS.min v2 max) min).
  { unfold JS.max, JS.min.
    apply Rle_max_compat_r, Rle_min_compat_r; exact Hle. }
  assert (Hpos : min <= JS.max (JS.min v1 max) min) by apply Rmax_r.
  assert (Hl : JS.log10 (JS.max (JS.min v1 max) min)
               <= JS.log10 (JS.max (JS.min v2 max) min))
    by (apply log10_le; lra).
  assert (Hi : 0 < / sliderScale min max) by now apply Rinv_0_lt_compat.
  unfold Rdiv; apply Rmult_le_compat_r; lra.
Qed.

Lemma sliderPosition_low min max value :
  0 < min < max -> value <= min -> sliderPosition min max value = 0.
Proof.
  intros H Hle; pose proof (sliderScale_pos min max H) as Hs.
  unfold sliderPosition, toSlider.
  replace (JS.max (JS.min value max) min) with min.
  - unfold Rdiv; rewrite Rminus_diag; apply Rmult_0_l.
  - unfold JS.max, JS.min; symmetry; apply Rmax_right.
    apply Rle_trans with value; [apply Rmin_l | exact Hle].
Qed.

Lemma fromSlider_le min max s1 s2 :
  0 < min < max -> s1 <= s2 ->
  fromSlider min max s1 <= fromSlider min max s2.
Proof.
  intros H Hle; pose proof (sliderScale_pos min max H) as Hs.
  unfold fromSlider; apply round_le, pow10_le.
  assert (s1 * sliderScale min max <= s2 * sliderScale min max)
    by (apply Rmult_le_compat_r; lra).
  lra.
Qed.

Lemma fromSlider_ends min max :
  0 < min < max ->
  fromSlider min max 0 = JS.round min /\
  fromSlider min max 1000 = JS.round max.
Proof.
  intro H; unfold fromSlider; split.
  - rewrite Rmult_0_l, Rplus_0_r; f_equal; apply pow10_log10; lra.
  - unfold sliderScale; f_equal.
    replace (JS.log10 min + 1000 * ((JS.log10 max - JS.log10 min) / 1000))
      with (JS.log10 max) by field.
    apply pow10_log10; lra.
Qed.

(** X26.  The logarithmic slider is a faithful control for whole values.
    For [0 < min < max]: a whole value between [min] and [max] is read
    back from the position the slider shows for it; the position is 0 for
    every value up to [min], never negative, never decreasing, and the
    same for every value from [max] on; and when [min] and [max] are
    whole, every position between 0 and 1000 reads as a whole value
    between them, a higher position never as a lower value. *)
Theorem logSlider_round_trip min max :
  0 < min < max ->
  (forall z : Z, min <= IZR z <= max ->
     fromSlider min max (sliderPosition min max (IZR z)) = IZR z) /\
  (forall value, value <= min -> sliderPosition min max value = 0) /\
  (forall value, 0 <= sliderPosition min max value) /\
  (forall v1 v2, v1 <= v2 ->
     sliderPosition min max v1 <= sliderPosition min max v2) /\
  (forall value, max <= value ->
     sliderPosition min max value = sliderPosition min max max) /\
  (forall s1 s2, s1 <= s2 ->
     fromSlider min max s1 <= fromSlider min max s2) /\
  (forall lo hi : Z, min = IZR lo -> max = IZR hi ->
     forall s, 0 <= s <= 1000 ->
     exists z : Z, fromSlider min max s = IZR z /\ (lo <= z <= hi)%Z).
Proof.
  intro H.
  split; [ | split; [ | split; [ | split; [ | split; [ | split]]]]].
  - intros z [Hlo Hhi]; unfold sliderPosition, JS.min.
    rewrite (Rmin_left (IZR z) max Hhi), fromSlider_toSlider by exact H.
    rewrite (max_l (IZR z) min Hlo); apply round_IZR.
  - intros value Hle; now apply sliderPosition_low.
  - intro value.
    rewrite <- (sliderPosition_low min max min H (Rle_refl min)).
    destruct (Rle_lt_dec value min) as [Hle | Hgt].
    + rewrite !sliderPosition_low by (assumption || lra); apply Rle_refl.
    + apply sliderPosition_le; [exact H | lra].
  - intros v1 v2 Hle; now apply sliderPosition_le.
  - intros value Hge; unfold sliderPosition.
    now rewrite (min_r value max Hge), (min_r max max (Rle_refl max)).
  - intros s1 s2 Hle; now apply fromSlider_le.
  - intros lo hi Elo Ehi s [Hs0 Hs1].
    destruct (fromSlider_ends min max H) as [E0 E1].
    pose proof (fromSlider_le min max 0 s H Hs0) as L0.
    pose proof (fromSlider_le min max s 1000 H Hs1) as L1.
    assert (R0 : JS.round min = IZR lo) by (rewrite Elo; apply round_IZR).
    assert (R1 : JS.round max = IZR hi) by (rewrite Ehi; apply round_IZR).
    rewrite E0, R0 in L0; rewrite E1, R1 in L1.
    exists (Zfloor (JS.pow 10 (JS.log10 min + s * sliderScale min max)
                    + / 2)).
    split; [reflexivity | ].
    unfold fromSlider, JS.round in L0, L1.
    split; apply le_IZR; assumption.
Qed.

Lemma logSlider_round_trip_witness :
  fromSlider 10 1000000 (sliderPosition 10 1000000 150) = 150.
Proof.
  destruct (logSlider_round_trip 10 1000000) as [H _]; [lra | ].
  apply (H 150%Z); lra.
Defined.

(** X27.  For a factor in [0, 1] the distribution colour is a well-formed
    [rgb(...)] text whose three channels are whole numbers: red in
    [45, 113], green in [113, 212] and blue in [122, 191]. *)
Theorem getDistributionColor_channels inactiveFactor :
  0 <= inactiveFactor <= 1 ->
  exists zr zg zb : Z,
    getDistributionColor inactiveFactor =
    [JS.Lit "rgb("; JS.Num (IZR zr); JS.Lit ", "; JS.Num (IZR zg);
     JS.Lit ", "; JS.Num (IZR zb); JS.Lit ")"] /\
    (45 <= zr <= 113)%Z /\ (113 <= zg <= 212)%Z /\ (122 <= zb <= 191)%Z.
Proof.
  intro Hf; unfold getDistributionColor; cbv zeta.
  destruct (round_between 45 113 (45 + (113 - 45) * inactiveFactor))
    as (zr & Er & Hr); [lra | ].
  destruct (round_between 113 212 (212 + (113 - 212) * inactiveFactor))
    as (zg & Eg & Hg); [lra | ].
  destruct (round_between 122 191 (191 + (122 - 191) * inactiveFactor))
    as (zb & Eb & Hb); [lra | ].
  exists zr, zg, zb; rewrite Er, Eg, Eb; repeat split; lia.
Qed.

Lemma getDistributionColor_channels_witness :
  exists zr zg zb : Z,
    getDistributionColor 0.5 =
    [JS.Lit "rgb("; JS.Num (IZR zr); JS.Lit ", "; JS.Num (IZR zg);
     JS.Lit ", "; JS.Num (IZR zb); JS.Lit ")"] /\
    (45 <= zr <= 113)%Z /\ (113 <= zg <= 212)%Z /\ (122 <= zb <= 191)%Z.
Proof. apply (getDistributionColor_channels 0.5); lra. Defined.

(** ** Ticks (src/components/PhaseChart.tsx) *)

Lemma sorted_filter (f : R -> bool) l :
  StronglySorted Rle l -> StronglySorted Rle (filter f l).
Proof.
  induction 1 as [ | a l Hs IH Hall]; simpl; [constructor | ].
  destruct (f a); [ | exact IH].
  constructor; [exact IH | ].
  rewrite Forall_forall in *; intros x Hx.
  apply filter_In in Hx; apply Hall, Hx.
Qed.

(** X28.  For [min <= max] the linear ticks are whole numbers in
    ascending order, at most five of them; up to [max = 20] they are the
    members of 2, 5, 10, 15, 20 inside [min, max], above it they run from
    [min] rounded to [max] rounded. *)
Theorem getLinearTicks_ascending min max :
  min <= max ->
  let ticks := getLinearTicks min max in
  Sorted Rle ticks /\
  Forall (fun t => exists z : Z, t = IZR z) ticks /\
  (length ticks <= 5)%nat /\
  (max <= 20 ->
   forall t, In t ticks <-> In t [2; 5; 10; 15; 20] /\ min <= t <= max) /\
  (20 < max ->
   hd 0 ticks = JS.round min /\ last ticks 0 = JS.round max).
Proof.
  intro Hle; cbv zeta; unfold getLinearTicks.
  destruct (leb_reflect max 20) as [H20 | H20].
  - split; [ | split; [ | split; [ | split]]].
    + apply StronglySorted_Sorted, sorted_filter.
      repeat (constructor; [ | repeat (constructor; try lra)]).
      constructor.
    + apply Forall_forall; intros t Ht; apply filter_In in Ht.
      destruct Ht as [Hin _]; simpl in Hin.
      destruct Hin as [<- | [<- | [<- | [<- | [<- | []]]]]];
        eexists; reflexivity.
    + change 5%nat with (length [2; 5; 10; 15; 20]).
      apply filter_length_le.
    + intros _ t; rewrite filter_In.
      split; intros [Hin Hc]; (split; [exact Hin | ]).
      * apply andb_true_iff in Hc; destruct Hc as [H1 H2].
        destruct (geb_reflect t min); [ | discriminate].
        destruct (leb_reflect t max); [lra | discriminate].
      * apply andb_true_iff; split.
        -- destruct (geb_reflect t min); [reflexivity | lra].
        -- destruct (leb_reflect t max); [reflexivity | lra].
    + intro Habs; lra.
  - cbv zeta; simpl map.
    assert (Hstep : 0 <= (max - min) / 4) by lra.
    split; [ | split; [ | split; [ | split]]].
    + repeat (constructor; [ | try (constructor; apply round_le; lra)]).
      constructor.
    + repeat constructor; unfold JS.round; eexists; reflexivity.
    + simpl; lia.
    + intro Habs; lra.
    + intros _; split; reflexivity.
Qed.

Lemma getLinearTicks_ascending_witness :
  Sorted Rle (getLinearTicks 0 100) /\
  hd 0 (getLinearTicks 0 100) = JS.round 0.
Proof.
  destruct (getLinearTicks_ascending 0 100) as (H1 & _ & _ & _ & H2);
    [lra | ].
  split; [exact H1 | apply H2; lra].
Defined.

Lemma pow10_INR n : JS.pow 10 (INR n) = 10 ^ n.
Proof. unfold JS.pow; apply Rpower_pow; lra. Qed.

Lemma pow10_unbounded n : INR n < 10 ^ n.
Proof.
  induction n as [ | n IH]; [simpl; lra | ].
  rewrite S_INR; simpl pow.
  assert (1 <= 10 ^ n) by (apply pow_R1_Rle; lra). lra.
Qed.

Lemma pow10_nat_le n m : (n <= m)%nat -> 10 ^ n <= 10 ^ m.
Proof. intro H; apply Rle_pow; [lra | exact H]. Qed.

Lemma pow10_nat_pos n : 0 < 10 ^ n.
Proof. apply pow_lt; lra. Qed.

(** The loop from power [n] on, with at least [d + 1] units of fuel where
    [10 ^ (n + d)] reaches [max]: it appends exactly the powers of ten
    from [10 ^ n] that lie strictly between [min] and [max]. *)
Lemma logTicksLoop_spec min max d :
  forall n fuel ticks,
    max <= 10 ^ (n + d) -> (d < fuel)%nat ->
    exists tl,
      logTicksLoop fuel min max (INR n) (JS.pow 10 (INR n)) ticks
        = Some (ticks ++ tl)%list /\
      Forall (fun t => min < t < max /\ 10 ^ n <= t) tl /\
      StronglySorted Rlt tl /\
      (forall j, (n <= j)%nat -> min < 10 ^ j < max -> In (10 ^ j) tl) /\
      (forall t, In t tl -> exists j, (n <= j)%nat /\ t = 10 ^ j).
Proof.
  induction d as [ | d IH]; intros n fuel ticks Hmax Hfuel.
  - destruct fuel as [ | fuel]; [lia | ]; simpl.
    rewrite pow10_INR. rewrite Nat.add_0_r in Hmax.
    destruct (ltb_reflect (10 ^ n) max) as [Hlt | _]; [lra | ].
    exists []; rewrite app_nil_r.
    split; [reflexivity | ].
    split; [constructor | ].
    split; [constructor | ].
    split; [ | intros t []].
    intros j Hj [_ Hjm].
    pose proof (pow10_nat_le n j Hj); lra.
  - destruct fuel as [ | fuel]; [lia | ]; simpl.
    rewrite pow10_INR.
    destruct (ltb_reflect (10 ^ n) max) as [Hlt | Hge].
    + replace (INR n + 1) with (INR (S n)) by (rewrite S_INR; ring).
      assert (Hmax' : max <= 10 ^ (S n + d))
        by (replace (S n + d)%nat with (n + S d)%nat by lia; exact Hmax).
      assert (Hfuel' : (d < fuel)%nat) by lia.
      assert (Hstep : 10 ^ n < 10 ^ S n)
        by (pose proof (pow10_nat_pos n); simpl; lra).
      destruct (gtb_reflect (10 ^ n) min) as [Hmin | Hmin].
      * destruct (IH (S n) fuel (ticks ++ [10 ^ n])%list Hmax' Hfuel')
          as (tl & Eq & Hall & Hsort & Hcomp & Hsound).
        exists (10 ^ n :: tl).
        rewrite Eq, <- app_assoc; simpl.
        split; [reflexivity | ].
        split.
        { constructor; [lra | ].
          eapply Forall_impl; [ | exact Hall]; intros t Ht; cbv beta in *; lra. }
        split.
        { constructor; [exact Hsort | ].
          eapply Forall_impl; [ | exact Hall]; intros t Ht; cbv beta in *; lra. }
        split.
        { intros j Hj Hb.
          destruct (Nat.eq_dec j n) as [-> | Hne]; [now left | right].
          apply Hcomp; [lia | exact Hb]. }
        intros t [<- | Hin]; [exists n; split; [lia | reflexivity] | ].
        destruct (Hsound t Hin) as (j & Hj & Ej).
        exists j; split; [lia | exact Ej].
      * destruct (IH (S n) fuel ticks Hmax' Hfuel')
          as (tl & Eq & Hall & Hsort & Hcomp & Hsound).
        exists tl; rewrite Eq.
        split; [reflexivity | ].
        split.
        { eapply Forall_impl; [ | exact Hall]; intros t Ht; cbv beta in *; lra. }
        split; [exact Hsort | ].
        split.
        { intros j Hj Hb.
          destruct (Nat.eq_dec j n) as [-> | Hne]; [lra | ].
          apply Hcomp; [lia | exact Hb]. }
        intros t Hin.
        destruct (Hsound t Hin) as (j & Hj & Ej).
        exists j; split; [lia | exact Ej].
    + exists []; rewrite app_nil_r.
      split; [reflexivity | ].
      split; [constructor | ].
      split; [constructor | ].
      split; [ | intros t []].
      intros j Hj [_ Hjm].
      pose proof (pow10_nat_le n j Hj); lra.
Qed.

Lemma pow10_lt x y : x < y -> JS.pow 10 x < JS.pow 10 y.
Proof.
  intro H; unfold JS.pow, Rpower; apply exp_increasing.
  apply Rmult_lt_compat_r; [apply ln10_pos | exact H].
Qed.

Lemma remainder_whole j : remainder (INR j) 1 = 0.
Proof.
  unfold remainder, Math_trunc.
  replace (INR j / 1) with (INR j) by field.
  pose proof (pos_INR j) as Hj.
  destruct (ltb_reflect (INR j) 0); [lra | ].
  unfold JS.floor; rewrite INR_IZR_INZ, ZfloorZ; ring.
Qed.

(** The first power of ten that the loop looks at. *)
Lemma first_power min :
  1 <= min ->
  exists n0 : nat,
    Math_ceil (toLog min) = INR n0 /\
    min <= 10 ^ n0 /\
    (forall j, (j < n0)%nat -> 10 ^ j < min).
Proof.
  intro Hmin.
  pose proof (Zceil_bound (toLog min)) as [Hlo Hhi].
  pose proof (toLog_nonneg min) as H0.
  assert (Hk : (0 <= Zceil (toLog min))%Z) by (apply le_IZR; lra).
  exists (Z.to_nat (Zceil (toLog min))).
  assert (EI : INR (Z.to_nat (Zceil (toLog min)))
               = IZR (Zceil (toLog min)))
    by (rewrite INR_IZR_INZ, Z2Nat.id; [reflexivity | exact Hk]).
  split; [unfold Math_ceil; now rewrite EI | ].
  rewrite toLog_ge_1 in * by exact Hmin.
  split.
  - rewrite <- pow10_INR, EI.
    rewrite <- (pow10_log10 min) at 1 by lra.
    now apply pow10_le.
  - intros j Hj.
    rewrite <- pow10_INR.
    rewrite <- (pow10_log10 min) at 1 by lra.
    apply pow10_lt.
    assert (INR j + 1 <= INR (Z.to_nat (Zceil (JS.log10 min)))).
    { rewrite <- S_INR; apply le_INR; lia. }
    lra.
Qed.

Lemma enough_powers max n : exists d : nat, max <= 10 ^ (n + d).
Proof.
  exists (Z.to_nat (up max)).
  destruct (archimed max) as [Hup _].
  pose proof (pow10_unbounded (n + Z.to_nat (up max))) as Hp.
  destruct (Z_le_gt_dec 0 (up max)) as [Hpos | Hneg].
  - assert (IZR (up max) <= INR (n + Z.to_nat (up max))).
    { rewrite plus_INR, (INR_IZR_INZ (Z.to_nat _)), Z2Nat.id by exact Hpos.
      pose proof (pos_INR n); lra. }
    lra.
  - assert (IZR (up max) < 0) by (apply IZR_lt; lia).
    pose proof (pos_INR (n + Z.to_nat (up max))); lra.
Qed.

(** X29.  With enough fuel [getLogTicks] terminates, and for
    [1 <= min <= max] its ticks are in ascending order inside
    [min, max], contain every power of ten of that interval (the two ends
    included when they are powers of ten), and contain nothing but powers
    of ten and possibly [max] itself. *)
Theorem getLogTicks_powers min max :
  1 <= min -> min <= max ->
  exists fuel0 : nat,
    forall fuel, (fuel0 <= fuel)%nat ->
    exists ticks,
      getLogTicks fuel min max = Some ticks /\
      Forall (fun t => min <= t <= max) ticks /\
      Sorted Rle ticks /\
      (forall j : nat, min <= 10 ^ j <= max -> In (10 ^ j) ticks) /\
      (forall t, In t ticks -> t = max \/ exists j : nat, t = 10 ^ j).
Proof.
  intros Hmin Hle.
  destruct (first_power min Hmin) as (n0 & Ec & Hfirst & Hbelow).
  destruct (enough_powers max n0) as (d & Hd).
  exists (S d); intros fuel Hfuel.
  unfold getLogTicks; cbv zeta; rewrite Ec.
  set (init := if JS.pow 10 (INR n0) === min then [min] else []).
  destruct (logTicksLoop_spec min max d n0 fuel init Hd)
    as (tl & Eq & Hall & Hsort & Hcomp & Hsound); [lia | ].
  rewrite Eq.
  set (final := if Math_abs (remainder (toLog max) 1) <? 1e-9
                then [max] else []).
  exists (init ++ tl ++ final)%list.
  assert (Hinit : init = [min] /\ 10 ^ n0 = min \/
                  init = [] /\ 10 ^ n0 <> min).
  { unfold init; rewrite pow10_INR.
    destruct (eqb_reflect (10 ^ n0) min); auto. }
  assert (Hfinal : final = [max] \/ final = []).
  { unfold final; destruct (_ <? _); auto. }
  split.
  { f_equal; unfold final; destruct (_ <? _);
      [now rewrite app_assoc | now rewrite app_nil_r]. }
  assert (Hin_init : forall t, In t init -> t = min /\ 10 ^ n0 = min).
  { intros t Ht; destruct Hinit as [[-> E] | [-> _]];
      [destruct Ht as [<- | []]; auto | destruct Ht]. }
  assert (Hin_final : forall t, In t final -> t = max).
  { intros t Ht; destruct Hfinal as [-> | ->];
      [destruct Ht as [<- | []]; auto | destruct Ht]. }
  rewrite Forall_forall in Hall.
  split; [ | split; [ | split]].
  - apply Forall_forall; intros t Ht.
    apply in_app_or in Ht; destruct Ht as [Ht | Ht].
    + destruct (Hin_init t Ht) as [-> _]; lra.
    + apply in_app_or in Ht; destruct Ht as [Ht | Ht].
      * destruct (Hall t Ht) as [Hb _]; lra.
      * rewrite (Hin_final t Ht); lra.
  - apply StronglySorted_Sorted.
    assert (Htail : StronglySorted Rle (tl ++ final)).
    { clear Eq Hcomp Hsound.
      induction Hsort as [ | a l Hs IH Ha]; simpl.
      - destruct Hfinal as [-> | ->]; repeat constructor.
      - constructor.
        + apply IH; intros x Hx; apply Hall; now right.
        + apply Forall_forall; intros x Hx.
          apply in_app_or in Hx; destruct Hx as [Hx | Hx].
          * rewrite Forall_forall in Ha; left; now apply Ha.
          * rewrite (Hin_final x Hx).
            destruct (Hall a (or_introl eq_refl)) as [Hb _]; lra. }
    destruct Hinit as [[-> E] | [-> _]]; simpl; [ | exact Htail].
    constructor; [exact Htail | ].
    apply Forall_forall; intros x Hx.
    apply in_app_or in Hx; destruct Hx as [Hx | Hx].
    + destruct (Hall x Hx) as [Hb _]; lra.
    + rewrite (Hin_final x Hx); exact Hle.
  - intros j [Hj1 Hj2].
    destruct Hj1 as [Hj1 | Hj1].
    + destruct Hj2 as [Hj2 | Hj2].
      * apply in_or_app; right; apply in_or_app; left.
        apply Hcomp; [ | lra].
        destruct (Nat.le_gt_cases n0 j) as [Hn | Hn]; [exact Hn | ].
        pose proof (Hbelow j Hn); lra.
      * apply in_or_app; right; apply in_or_app; right.
        assert (Hmax1 : 1 <= max) by lra.
        assert (Elog : toLog max = INR j).
        { rewrite toLog_ge_1 by exact Hmax1.
          rewrite <- Hj2, <- pow10_INR; apply log10_pow10. }
        unfold final; rewrite Elog, remainder_whole.
        unfold Math_abs; rewrite Rabs_R0.
        destruct (ltb_reflect 0 1e-9); [rewrite Hj2; now left | lra].
    + apply in_or_app; left.
      assert (En : j = n0).
      { destruct (Nat.lt_trichotomy j n0) as [Hlt | [E | Hgt]];
          [ | exact E | ].
        - pose proof (Hbelow j Hlt); lra.
        - assert (10 ^ n0 < 10 ^ j)
            by (apply Rlt_pow; [lra | exact Hgt]).
          lra. }
      subst j.
      destruct Hinit as [[-> E] | [_ N]];
        [rewrite <- Hj1; now left | now contradiction N].
  - intros t Ht.
    apply in_app_or in Ht; destruct Ht as [Ht | Ht].
    + destruct (Hin_init t Ht) as [-> E]; right; exists n0; now rewrite E.
    + apply in_app_or in Ht; destruct Ht as [Ht | Ht].
      * destruct (Hsound t Ht) as (j & _ & Ej); right; now exists j.
      * left; exact (Hin_final t Ht).
Qed.

Lemma getLogTicks_powers_witness :
  exists fuel0 : nat,
    forall fuel, (fuel0 <= fuel)%nat ->
    exists ticks,
      getLogTicks fuel 10 10000 = Some ticks /\
      Forall (fun t => 10 <= t <= 10000) ticks /\
      Sorted Rle ticks /\
      (forall j : nat, 10 <= 10 ^ j <= 10000 -> In (10 ^ j) ticks) /\
      (forall t, In t ticks -> t = 10000 \/ exists j : nat, t = 10 ^ j).
Proof. apply (getLogTicks_powers 10 10000); lra. Defined.

(** ** Painting the canvas (src/components/PhaseChart.tsx) *)

Lemma toUint8Clamp_byte x : (0 <= toUint8Clamp x <= 255)%Z.
Proof.
  unfold toUint8Clamp.
  destruct (leb_reflect x 0); [lia | ].
  destruct (geb_reflect x 255); [lia | ].
  cbv zeta.
  pose proof (Zfloor_bound x) as Hb.
  assert (H0 : (0 <= Zfloor x)%Z) by (apply Zfloor_lub; lra).
  assert (H1 : (Zfloor x < 255)%Z) by (apply lt_IZR; lra).
  destruct (_ <? x); [lia | ].
  destruct (x <? _); [lia | ].
  destruct (Z.even _); lia.
Qed.

Lemma store4 done a0 a1 a2 a3 x0 x1 x2 x3 rest :
  forall i, i = length done ->
  store (i + 3) a3
    (store (i + 2) a2
       (store (i + 1) a1
          (store i a0 (done ++ x0 :: x1 :: x2 :: x3 :: rest)%list)))
  = (done ++ a0 :: a1 :: a2 :: a3 :: rest)%list.
Proof.
  induction done as [ | d done IH]; intros i ->; simpl.
  - reflexivity.
  - f_equal; apply IH; reflexivity.
Qed.

Lemma zeros_4 m :
  repeat 0%Z (4 * S m) = (0 :: 0 :: 0 :: 0 :: repeat 0%Z (4 * m))%Z.
Proof.
  replace (4 * S m)%nat with (S (S (S (S (4 * m))))) by lia.
  reflexivity.
Qed.

Lemma pixelBytes_length xc yc gc iv py px :
  length (pixelBytes xc yc gc iv py px) = 4%nat.
Proof. unfold pixelBytes; cbv zeta; destruct (iv _ _); reflexivity. Qed.

#[local] Opaque CANVAS_RES_X CANVAS_RES_Y.

Lemma seq_nil a : seq a 0 = [].
Proof. reflexivity. Qed.

Lemma seq_cons a n : seq a (S n) = a :: seq (S a) n.
Proof. reflexivity. Qed.

Lemma fold_left_nil {A B : Type} (f : A -> B -> A) x :
  fold_left f [] x = x.
Proof. reflexivity. Qed.

Lemma fold_left_cons {A B : Type} (f : A -> B -> A) b l x :
  fold_left f (b :: l) x = fold_left f l (f x b).
Proof. reflexivity. Qed.

Lemma flat_map_nil {A B : Type} (f : A -> list B) : flat_map f [] = [].
Proof. reflexivity. Qed.

Lemma flat_map_cons {A B : Type} (f : A -> list B) a l :
  flat_map f (a :: l) = (f a ++ flat_map f l)%list.
Proof. reflexivity. Qed.

Section Paint.
Variables xConfig yConfig : Axis.Config.
Variable getColor : R -> R -> RGB.
Variable isValid : R -> R -> bool.

Let bytes := pixelBytes xConfig yConfig getColor isValid.
Let rowBytes (py : nat) : list Z :=
  flat_map (bytes py) (seq 0 CANVAS_RES_X).

Lemma paintPixel_step py px done m :
  length done = ((py * CANVAS_RES_X + px) * 4)%nat ->
  paintPixel xConfig getColor isValid py
    (getValue yConfig (1 - INR py / INR CANVAS_RES_Y))
    (done ++ repeat 0%Z (4 * S m))%list px
  = (done ++ bytes py px ++ repeat 0%Z (4 * m))%list.
Proof.
  intro Hlen; unfold paintPixel, bytes, pixelBytes; cbv zeta.
  rewrite zeros_4.
  destruct (isValid _ _); simpl app;
    apply store4; symmetry; exact Hlen.
Qed.

Lemma flat_map_length_4 py a n :
  length (flat_map (bytes py) (seq a n)) = (4 * n)%nat.
Proof.
  revert a; induction n as [ | n IH]; intro a; simpl; [lia | ].
  rewrite length_app, IH; unfold bytes; rewrite pixelBytes_length; lia.
Qed.

Lemma paintPixels_spec py n :
  forall a done m,
    length done = ((py * CANVAS_RES_X + a) * 4)%nat ->
    fold_left
      (paintPixel xConfig getColor isValid py
         (getValue yConfig (1 - INR py / INR CANVAS_RES_Y)))
      (seq a n) (done ++ repeat 0%Z (4 * (n + m)))%list
    = (done ++ flat_map (bytes py) (seq a n) ++ repeat 0%Z (4 * m))%list.
Proof.
  induction n as [ | n IH]; intros a done m Hlen; [reflexivity | ].
  cbn [seq fold_left flat_map].
  replace (S n + m)%nat with (S (n + m)) by lia.
  rewrite paintPixel_step by exact Hlen.
  rewrite app_assoc, IH.
  - now rewrite <- !app_assoc.
  - rewrite length_app; unfold bytes; rewrite pixelBytes_length; lia.
Qed.

Lemma rowBytes_length py : length (rowBytes py) = (4 * CANVAS_RES_X)%nat.
Proof. apply flat_map_length_4. Qed.

Lemma rows_length a n :
  length (flat_map rowBytes (seq a n)) = (4 * CANVAS_RES_X * n)%nat.
Proof.
  revert a; induction n as [ | n IH]; intro a; cbn [seq flat_map length].
  - now rewrite Nat.mul_0_r.
  - rewrite length_app, IH, rowBytes_length; lia.
Qed.

Lemma paintRow_step py done m :
  length done = (4 * CANVAS_RES_X * py)%nat ->
  paintRow xConfig yConfig getColor isValid
    (done ++ repeat 0%Z (4 * (CANVAS_RES_X + m)))%list py
  = (done ++ rowBytes py ++ repeat 0%Z (4 * m))%list.
Proof.
  intro Hlen; unfold paintRow; cbv zeta.
  apply paintPixels_spec; lia.
Qed.

Lemma paintRows_spec n :
  forall a done m,
    length done = (4 * CANVAS_RES_X * a)%nat ->
    fold_left (paintRow xConfig yConfig getColor isValid) (seq a n)
      (done ++ repeat 0%Z (4 * (CANVAS_RES_X * n + m)))%list
    = (done ++ flat_map rowBytes (seq a n) ++ repeat 0%Z (4 * m))%list.
Proof.
  induction n as [ | n IH]; intros a done m Hlen.
  - rewrite seq_nil, fold_left_nil, flat_map_nil, app_nil_l.
    rewrite Nat.mul_0_r, Nat.add_0_l; reflexivity.
  - rewrite seq_cons, fold_left_cons, flat_map_cons.
    replace (CANVAS_RES_X * S n + m)%nat
      with (CANVAS_RES_X + (CANVAS_RES_X * n + m))%nat by lia.
    rewrite paintRow_step by exact Hlen.
    rewrite app_assoc, IH.
    + rewrite <- !app_assoc; reflexivity.
    + rewrite length_app, rowBytes_length; lia.
Qed.

Lemma paint_rows :
  paint xConfig yConfig getColor isValid
  = flat_map rowBytes (seq 0 CANVAS_RES_Y).
Proof.
  unfold paint; cbv zeta.
  replace (CANVAS_RES_X * CANVAS_RES_Y * 4)%nat
    with (4 * (CANVAS_RES_X * CANVAS_RES_Y + 0))%nat by lia.
  change (repeat 0%Z (4 * (CANVAS_RES_X * CANVAS_RES_Y + 0)))
    with ([] ++ repeat 0%Z (4 * (CANVAS_RES_X * CANVAS_RES_Y + 0)))%list.
  rewrite paintRows_spec by (cbn [length]; lia).
  rewrite Nat.mul_0_r; cbn [repeat app]; apply app_nil_r.
Qed.

End Paint.

Lemma nth_error_chunks {A : Type} (f : nat -> list A) c n :
  (forall i, length (f i) = c) ->
  forall a i j, (i < n)%nat -> (j < c)%nat ->
    nth_error (flat_map f (seq a n)) (i * c + j) = nth_error (f (a + i)%nat) j.
Proof.
  intro Hlen; induction n as [ | n IH]; intros a i j Hi Hj; [lia | ].
  rewrite seq_cons, flat_map_cons.
  destruct i as [ | i].
  - rewrite Nat.mul_0_l, Nat.add_0_l, Nat.add_0_r.
    apply nth_error_app1; rewrite Hlen; exact Hj.
  - rewrite nth_error_app2 by (rewrite Hlen; lia).
    rewrite Hlen.
    replace (S i * c + j - c)%nat with (i * c + j)%nat by lia.
    rewrite IH by lia.
    f_equal; f_equal; lia.
Qed.

Lemma paint_as_rows xConfig yConfig getColor isValid :
  paint xConfig yConfig getColor isValid =
  flat_map
    (fun py =>
       flat_map (pixelBytes xConfig yConfig getColor isValid py)
         (seq 0 CANVAS_RES_X))
    (seq 0 CANVAS_RES_Y).
Proof. apply paint_rows. Qed.

Lemma row_length xConfig yConfig getColor isValid py :
  length (flat_map (pixelBytes xConfig yConfig getColor isValid py)
            (seq 0 CANVAS_RES_X)) = (CANVAS_RES_X * 4)%nat.
Proof.
  rewrite (flat_map_length_4 xConfig yConfig getColor isValid); lia.
Qed.

Lemma sample_in_range config n k :
  validAxis config -> (k <= n)%nat -> (0 < n)%nat ->
  Axis.min config <= getValue config (INR k / INR n) <= Axis.max config /\
  Axis.min config <= getValue config (1 - INR k / INR n)
    <= Axis.max config.
Proof.
  intros Hv Hk Hn.
  destruct (getValue_ends config Hv) as [E0 E1].
  assert (Hpos : 0 < INR n) by (apply lt_0_INR; exact Hn).
  assert (Hu : 0 <= INR k / INR n <= 1).
  { assert (0 <= INR k) by apply pos_INR.
    assert (INR k <= INR n) by (apply le_INR; exact Hk).
    assert (0 < / INR n) by now apply Rinv_0_lt_compat.
    split; [apply Rmult_le_pos; lra | ].
    apply (Rmult_le_reg_r (INR n)); [exact Hpos | ].
    unfold Rdiv; rewrite Rmult_assoc, Rinv_l by lra; lra. }
  rewrite <- E0, <- E1.
  repeat split; apply getValue_le; (assumption || lra).
Qed.

(** X30.  The paint effect covers the canvas exactly: the buffer handed
    to [putImageData] has 150 x 100 x 4 entries, all of them bytes, and
    the four entries of the pixel in row [py] and column [px] are the
    clamped colour of the parameter point that pixel samples (or the
    invalid-zone colour) followed by an alpha of 255; no pixel is left
    unpainted and none is overwritten.  On valid axes every sampled
    point lies within the axis ranges. *)
Theorem paint_covers_canvas xConfig yConfig getColor isValid :
  let data := paint xConfig yConfig getColor isValid in
  length data = (CANVAS_RES_X * CANVAS_RES_Y * 4)%nat /\
  Forall (fun z => (0 <= z <= 255)%Z) data /\
  (forall py px c,
     (py < CANVAS_RES_Y)%nat -> (px < CANVAS_RES_X)%nat -> (c < 4)%nat ->
     nth_error data ((py * CANVAS_RES_X + px) * 4 + c) =
     nth_error (pixelBytes xConfig yConfig getColor isValid py px) c) /\
  (forall py px,
     (py < CANVAS_RES_Y)%nat -> (px < CANVAS_RES_X)%nat ->
     nth_error data ((py * CANVAS_RES_X + px) * 4 + 3) = Some 255%Z) /\
  (validAxis xConfig -> validAxis yConfig ->
   forall py px,
     (py < CANVAS_RES_Y)%nat -> (px < CANVAS_RES_X)%nat ->
     Axis.min xConfig <= getValue xConfig (INR px / INR CANVAS_RES_X)
       <= Axis.max xConfig /\
     Axis.min yConfig <= getValue yConfig (1 - INR py / INR CANVAS_RES_Y)
       <= Axis.max yConfig).
Proof.
  cbv zeta; rewrite paint_as_rows.
  set (bytes := pixelBytes xConfig yConfig getColor isValid).
  set (row := fun py => flat_map (bytes py) (seq 0 CANVAS_RES_X)).
  assert (Hrow : forall py, length (row py) = (CANVAS_RES_X * 4)%nat)
    by (intro py; apply row_length).
  assert (Hcell : forall py px c,
            (py < CANVAS_RES_Y)%nat -> (px < CANVAS_RES_X)%nat ->
            (c < 4)%nat ->
            nth_error (flat_map row (seq 0 CANVAS_RES_Y))
              ((py * CANVAS_RES_X + px) * 4 + c)
            = nth_error (bytes py px) c).
  { intros py px c Hpy Hpx Hc.
    replace ((py * CANVAS_RES_X + px) * 4 + c)%nat
      with (py * (CANVAS_RES_X * 4) + (px * 4 + c))%nat by lia.
    rewrite (nth_error_chunks row (CANVAS_RES_X * 4) CANVAS_RES_Y Hrow)
      by lia.
    rewrite Nat.add_0_l; unfold row.
    rewrite (nth_error_chunks (bytes py) 4 CANVAS_RES_X)
      by (try lia; intro i; apply pixelBytes_length).
    reflexivity. }
  split; [ | split; [ | split; [exact Hcell | split]]].
  - rewrite (rows_length xConfig yConfig getColor isValid); lia.
  - apply Forall_flat_map, Forall_forall; intros py _.
    apply Forall_flat_map, Forall_forall; intros px _.
    unfold bytes, pixelBytes; cbv zeta.
    destruct (isValid _ _); repeat constructor;
      try apply toUint8Clamp_byte; lia.
  - intros py px Hpy Hpx; rewrite Hcell by lia.
    unfold bytes, pixelBytes; cbv zeta.
    destruct (isValid _ _); reflexivity.
  - intros Hvx Hvy py px Hpy Hpx.
    assert (HX : (0 < CANVAS_RES_X)%nat) by lia.
    assert (HY : (0 < CANVAS_RES_Y)%nat) by lia.
    destruct (sample_in_range xConfig CANVAS_RES_X px Hvx) as [H1 _];
      [lia | lia | ].
    destruct (sample_in_range yConfig CANVAS_RES_Y py Hvy) as [_ H2];
      [lia | lia | ].
    split; assumption.
Qed.

#[local] Transparent CANVAS_RES_X CANVAS_RES_Y.
